(** * Creatinine clearance (Cockcroft-Gault) calculator

    A shallow embedding of [main.py]: the form schema [CrClFormInput], the
    helper [calculate_ibw] and the endpoint body [calculate_crcl].

    Python's [float] is IEEE 754 binary64, so it is embedded as Rocq's
    primitive [float]: [+], [-], [*] and [/] below are the very operations
    CPython performs, on the same 64-bit values, and decimal literals such
    as [0.453592] denote the same nearest double.  Python's [int] is [Z].
    What can raise in Python returns in the [result] monad. *)

From Stdlib Require Import ZArith Bool List Lia.
From Stdlib Require Import Floats.
From Stdlib Require Import Ascii String DecimalString.
From Stdlib Require QArith Qabs Lqa.

#[local] Set Warnings "-inexact-float".
#[local] Open Scope Z_scope.

(* ================================================================== *)
(** ** Exceptions *)

Inductive exn : Type :=
| OverflowError
| ValueError
| ZeroDivisionError
| ValidationError.

Inductive result (A : Type) : Type :=
| Ok (a : A)
| Raise (e : exn).

Arguments Ok {A} a.
Arguments Raise {A} e.

Definition bind {A B : Type} (r : result A) (k : A -> result B) : result B :=
  match r with
  | Ok a => k a
  | Raise e => Raise e
  end.

Notation "x <- r ;; k" := (bind r (fun x => k))
  (at level 61, r at next level, right associativity).

Definition returns {A : Type} (r : result A) : bool :=
  match r with Ok _ => true | Raise _ => false end.

(* ================================================================== *)
(** ** Python numbers *)

Module Py.

(** [float(n)] for an [int]: the nearest double, ties to even;
    [OverflowError] when that is beyond the largest double. *)
Definition float_of_int (n : Z) : result float :=
  match binary_normalize prec emax n 0 false with
  | S754_infinity _ => Raise OverflowError
  | sf => Ok (SF2Prim sf)
  end.

(** [int * float], [int - float], ...: the [int] operand is converted
    first. *)
Definition int_mul_float (n : Z) (x : float) : result float :=
  fn <- float_of_int n ;; Ok (fn * x)%float.

(** [x / y] on floats: [ZeroDivisionError] on a zero divisor (of either
    sign), the IEEE quotient otherwise. *)
Definition truediv (x y : float) : result float :=
  if (y =? 0)%float then Raise ZeroDivisionError else Ok (x / y)%float.

(** The integer nearest to [m / 2^k], ties to the even one. *)
Definition round_half_even_shift (m : Z) (k : Z) : Z :=
  let q := Z.shiftr m k in
  let r := m - Z.shiftl q k in
  match Z.compare (2 * r) (Z.shiftl 1 k) with
  | Lt => q
  | Gt => q + 1
  | Eq => if Z.even q then q else q + 1
  end.

(** The integer nearest to [m * 2^e] for a positive mantissa. *)
Definition round_mantissa (m : positive) (e : Z) : Z :=
  match e with
  | Zneg k => round_half_even_shift (Zpos m) (Zpos k)
  | _ => Z.shiftl (Zpos m) e
  end.

(** [round(x)] with one argument: the nearest [int], ties to even;
    [OverflowError] on an infinity, [ValueError] on a NaN. *)
Definition round (x : float) : result Z :=
  match Prim2SF x with
  | S754_nan => Raise ValueError
  | S754_infinity _ => Raise OverflowError
  | S754_zero _ => Ok 0
  | S754_finite s m e => Ok (cond_Zopp s (round_mantissa m e))
  end.

End Py.

(* ================================================================== *)
(** ** The form schema *)

Inductive UnitSystem : Type := metric | imperial.
Inductive Sex : Type := male | female.

Definition UnitSystem_eqb (a b : UnitSystem) : bool :=
  match a, b with
  | metric, metric | imperial, imperial => true
  | _, _ => false
  end.

Definition Sex_eqb (a b : Sex) : bool :=
  match a, b with
  | male, male | female, female => true
  | _, _ => false
  end.

Record CrClFormInput : Type := {
  unit_system : UnitSystem;
  weight : float;
  height : float;
  age : Z;
  serum_creatinine : float;
  sex : Sex
}.

(** The declared constraints: [gt=0] on the three floats, [ge=18] on
    the age.  A NaN fails [gt=0]; an infinity passes it. *)
Definition validated (data : CrClFormInput) : bool :=
  (0 <? data.(weight))%float &&
  (0 <? data.(height))%float &&
  (18 <=? data.(age)) &&
  (0 <? data.(serum_creatinine))%float.

(* ================================================================== *)
(** ** [calculate_ibw] *)

Definition calculate_ibw (height_in_inches : float) (sex : Sex) : float :=
  if Sex_eqb sex male
  then (50 + 2.3 * (height_in_inches - 60))%float
  else (45.5 + 2.3 * (height_in_inches - 60))%float.

(* ================================================================== *)
(** ** [calculate_crcl] *)

(** The local variables of [calculate_crcl] before the rounding step. *)
Record Locals : Type := {
  weight_in_kg : float;
  height_in_inches : float;
  ibw : float;
  abw : float;
  sex_factor : float;
  original_crcl : float;
  modified_crcl : float;
  crcl_using_ibw : float
}.

(** Unit conversion. *)
Definition convert_units (data : CrClFormInput) : result (float * float) :=
  if UnitSystem_eqb data.(unit_system) imperial
  then Ok ((data.(weight) * 0.453592)%float, data.(height))
  else h <- Py.truediv data.(height) 2.54 ;; Ok (data.(weight), h).

(** Adjusted body weight. *)
Definition adjusted_body_weight (weight_in_kg ibw : float) : float :=
  if (ibw <? weight_in_kg)%float
  then (ibw + 0.4 * (weight_in_kg - ibw))%float
  else weight_in_kg.

(** Everything up to and including the three unrounded clearances. *)
Definition crcl_locals (data : CrClFormInput) : result Locals :=
  wh <- convert_units data ;;
  let weight_in_kg := fst wh in
  let height_in_inches := snd wh in
  let ibw := calculate_ibw height_in_inches data.(sex) in
  let abw := adjusted_body_weight weight_in_kg ibw in
  let sex_factor := if Sex_eqb data.(sex) female then 0.85%float else 1.0%float in
  n1 <- Py.int_mul_float (140 - data.(age)) weight_in_kg ;;
  d1 <- Py.int_mul_float 72 data.(serum_creatinine) ;;
  original_crcl <- Py.truediv (n1 * sex_factor)%float d1 ;;
  n2 <- Py.int_mul_float (140 - data.(age)) abw ;;
  d2 <- Py.int_mul_float 72 data.(serum_creatinine) ;;
  modified_crcl <- Py.truediv (n2 * sex_factor)%float d2 ;;
  n3 <- Py.int_mul_float (140 - data.(age)) ibw ;;
  d3 <- Py.int_mul_float 72 data.(serum_creatinine) ;;
  crcl_using_ibw <- Py.truediv (n3 * sex_factor)%float d3 ;;
  Ok {| weight_in_kg := weight_in_kg;
        height_in_inches := height_in_inches;
        ibw := ibw;
        abw := abw;
        sex_factor := sex_factor;
        original_crcl := original_crcl;
        modified_crcl := modified_crcl;
        crcl_using_ibw := crcl_using_ibw |}.

(* ================================================================== *)
(** ** Python's text for numbers *)

Module PyStr.

#[local] Open Scope string_scope.
#[local] Open Scope Z_scope.

(** [str(n)] for an [int]. *)
Definition str_int (n : Z) : string := NilZero.string_of_int (Z.to_int n).

Definition sign_str (s : bool) : string := if s then "-" else "".

Fixpoint zeros (n : nat) : string :=
  match n with
  | O => ""
  | S n' => "0" ++ zeros n'
  end.

(** The double nearest to [num / den], ties to even, with sign [s]. *)
Definition nearest_double (s : bool) (num den : positive) : spec_float :=
  let '(q, e, l) := SFdiv_core_binary prec emax (Zpos num) 0 (Zpos den) 0 in
  binary_round_aux prec emax s q e l.

(** [m * 2^e * 10^(-k)] as a fraction of two positive integers. *)
Definition scaled (m : positive) (e k : Z) : Z * Z :=
  (Zpos m * 2 ^ Z.max e 0 * 10 ^ Z.max (- k) 0,
   2 ^ Z.max (- e) 0 * 10 ^ Z.max k 0).

(** The integer nearest to [n / d], ties to even ([d > 0]). *)
Definition round_half_even_div (n d : Z) : Z :=
  let q := n / d in
  let r := n mod d in
  match Z.compare (2 * r) d with
  | Lt => q
  | Gt => q + 1
  | Eq => if Z.even q then q else q + 1
  end.

(** [format(x, '.1f')] for a float: the decimal with one digit after the
    point that is nearest to the exact value of [x], ties to even. *)
Definition format_1f (x : float) : string :=
  match Prim2SF x with
  | S754_nan => "nan"
  | S754_infinity s => sign_str s ++ "inf"
  | S754_zero s => sign_str s ++ "0.0"
  | S754_finite s m e =>
      let '(n, d) := scaled m e (-1) in
      let t := round_half_even_div n d in
      sign_str s ++ str_int (t / 10) ++ "." ++ str_int (t mod 10)
  end.

(** [format(n, '.1f')] for an [int]: the int is converted with [float]
    first. *)
Definition format_int_1f (n : Z) : result string :=
  x <- Py.float_of_int n ;; Ok (format_1f x).

(** The decimal exponent [dp] of a positive value: the least [dp] at or
    above [lo] with [m * 2^e < 10^dp]. *)
Fixpoint decpt_from (fuel : nat) (m : positive) (e lo : Z) : Z :=
  match fuel with
  | O => lo
  | S fuel' =>
      let '(n, d) := scaled m e lo in
      if n <? d then lo else decpt_from fuel' m e (lo + 1)
  end.

(** The search starts just below [0.3 * log2 (m * 2^e)], which is at most
    two decades under the answer. *)
Definition decpt (m : positive) (e : Z) : Z :=
  let b := Zpos (digits2_pos m) + e - 1 in
  decpt_from 16 m e (3 * b / 10 - 2).

(** Whether the decimal [c * 10^k] reads back as the double [m * 2^e]. *)
Definition reads_back (m : positive) (e : Z) (c k : Z) : bool :=
  match c with
  | Zpos c' =>
      match nearest_double false (c' * Z.to_pos (10 ^ Z.max k 0))
                                 (Z.to_pos (10 ^ Z.max (- k) 0)) with
      | S754_finite _ m' e' => Pos.eqb m m' && Z.eqb e e'
      | _ => false
      end
  | _ => false
  end.

(** The shortest decimal that reads back as [m * 2^e], searched by
    increasing number [p] of significant digits: the result [(c, k)]
    stands for [c * 10^k]. *)
Fixpoint shortest_from (fuel : nat) (m : positive) (e dp p : Z) : Z * Z :=
  let k := dp - p in
  let '(n, d) := scaled m e k in
  let lo := n / d in
  let hi := lo + 1 in
  match fuel with
  | O => (round_half_even_div n d, k)
  | S fuel' =>
      let oklo := reads_back m e lo k in
      let okhi := reads_back m e hi k in
      if oklo && okhi then (round_half_even_div n d, k)
      else if oklo then (lo, k)
      else if okhi then (hi, k)
      else shortest_from fuel' m e dp (p + 1)
  end.

(** Trailing zeros of the digit string move into the exponent. *)
Fixpoint strip_zeros (fuel : nat) (c k : Z) : Z * Z :=
  match fuel with
  | O => (c, k)
  | S fuel' =>
      if (c mod 10 =? 0) && (0 <? c) then strip_zeros fuel' (c / 10) (k + 1)
      else (c, k)
  end.

(** [repr(x)] for a float, also what an f-string field without a format
    specification shows: the shortest digits that read back as [x], in
    positional notation with at least one digit after the point, or in
    exponent notation when the decimal exponent is below -3 or above 16. *)
Definition repr_finite (s : bool) (m : positive) (e : Z) : string :=
  let dp0 := decpt m e in
  let '(c0, k0) := shortest_from 16 m e dp0 1 in
  let '(c, k) := strip_zeros 400 c0 k0 in
  let digits := str_int c in
  let len := Z.of_nat (String.length digits) in
  let dp := k + len in
  if (dp <=? -4) || (16 <? dp) then
    let ex := dp - 1 in
    let mant :=
      match digits with
      | String d1 EmptyString => String d1 EmptyString
      | String d1 rest => String d1 ("." ++ rest)
      | EmptyString => ""
      end in
    let exdigits := str_int (Z.abs ex) in
    sign_str s ++ mant ++ "e" ++ (if ex <? 0 then "-" else "+")
      ++ (if Z.abs ex <? 10 then "0" else "") ++ exdigits
  else if dp <=? 0 then
    sign_str s ++ "0." ++ zeros (Z.to_nat (- dp)) ++ digits
  else if dp <? len then
    sign_str s ++ substring 0 (Z.to_nat dp) digits ++ "."
      ++ substring (Z.to_nat dp) (Z.to_nat (len - dp)) digits
  else
    sign_str s ++ digits ++ zeros (Z.to_nat (dp - len)) ++ ".0".

Definition repr_float (x : float) : string :=
  match Prim2SF x with
  | S754_nan => "nan"
  | S754_infinity s => sign_str s ++ "inf"
  | S754_zero s => sign_str s ++ "0.0"
  | S754_finite s m e => repr_finite s m e
  end.

End PyStr.

(** [round(x, 1)]: the double nearest to the one-decimal number nearest
    to [x] (both ties to even); a NaN, an infinity or a zero is returned
    unchanged. *)
Definition round_1 (x : float) : float :=
  match Prim2SF x with
  | S754_finite s m e =>
      let '(n, d) := PyStr.scaled m e (-1) in
      match PyStr.round_half_even_div n d with
      | Zpos t => SF2Prim (PyStr.nearest_double s t 10)
      | _ => SF2Prim (S754_zero s)
      end
  | _ => x
  end.


(** The int-valued locals after [round]. *)
Record Rounded : Type := {
  original_crcl_int : Z;
  modified_crcl_int : Z;
  crcl_using_ibw_int : Z
}.

Definition round_locals (l : Locals) : result Rounded :=
  o <- Py.round l.(original_crcl) ;;
  m <- Py.round l.(modified_crcl) ;;
  i <- Py.round l.(crcl_using_ibw) ;;
  Ok {| original_crcl_int := o; modified_crcl_int := m; crcl_using_ibw_int := i |}.

Record CrClFormOutput : Type := {
  out_original_crcl : string;
  out_modified_crcl : string;
  out_crcl_range : string
}.

Definition newline : string := String (ascii_of_nat 10) EmptyString.

(** The inner f-string [crcl_range]. *)
Definition crcl_range (r : Rounded) : result string :=
  lo <- PyStr.format_int_1f (Z.min r.(crcl_using_ibw_int) r.(modified_crcl_int)) ;;
  hi <- PyStr.format_int_1f (Z.max r.(crcl_using_ibw_int) r.(modified_crcl_int)) ;;
  Ok (lo ++ "-" ++ hi ++ " mL/min")%string.

Definition format_output (l : Locals) (r : Rounded) : result CrClFormOutput :=
  range <- crcl_range r ;;
  lbs <- Py.truediv l.(abw) 0.453592 ;;
  Ok {| out_original_crcl :=
          (PyStr.str_int r.(original_crcl_int) ++ " mL/min" ++ newline
             ++ "Creatinine clearance, original Cockcroft-Gault")%string;
        out_modified_crcl :=
          (PyStr.str_int r.(modified_crcl_int) ++ " mL/min" ++ newline
             ++ "Creatinine clearance modified for overweight patient, using adjusted body weight of "
             ++ PyStr.repr_float (round_1 l.(abw)) ++ " kg ("
             ++ PyStr.repr_float (round_1 lbs) ++ " lbs).")%string;
        out_crcl_range := (range ++ " mL/min")%string |}.

Definition calculate_crcl (data : CrClFormInput) : result CrClFormOutput :=
  l <- crcl_locals data ;;
  r <- round_locals l ;;
  format_output l r.

(* ================================================================== *)
(** ** The request boundary *)

(** A submitted form: each field present or not; the two enumerations
    arrive as text. *)
Record Form : Type := {
  form_unit_system : option string;
  form_weight : option float;
  form_height : option float;
  form_age : option Z;
  form_serum_creatinine : option float;
  form_sex : option string
}.

Definition required {A : Type} (o : option A) : result A :=
  match o with
  | Some a => Ok a
  | None => Raise ValidationError
  end.

Definition with_default {A : Type} (d : A) (o : option A) : A :=
  match o with
  | Some a => a
  | None => d
  end.

Definition check (b : bool) : result unit :=
  if b then Ok tt else Raise ValidationError.

Definition parse_unit_system (s : string) : result UnitSystem :=
  if String.eqb s "metric" then Ok metric
  else if String.eqb s "imperial" then Ok imperial
  else Raise ValidationError.

Definition parse_sex (s : string) : result Sex :=
  if String.eqb s "male" then Ok male
  else if String.eqb s "female" then Ok female
  else Raise ValidationError.

(** Building a [CrClFormInput] from a form, as the field declarations
    say: [unit_system] defaults to ["metric"], the other fields are
    required; [gt=0] on weight, height and serum creatinine, [ge=18] on
    age. *)
Definition parse_form (f : Form) : result CrClFormInput :=
  us <- parse_unit_system (with_default "metric"%string f.(form_unit_system)) ;;
  w <- required f.(form_weight) ;;
  _ <- check (0 <? w)%float ;;
  h <- required f.(form_height) ;;
  _ <- check (0 <? h)%float ;;
  a <- required f.(form_age) ;;
  _ <- check (18 <=? a) ;;
  c <- required f.(form_serum_creatinine) ;;
  _ <- check (0 <? c)%float ;;
  sx <- required f.(form_sex) ;;
  s <- parse_sex sx ;;
  Ok {| unit_system := us; weight := w; height := h; age := a;
        serum_creatinine := c; sex := s |}.

(** The endpoint: validation, then the calculation. *)
Definition endpoint (f : Form) : result CrClFormOutput :=
  data <- parse_form f ;;
  calculate_crcl data.

(* ================================================================== *)
(** ** Binary64 arithmetic on values

    What the proofs need in order to reason about the primitive
    operations: every finite double is an integer number of units of
    [2^-1074], and each operation is the exact operation on these
    integers followed by one rounding to 53 significant bits. *)

Module B64.

(** *** Mantissas with round and sticky bits *)

(** The integer nearest to [n / d], ties to even. *)
Definition rhe (n d : Z) : Z := PyStr.round_half_even_div n d.

(** A mantissa with its round and sticky bits, as one integer. *)
Definition key (mrs : shr_record) : Z :=
  4 * shr_m mrs + (if shr_r mrs then 2 else 0) + (if shr_s mrs then 1 else 0).

Definition code (l : location) : Z :=
  match l with
  | loc_Exact => 0
  | loc_Inexact Lt => 1
  | loc_Inexact Eq => 2
  | loc_Inexact Gt => 3
  end.

(** Twice the quotient, with a low bit that records a nonzero remainder. *)
Definition sq (a b : Z) : Z := 2 * (a / b) + (if a mod b =? 0 then 0 else 1).

(** Rounding to nearest even, read off a key. *)
Definition rne_key (k : Z) : Z :=
  let q := k / 4 in
  let c := k mod 4 in
  if c <=? 1 then q
  else if c =? 2 then (if Z.even q then q else q + 1)
  else q + 1.

(** The exponent of the last mantissa bit kept for a value below
    [2^b]. *)
Definition fexp64 (b : Z) : Z := Z.max (b - 53) (-1074).

(** How many low bits a mantissa [m] at exponent [e] has to lose. *)
Definition shift_amount (m e : Z) : Z :=
  Z.max 0 (fexp64 (Zdigits2 m + e) - e).

(** The last step of a rounding: a carry into the 54th bit is shifted
    out, and the exponent range is checked. *)
Definition finish (s : bool) (m e : Z) : spec_float :=
  let n := shift_amount m e in
  match m / 2 ^ n with
  | Z0 => S754_zero s
  | Zpos p => if e + n <=? 971 then S754_finite s p (e + n) else S754_infinity s
  | Zneg _ => S754_nan
  end.

(** *** Values and their rounding *)

(** A nonnegative fraction [a / b] rounded to an integer of at most 53
    significant bits, ties to even. *)
Definition ru (a b : Z) : Z :=
  let n := Z.max 0 (Zdigits2 (a / b) - 53) in
  rhe a (b * 2 ^ n) * 2 ^ n.

(** The value of a float in units of [2^-1074]; an infinity counts as
    [2^2098], just above every finite value. *)
Definition Fval (x : spec_float) : Z :=
  match x with
  | S754_zero _ => 0
  | S754_nan => 0
  | S754_infinity s => cond_Zopp s (2 ^ 2098)
  | S754_finite s m e => cond_Zopp s (Zpos m * 2 ^ (e + 1074))
  end.

Definition clamp (u : Z) : Z := Z.min u (2 ^ 2098).

(** *** Fractions in units *)

(** The fraction [n / d * 2^e] in units of [2^-1074]. *)
Definition units_num (n e : Z) : Z := n * 2 ^ Z.max 0 (e + 1074).
Definition units_den (d e : Z) : Z := d * 2 ^ Z.max 0 (- (e + 1074)).

(** A float that is a zero, a finite number or an infinity of sign [s]. *)
Definition signed (s : bool) (x : spec_float) : Prop :=
  x = S754_zero s \/ (exists m e, x = S754_finite s m e) \/ x = S754_infinity s.

(** *** Signed rounding *)

(** The signed rounding of [z / b] units. *)
Definition sround (z b : Z) : Z :=
  if z <? 0 then - clamp (ru (- z) b) else clamp (ru z b).

Definition finite_or_zero (x : spec_float) : bool :=
  match x with
  | S754_zero _ | S754_finite _ _ _ => true
  | _ => false
  end.

Definition not_nan (x : spec_float) : bool :=
  match x with
  | S754_nan => false
  | _ => true
  end.

(** *** Primitive floats as values *)

(** The value of a primitive float, in units of [2^-1074]. *)
Definition F (x : float) : Z := Fval (Prim2SF x).

(** Neither an infinity nor a NaN. *)
Definition fin (x : float) : bool := finite_or_zero (Prim2SF x).

(** The integer nearest to [z] units, ties to even. *)
Definition round_units (z : Z) : Z :=
  if z <? 0 then - rhe (- z) (2 ^ 1074) else rhe z (2 ^ 1074).

(** *** Nearest integers *)

(** [n] is an integer nearest to [num / den], the even one on a tie. *)
Definition nearest_even (num den n : Z) : Prop :=
  2 * Z.abs (n * den - num) <= den /\
  (2 * Z.abs (n * den - num) = den -> Z.even n = true).

(** The number of tenths nearest to the magnitude of [z] units. *)
Definition tenths (z : Z) : Z := rhe (10 * Z.abs z) (2 ^ 1074).

End B64.

(* ================================================================== *)
(** ** Inputs used as examples *)

(** Scenario 1 of the specification: metric, male. *)
Definition scenario_1 : CrClFormInput :=
  {| unit_system := metric; weight := 70; height := 170; age := 45;
     serum_creatinine := 1.1; sex := male |}.

(** Scenario 1 again, 25 kg heavier. *)
Definition scenario_1_heavier : CrClFormInput :=
  {| unit_system := metric; weight := 95; height := 170; age := 45;
     serum_creatinine := 1.1; sex := male |}.

(** Scenario 1 again, with a serum creatinine of 2 mg/dL. *)
Definition scenario_1_creatinine_2 : CrClFormInput :=
  {| unit_system := metric; weight := 70; height := 170; age := 45;
     serum_creatinine := 2; sex := male |}.

(** Scenario 1 again, aged 80. *)
Definition scenario_1_aged_80 : CrClFormInput :=
  {| unit_system := metric; weight := 70; height := 170; age := 80;
     serum_creatinine := 1.1; sex := male |}.

(** Scenario 1 again, female. *)
Definition scenario_1_female : CrClFormInput :=
  {| unit_system := metric; weight := 70; height := 170; age := 45;
     serum_creatinine := 1.1; sex := female |}.

(** Scenario 1 again, aged 140. *)
Definition scenario_1_aged_140 : CrClFormInput :=
  {| unit_system := metric; weight := 70; height := 170; age := 140;
     serum_creatinine := 1.1; sex := male |}.

(** Scenario 1 again, with an infinite weight. *)
Definition scenario_1_infinite_weight : CrClFormInput :=
  {| unit_system := metric; weight := infinity; height := 170; age := 45;
     serum_creatinine := 1.1; sex := male |}.

(** Scenario 1 again, 15 cm taller. *)
Definition scenario_1_taller : CrClFormInput :=
  {| unit_system := metric; weight := 70; height := 185; age := 45;
     serum_creatinine := 1.1; sex := male |}.

(** Scenario 2: imperial, female, lighter than the ideal weight. *)
Definition scenario_2 : CrClFormInput :=
  {| unit_system := imperial; weight := 110; height := 64; age := 30;
     serum_creatinine := 0.9; sex := female |}.

(** A very short stature: the ideal body weight is negative. *)
Definition short_stature : CrClFormInput :=
  {| unit_system := metric; weight := 70; height := 50; age := 45;
     serum_creatinine := 1.1; sex := male |}.

(** An overweight patient aged 150: [140 - age] is negative. *)
Definition aged_150 : CrClFormInput :=
  {| unit_system := metric; weight := 100; height := 170; age := 150;
     serum_creatinine := 1; sex := male |}.

(** Finite, positive measurements whose clearance exceeds every double. *)
Definition huge_clearance : CrClFormInput :=
  {| unit_system := metric; weight := 1e308; height := 170; age := 45;
     serum_creatinine := 1e-300; sex := male |}.

(** A form that leaves [unit_system] out. *)
Definition form_without_unit_system : Form :=
  {| form_unit_system := None; form_weight := Some 70%float;
     form_height := Some 170%float; form_age := Some 45;
     form_serum_creatinine := Some 1.1%float; form_sex := Some "male"%string |}.

(** A form that leaves the weight out. *)
Definition form_without_weight : Form :=
  {| form_unit_system := Some "imperial"%string; form_weight := None;
     form_height := Some 64%float; form_age := Some 30;
     form_serum_creatinine := Some 0.9%float; form_sex := Some "female"%string |}.

(** A form for a patient aged 17. *)
Definition form_minor : Form :=
  {| form_unit_system := None; form_weight := Some 70%float;
     form_height := Some 170%float; form_age := Some 17;
     form_serum_creatinine := Some 1.1%float; form_sex := Some "male"%string |}.

(** A form whose weight is not a number. *)
Definition form_nan_weight : Form :=
  {| form_unit_system := None; form_weight := Some nan;
     form_height := Some 170%float; form_age := Some 45;
     form_serum_creatinine := Some 1.1%float; form_sex := Some "male"%string |}.

(* ================================================================== *)
(** ** The formula of the specification *)

(** The Cockcroft-Gault expression as the specification writes it, for a
    weight term [w]: [(140 - age) * w * sex_factor / (72 * creatinine)],
    evaluated left to right. *)
Definition cockcroft_gault (a w f c : float) : float :=
  (a * w * f / (72 * c))%float.

(** All three unrounded clearances are finite. *)
Definition clearances_finite (l : Locals) : bool :=
  B64.fin l.(original_crcl) && B64.fin l.(modified_crcl) &&
  B64.fin l.(crcl_using_ibw).

(** A divisor above zero: finite and positive, or the positive
    infinity. *)
Definition positive_divisor (d : float) : Prop :=
  (B64.fin d = true /\ 0 < B64.F d) \/ Prim2SF d = S754_infinity false.

(** [x] is finite and at most [M] in absolute value. *)
Definition bounded_by (x M : float) : Prop :=
  B64.fin x = true /\ Z.abs (B64.F x) <= B64.F M.

(** Bounds that hold along the calculation when the weight and the
    height are at most [1e100]: for the ideal body weight, and for any of
    the three weights. *)
Definition ibw_bound : float := (50 + 2.3 * (1e100 + 60))%float.
Definition body_weight_bound : float :=
  (ibw_bound + 0.4 * (1e100 + ibw_bound))%float.

(* ================================================================== *)
(** ** Exact values *)

Module Exact.
Import QArith.

(** The value of a float as a rational number: its number of units over
    [2^1074] (zero for a NaN, beyond every double for an infinity). *)
Definition value (x : float) : Q := B64.F x # (2 ^ 1074)%positive.

(** The sex factor as the decimal number the source writes. *)
Definition sex_factor_exact (s : Sex) : Q :=
  match s with
  | female => 85 # 100
  | male => 1
  end.

(** The Cockcroft-Gault expression on rational numbers, without any
    rounding, for a weight term of [w] kg. *)
Definition cockcroft_gault_exact (age : Z) (w : Q) (s : Sex) (c : Q) : Q :=
  (inject_Z (140 - age) * w * sex_factor_exact s / (72 * c))%Q.

(** The unit roundoff of binary64. *)
Definition eps : Q := 1 # (2 ^ 53)%positive.

(** [x] and [q] are positive and each is at most [E] times the other. *)
Definition within (E x q : Q) : Prop :=
  (0 < x /\ 0 < q /\ q <= x * E /\ x <= q * E)%Q.

End Exact.

(* ================================================================== *)
(** * Properties *)

(** ** Inversion of the monad *)

Lemma bind_Ok {A B : Type} (r : result A) (k : A -> result B) (b : B) :
  bind r k = Ok b -> exists a, r = Ok a /\ k a = Ok b.
Proof.
  destruct r as [a|e]; simpl; intros H; [exists a; auto | discriminate].
Qed.

Ltac inv_bind H :=
  let a := fresh "v" in
  let Ha := fresh "E" in
  apply bind_Ok in H; destruct H as (a & Ha & H).

Lemma truediv_Ok (x y q : float) :
  Py.truediv x y = Ok q -> (y =? 0)%float = false /\ q = (x / y)%float.
Proof.
  unfold Py.truediv. destruct (y =? 0)%float; [discriminate|].
  intros H; injection H as <-. auto.
Qed.

Lemma float_of_int_72 : Py.float_of_int 72 = Ok 72%float.
Proof. vm_compute. reflexivity. Qed.

Lemma int_mul_float_72 (c : float) : Py.int_mul_float 72 c = Ok (72 * c)%float.
Proof. unfold Py.int_mul_float. rewrite float_of_int_72. reflexivity. Qed.

Lemma truediv_254 (h : float) : Py.truediv h 2.54 = Ok (h / 2.54)%float.
Proof. unfold Py.truediv. reflexivity. Qed.

(** The weight and height a form input is converted to. *)
Lemma convert_units_eq (data : CrClFormInput) :
  convert_units data =
  Ok (match data.(unit_system) with
      | imperial => ((data.(weight) * 0.453592)%float, data.(height))
      | metric => (data.(weight), (data.(height) / 2.54)%float)
      end).
Proof.
  unfold convert_units.
  destruct (unit_system data); cbn [UnitSystem_eqb];
    [rewrite truediv_254|]; reflexivity.
Qed.

(** What [crcl_locals] computes, field by field. *)
Lemma crcl_locals_Ok (data : CrClFormInput) (l : Locals) :
  crcl_locals data = Ok l ->
  exists a : float,
    Py.float_of_int (140 - data.(age)) = Ok a /\
    ((72 * data.(serum_creatinine)) =? 0)%float = false /\
    convert_units data = Ok (l.(weight_in_kg), l.(height_in_inches)) /\
    l.(ibw) = calculate_ibw l.(height_in_inches) data.(sex) /\
    l.(abw) = adjusted_body_weight l.(weight_in_kg) l.(ibw) /\
    l.(sex_factor) = (if Sex_eqb data.(sex) female then 0.85 else 1.0)%float /\
    l.(original_crcl) =
      (a * l.(weight_in_kg) * l.(sex_factor) / (72 * data.(serum_creatinine)))%float /\
    l.(modified_crcl) =
      (a * l.(abw) * l.(sex_factor) / (72 * data.(serum_creatinine)))%float /\
    l.(crcl_using_ibw) =
      (a * l.(ibw) * l.(sex_factor) / (72 * data.(serum_creatinine)))%float.
Proof.
  unfold crcl_locals. rewrite convert_units_eq. cbn [bind].
  unfold Py.int_mul_float. rewrite float_of_int_72.
  destruct (Py.float_of_int (140 - age data)) as [a|e] eqn:Ea;
    cbn [bind]; [|discriminate].
  unfold Py.truediv.
  destruct ((72 * serum_creatinine data) =? 0)%float eqn:Hz;
    cbn [bind]; [discriminate|].
  intros H; injection H as <-.
  cbn [weight_in_kg height_in_inches ibw abw sex_factor original_crcl
       modified_crcl crcl_using_ibw].
  exists a. rewrite <- surjective_pairing. repeat split; reflexivity.
Qed.

(** [crcl_locals] as one equation: the only ways out are the conversion
    of [140 - age] and a zero divisor. *)
Lemma crcl_locals_eq (data : CrClFormInput) :
  crcl_locals data =
  match Py.float_of_int (140 - data.(age)) with
  | Raise e => Raise e
  | Ok a =>
      if ((72 * data.(serum_creatinine)) =? 0)%float
      then Raise ZeroDivisionError
      else
        let w := match data.(unit_system) with
                 | imperial => (data.(weight) * 0.453592)%float
                 | metric => data.(weight)
                 end in
        let h := match data.(unit_system) with
                 | imperial => data.(height)
                 | metric => (data.(height) / 2.54)%float
                 end in
        let i := calculate_ibw h data.(sex) in
        let b := adjusted_body_weight w i in
        let f := (if Sex_eqb data.(sex) female then 0.85 else 1.0)%float in
        let d := (72 * data.(serum_creatinine))%float in
        Ok {| weight_in_kg := w;
              height_in_inches := h;
              ibw := i;
              abw := b;
              sex_factor := f;
              original_crcl := (a * w * f / d)%float;
              modified_crcl := (a * b * f / d)%float;
              crcl_using_ibw := (a * i * f / d)%float |}
  end.
Proof.
  unfold crcl_locals. rewrite convert_units_eq. cbn [bind].
  unfold Py.int_mul_float. rewrite float_of_int_72.
  destruct (Py.float_of_int (140 - age data)) as [a|e]; cbn [bind]; [|reflexivity].
  unfold Py.truediv.
  destruct ((72 * serum_creatinine data) =? 0)%float; cbn [bind]; [reflexivity|].
  destruct (unit_system data); reflexivity.
Qed.

(* ================================================================== *)
(** ** Binary64 arithmetic: facts *)

Module B64Facts.
Import B64.

(** *** Shifting right with a sticky bit *)

(** Large closed constants are hidden from [lia] and [nia], which would
    otherwise carry their digits through every certificate. *)
Ltac hide c := let x := fresh "c" in set (x := c) in *; clearbody x.

Lemma digits2_pos_size (p : positive) : digits2_pos p = Pos.size p.
Proof. induction p; simpl; congruence. Qed.

Lemma digits_log2 (p : positive) : Zpos (digits2_pos p) = Z.log2 (Zpos p) + 1.
Proof.
  destruct p; simpl; rewrite ?digits2_pos_size; lia.
Qed.

Lemma digits_bounds (p : positive) :
  2 ^ (Zpos (digits2_pos p) - 1) <= Zpos p < 2 ^ Zpos (digits2_pos p).
Proof.
  rewrite digits_log2.
  replace (Z.log2 (Z.pos p) + 1 - 1) with (Z.log2 (Z.pos p)) by lia.
  apply Z.log2_spec. lia.
Qed.

Lemma digits_unique (p : positive) (d : Z) :
  2 ^ (d - 1) <= Zpos p < 2 ^ d -> Zpos (digits2_pos p) = d.
Proof.
  intros H. rewrite digits_log2.
  assert (0 < d).
  { destruct (Z.le_gt_cases d 0) as [Hd|]; [|assumption].
    assert (2 ^ d <= 2 ^ 0) by (apply Z.pow_le_mono_r; lia).
    simpl in *. lia. }
  assert (Z.log2 (Zpos p) = d - 1); [|lia].
  apply Z.log2_unique; [lia|].
  replace (Z.succ (d - 1)) with d by lia. exact H.
Qed.

Lemma Zdigits2_nonneg (m : Z) : 0 <= Zdigits2 m.
Proof. destruct m; simpl; lia. Qed.

Lemma Zdigits2_bounds (m : Z) :
  0 < m -> 2 ^ (Zdigits2 m - 1) <= m < 2 ^ Zdigits2 m.
Proof. destruct m; try lia. intros _. apply digits_bounds. Qed.

Lemma Zdigits2_unique (m d : Z) :
  2 ^ (d - 1) <= m < 2 ^ d -> 0 < m -> Zdigits2 m = d.
Proof. destruct m; try lia. intros H _. apply digits_unique, H. Qed.

Lemma iter_pos_nat {A : Type} (f : A -> A) (p : positive) (x : A) :
  iter_pos f p x = Nat.iter (Pos.to_nat p) f x.
Proof.
  revert x. induction p as [p IH|p IH|]; intros x; simpl iter_pos.
  - rewrite !IH, Pos2Nat.inj_xI.
    rewrite <- Nat.iter_add, <- Nat.iter_succ_r. f_equal. lia.
  - rewrite !IH, Pos2Nat.inj_xO.
    rewrite <- Nat.iter_add. f_equal. lia.
  - reflexivity.
Qed.


(** Quotient and remainder, named. *)
Lemma divmod_spec (a b : Z) :
  0 < b -> exists q r, a = b * q + r /\ 0 <= r < b /\ a / b = q /\ a mod b = r.
Proof.
  intros Hb. exists (a / b), (a mod b).
  pose proof (Z.div_mod a b). pose proof (Z.mod_pos_bound a b Hb).
  repeat split; lia.
Qed.

Lemma divmod_unique (a b q r : Z) :
  a = b * q + r -> 0 <= r < b -> a / b = q /\ a mod b = r.
Proof.
  intros E H. split; symmetry.
  - apply (Z.div_unique a b q r); auto.
  - apply (Z.mod_unique a b q r); auto.
Qed.

Ltac divmod a b q r :=
  let H := fresh "H" in
  let Hr := fresh "Hr" in
  let Eq := fresh "Eq" in
  let Er := fresh "Er" in
  destruct (divmod_spec a b) as (q & r & H & Hr & Eq & Er);
  [ try lia | rewrite ?Eq, ?Er in * ].

Lemma key_shr_1 (mrs : shr_record) :
  0 <= shr_m mrs ->
  key (shr_1 mrs) = sq (key mrs) 4 /\ 0 <= shr_m (shr_1 mrs).
Proof.
  destruct mrs as [m r s]. unfold key, sq. cbn [shr_m shr_r shr_s]. intros Hm.
  destruct m as [|p|p]; [| |lia].
  - destruct r, s; cbn; split; reflexivity || lia.
  - destruct p as [p|p|]; cbn [shr_1 shr_m shr_r shr_s orb].
    + rewrite (Pos2Z.inj_xI p).
      destruct r, s; cbn [orb]; split; try lia;
        match goal with |- context [(?a / 4)] =>
          destruct (divmod_unique a 4 (2 * Zpos p + 1)
                      (a - 4 * (2 * Zpos p + 1))) as [-> ->]; [lia|lia|]
        end;
        match goal with |- context [if ?c then _ else _] =>
          destruct c eqn:Hc; try (apply Z.eqb_eq in Hc); lia end.
    + rewrite (Pos2Z.inj_xO p).
      destruct r, s; cbn [orb]; split; try lia;
        match goal with |- context [(?a / 4)] =>
          destruct (divmod_unique a 4 (2 * Zpos p)
                      (a - 4 * (2 * Zpos p))) as [-> ->]; [lia|lia|]
        end;
        match goal with |- context [if ?c then _ else _] =>
          destruct c eqn:Hc; try (apply Z.eqb_eq in Hc); lia end.
    + destruct r, s; cbn; split; reflexivity || lia.
Qed.

Lemma sq_sq (a b : Z) : 0 < b -> sq (sq a b) 4 = sq a (2 * b).
Proof.
  intros Hb. unfold sq.
  rewrite (Z.mul_comm 2 b), (Z.rem_mul_r a b 2) by lia.
  rewrite <- (Z.div_div a b 2) by lia.
  divmod a b q r. divmod q 2 q' t.
  set (d := if r =? 0 then 0 else 1).
  assert (Hd : 0 <= d <= 1 /\ (d = 0 <-> r = 0)).
  { unfold d. destruct (Z.eqb_spec r 0); lia. }
  destruct (divmod_unique (2 * q + d) 4 q' (2 * t + d)) as [-> ->]; [lia|lia|].
  destruct (Z.eqb_spec (2 * t + d) 0), (Z.eqb_spec (r + b * t) 0); nia.
Qed.

Lemma sq_2 (k : Z) : sq k 2 = k.
Proof.
  unfold sq. divmod k 2 q r.
  destruct (Z.eqb_spec r 0); lia.
Qed.

Lemma key_iter (n : nat) (mrs : shr_record) :
  0 <= shr_m mrs ->
  key (Nat.iter n shr_1 mrs) = sq (key mrs) (2 * 2 ^ Z.of_nat n) /\
  0 <= shr_m (Nat.iter n shr_1 mrs).
Proof.
  intros Hm. induction n as [|n [IH1 IH2]].
  - change (Nat.iter 0 shr_1 mrs) with mrs.
    change (2 * 2 ^ Z.of_nat 0) with 2. rewrite sq_2. auto.
  - change (Nat.iter (S n) shr_1 mrs) with (shr_1 (Nat.iter n shr_1 mrs)).
    destruct (key_shr_1 _ IH2) as [E1 E2].
    split; [|exact E2]. rewrite E1, IH1, sq_sq by lia.
    f_equal. rewrite Nat2Z.inj_succ, Z.pow_succ_r by lia. reflexivity.
Qed.

Lemma key_of_loc (m : Z) (l : location) :
  key (shr_record_of_loc m l) = 4 * m + code l /\
  shr_m (shr_record_of_loc m l) = m.
Proof.
  destruct l as [|[]]; unfold key;
    cbn [shr_record_of_loc shr_m shr_r shr_s code]; split; lia.
Qed.

Lemma key_bits (mrs : shr_record) :
  shr_m mrs = key mrs / 4 /\
  code (loc_of_shr_record mrs) = key mrs mod 4.
Proof.
  destruct mrs as [m r s]. unfold key. cbn [shr_m shr_r shr_s].
  destruct r, s; cbn [loc_of_shr_record code];
    match goal with |- _ = ?a / 4 /\ _ =>
      destruct (divmod_unique a 4 m (a - 4 * m)) as [-> ->]; lia
    end.
Qed.

Lemma rne_key_eq (mrs : shr_record) :
  round_nearest_even (shr_m mrs) (loc_of_shr_record mrs) = rne_key (key mrs).
Proof.
  unfold rne_key. destruct (key_bits mrs) as [<- <-].
  destruct (loc_of_shr_record mrs) as [|[]]; reflexivity.
Qed.

Lemma rne_key_sq (a b : Z) : 0 < b -> rne_key (sq a b) = rhe a (2 * b).
Proof.
  intros Hb. unfold rne_key, rhe, PyStr.round_half_even_div, sq.
  rewrite (Z.mul_comm 2 b), (Z.rem_mul_r a b 2) by lia.
  rewrite <- (Z.div_div a b 2) by lia.
  divmod a b q r. divmod q 2 q' t.
  set (d := if r =? 0 then 0 else 1).
  assert (Hd : 0 <= d <= 1 /\ (d = 0 <-> r = 0)).
  { unfold d. destruct (Z.eqb_spec r 0); lia. }
  destruct (divmod_unique (2 * q + d) 4 q' (2 * t + d)) as [-> ->]; [lia|lia|].
  destruct (Z.compare_spec (2 * (r + b * t)) (b * 2));
    destruct (Z.leb_spec (2 * t + d) 1); try nia;
    destruct (Z.eqb_spec (2 * t + d) 2); try nia; reflexivity.
Qed.

Lemma key_new_location (d q r : Z) :
  0 < d -> 0 <= r < d ->
  4 * q + code (new_location d r) = sq (2 * (d * q + r)) d.
Proof.
  intros Hd Hr. unfold sq, new_location, new_location_even, new_location_odd.
  divmod (2 * r) d h t.
  destruct (divmod_unique (2 * (d * q + r)) d (2 * q + h) t) as [-> ->];
    [nia|lia|].
  assert (h = 0 \/ h = 1) by nia.
  destruct (Z.even d) eqn:Ev.
  - destruct (Z.eqb_spec r 0).
    + subst r. cbn [code]. destruct (Z.eqb_spec t 0); nia.
    + destruct (Z.compare_spec (2 * r) d); cbn [code];
        destruct (Z.eqb_spec t 0); nia.
  - assert (Hodd : Z.odd d = true) by (rewrite <- Z.negb_even, Ev; reflexivity).
    apply Z.odd_spec in Hodd. destruct Hodd as [k Hk].
    destruct (Z.eqb_spec r 0).
    + subst r. cbn [code]. destruct (Z.eqb_spec t 0); nia.
    + destruct (Z.compare_spec (2 * r + 1) d); cbn [code];
        destruct (Z.eqb_spec t 0); nia.
Qed.


Lemma fexp_eq (b : Z) : SpecFloat.fexp prec emax b = fexp64 b.
Proof. reflexivity. Qed.

Lemma rne_key_nonneg (k : Z) : 0 <= k -> 0 <= rne_key k.
Proof.
  intros Hk. unfold rne_key. divmod k 4 q r.
  destruct (r <=? 1); [lia|].
  destruct (r =? 2); [destruct (Z.even q)|]; lia.
Qed.

Lemma sq_nonneg (a b : Z) : 0 <= a -> 0 < b -> 0 <= sq a b.
Proof.
  intros Ha Hb. unfold sq. divmod a b q r.
  assert (0 <= q) by nia. destruct (r =? 0); lia.
Qed.

Lemma sq_exact_div4 (m n : Z) :
  0 <= n -> sq (4 * m) (2 * 2 ^ n) / 4 = m / 2 ^ n.
Proof.
  intros Hn. unfold sq.
  assert (Hp : 0 < 2 ^ n) by (apply Z.pow_pos_nonneg; lia).
  replace (4 * m) with (m * 2 * 2) by lia.
  replace (2 * 2 ^ n) with (2 ^ n * 2) by lia.
  rewrite Z.mul_mod_distr_r, Z.div_mul_cancel_r by lia.
  divmod m (2 ^ n) q r.
  destruct (divmod_unique (m * 2) (2 ^ n) (2 * q + (2 * r) / 2 ^ n)
              ((2 * r) mod 2 ^ n)) as [-> ->].
  { pose proof (Z.div_mod (2 * r) (2 ^ n)). nia. }
  { apply Z.mod_pos_bound; lia. }
  divmod (2 * r) (2 ^ n) h t.
  assert (h = 0 \/ h = 1) by nia.
  set (d := if t * 2 =? 0 then 0 else 1).
  assert (0 <= d <= 1) by (unfold d; destruct (t * 2 =? 0); lia).
  symmetry. apply (Z.div_unique _ 4 q (2 * (2 * q + h) + d - 4 * q)); lia.
Qed.

(** The first shift of [binary_round_aux], on keys. *)
Lemma shr_fexp_key (m e : Z) (l : location) :
  0 <= m ->
  let n := shift_amount m e in
  let '(mrs, e') := shr_fexp prec emax m e l in
  key mrs = sq (4 * m + code l) (2 * 2 ^ n) /\ e' = e + n /\ 0 <= shr_m mrs.
Proof.
  intros Hm. unfold shr_fexp, shift_amount. rewrite fexp_eq.
  destruct (key_of_loc m l) as [Ek Em].
  set (z := fexp64 (Zdigits2 m + e) - e).
  destruct z as [|p|p] eqn:Ez; unfold shr.
  - change (Z.max 0 0) with 0. change (2 * 2 ^ 0) with 2.
    rewrite sq_2, Z.add_0_r. rewrite Em. auto.
  - rewrite iter_pos_nat.
    destruct (key_iter (Pos.to_nat p) (shr_record_of_loc m l)) as [E1 E2];
      [rewrite Em; exact Hm|].
    rewrite E1, Ek, positive_nat_Z.
    replace (Z.max 0 (Z.pos p)) with (Z.pos p) by lia. auto.
  - replace (Z.max 0 (Z.neg p)) with 0 by lia. change (2 * 2 ^ 0) with 2.
    rewrite sq_2, Z.add_0_r. rewrite Em. auto.
Qed.

(** [binary_round_aux] in arithmetic: shift with a sticky bit, round to
    nearest even, normalise. *)
Theorem binary_round_aux_key (s : bool) (m e : Z) (l : location) :
  0 <= m ->
  let n := shift_amount m e in
  binary_round_aux prec emax s m e l =
  finish s (rne_key (sq (4 * m + code l) (2 * 2 ^ n))) (e + n).
Proof.
  intros Hm n. unfold binary_round_aux.
  pose proof (shr_fexp_key m e l Hm) as H1. cbv zeta in H1. fold n in H1.
  destruct (shr_fexp prec emax m e l) as [mrs e1].
  destruct H1 as (K1 & -> & M1).
  rewrite rne_key_eq, K1.
  set (m1 := rne_key (sq (4 * m + code l) (2 * 2 ^ n))).
  assert (Hm1 : 0 <= m1).
  { apply rne_key_nonneg, sq_nonneg.
    - destruct l as [|[]]; cbn [code]; lia.
    - assert (0 < 2 ^ n) by (apply Z.pow_pos_nonneg; unfold n, shift_amount; lia).
      lia. }
  pose proof (shr_fexp_key m1 (e + n) loc_Exact Hm1) as H2. cbv zeta in H2.
  destruct (shr_fexp prec emax m1 (e + n) loc_Exact) as [mrs2 e2].
  destruct H2 as (K2 & -> & M2).
  unfold finish.
  destruct (key_bits mrs2) as [-> _]. rewrite K2.
  cbn [code]. rewrite Z.add_0_r, sq_exact_div4 by (unfold shift_amount; lia).
  reflexivity.
Qed.

(** *** Rounding to nearest, ties to even *)

Lemma rhe_spec (a b : Z) :
  0 < b ->
  let m := rhe a b in
  2 * a - b <= 2 * m * b <= 2 * a + b /\
  (2 * m * b = 2 * a + b -> Z.even m = true) /\
  (2 * m * b = 2 * a - b -> Z.even m = true).
Proof.
  intros Hb. unfold rhe, PyStr.round_half_even_div.
  divmod a b q r.
  destruct (Z.compare_spec (2 * r) b) as [E|E|E].
  - destruct (Z.even q) eqn:Ev.
    + repeat split; try nia. intros; exact Ev.
    + repeat split; try nia. intros _.
      rewrite Z.even_add, Ev. reflexivity.
  - repeat split; nia.
  - repeat split; nia.
Qed.

Lemma rhe_mono (a1 b1 a2 b2 : Z) :
  0 < b1 -> 0 < b2 -> a1 * b2 <= a2 * b1 -> rhe a1 b1 <= rhe a2 b2.
Proof.
  intros H1 H2 H.
  destruct (rhe_spec a1 b1 H1) as ((L1 & U1) & T1 & T1').
  destruct (rhe_spec a2 b2 H2) as ((L2 & U2) & T2 & T2').
  set (m1 := rhe a1 b1) in *. set (m2 := rhe a2 b2) in *.
  destruct (Z.le_gt_cases m1 m2) as [|Hgt]; [assumption|exfalso].
  assert (Hb : 0 < b1 * b2) by nia.
  assert (Hc : 2 * (m1 - m2) * (b1 * b2) <= 2 * (b1 * b2)) by nia.
  assert (Hd : m1 = m2 + 1) by nia.
  assert (E1 : 2 * m1 * b1 = 2 * a1 + b1) by nia.
  assert (E2 : 2 * m2 * b2 = 2 * a2 - b2) by nia.
  apply T1 in E1. apply T2' in E2.
  rewrite Hd, Z.even_add, E2 in E1. discriminate.
Qed.

Lemma rhe_exact (b m : Z) : 0 < b -> rhe (b * m) b = m.
Proof.
  intros Hb. unfold rhe, PyStr.round_half_even_div.
  destruct (divmod_unique (b * m) b m 0) as [-> ->]; [lia|lia|].
  destruct (Z.compare_spec (2 * 0) b); lia.
Qed.

Lemma rhe_scale (c a b : Z) : 0 < c -> 0 < b -> rhe (c * a) (c * b) = rhe a b.
Proof.
  intros Hc Hb. apply Z.le_antisymm; apply rhe_mono; nia.
Qed.

Lemma rhe_le (a b m : Z) : 0 < b -> a <= m * b -> rhe a b <= m.
Proof.
  intros Hb H. rewrite <- (rhe_exact b m Hb). apply rhe_mono; nia.
Qed.

Lemma rhe_ge (a b m : Z) : 0 < b -> m * b <= a -> m <= rhe a b.
Proof.
  intros Hb H. rewrite <- (rhe_exact b m Hb) at 1. apply rhe_mono; nia.
Qed.

Lemma rhe_nonneg (a b : Z) : 0 < b -> 0 <= a -> 0 <= rhe a b.
Proof. intros. apply rhe_ge; lia. Qed.

Lemma floor_mono (a1 b1 a2 b2 : Z) :
  0 < b1 -> 0 < b2 -> a1 * b2 <= a2 * b1 -> a1 / b1 <= a2 / b2.
Proof.
  intros H1 H2 H. divmod a1 b1 q1 r1. divmod a2 b2 q2 r2.
  destruct (Z.le_gt_cases q1 q2); [assumption|exfalso].
  assert (b1 * b2 * (q2 + 1) <= b1 * b2 * q1) by nia.
  assert (b1 * r2 < b1 * b2) by nia.
  assert (0 <= b2 * r1) by nia.
  subst a1 a2. lia.
Qed.

Lemma pow2_pos (n : Z) : 0 <= n -> 0 < 2 ^ n.
Proof. intros. apply Z.pow_pos_nonneg; lia. Qed.

Lemma pow2_le (n m : Z) : 0 <= n <= m -> 2 ^ n <= 2 ^ m.
Proof. intros. apply Z.pow_le_mono_r; lia. Qed.

Lemma pow2_add (n m : Z) : 0 <= n -> 0 <= m -> 2 ^ (n + m) = 2 ^ n * 2 ^ m.
Proof. intros. apply Z.pow_add_r; lia. Qed.

Lemma Zdigits2_mono (a b : Z) : 0 <= a <= b -> Zdigits2 a <= Zdigits2 b.
Proof.
  intros [Ha Hab].
  destruct (Z.eq_dec a 0) as [->|Hn]; [apply Zdigits2_nonneg|].
  destruct (Zdigits2_bounds a) as [La Ua]; [lia|].
  destruct (Zdigits2_bounds b) as [Lb Ub]; [lia|].
  destruct (Z.le_gt_cases (Zdigits2 a) (Zdigits2 b)); [assumption|exfalso].
  assert (2 ^ Zdigits2 b <= 2 ^ (Zdigits2 a - 1)).
  { apply pow2_le. pose proof (Zdigits2_nonneg b). lia. }
  lia.
Qed.

Lemma Zdigits2_lt_pow (a : Z) : 0 <= a -> a < 2 ^ Zdigits2 a.
Proof.
  intros Ha. destruct (Z.eq_dec a 0) as [->|]; [reflexivity|].
  apply Zdigits2_bounds. lia.
Qed.

(** [ru] is monotone in the fraction. *)
Theorem ru_mono (a1 b1 a2 b2 : Z) :
  0 <= a1 -> 0 < b1 -> 0 < b2 -> a1 * b2 <= a2 * b1 -> ru a1 b1 <= ru a2 b2.
Proof.
  intros Ha H1 H2 H. unfold ru.
  assert (Hq : a1 / b1 <= a2 / b2) by (apply floor_mono; assumption).
  assert (Hq1 : 0 <= a1 / b1) by (apply Z.div_pos; lia).
  assert (Hd : Zdigits2 (a1 / b1) <= Zdigits2 (a2 / b2))
    by (apply Zdigits2_mono; lia).
  set (d1 := Zdigits2 (a1 / b1)) in *. set (d2 := Zdigits2 (a2 / b2)) in *.
  set (n1 := Z.max 0 (d1 - 53)). set (n2 := Z.max 0 (d2 - 53)).
  assert (Hn : 0 <= n1 <= n2) by lia.
  assert (P1 : 0 < 2 ^ n1) by (apply pow2_pos; lia).
  assert (P2 : 0 < 2 ^ n2) by (apply pow2_pos; lia).
  destruct (Z.eq_dec n1 n2) as [E|NE].
  - rewrite <- E. apply Z.mul_le_mono_nonneg_r; [lia|].
    apply rhe_mono; nia.
  - assert (Hn2 : n2 = d2 - 53) by lia.
    assert (U1 : rhe a1 (b1 * 2 ^ n1) <= 2 ^ 53).
    { apply rhe_le; [nia|].
      assert (a1 < b1 * 2 ^ d1).
      { pose proof (Zdigits2_lt_pow (a1 / b1) Hq1). fold d1 in H0.
        divmod a1 b1 q r. nia. }
      assert (2 ^ d1 <= 2 ^ 53 * 2 ^ n1).
      { rewrite <- pow2_add by lia. apply pow2_le.
        pose proof (Zdigits2_nonneg (a1 / b1)). lia. }
      nia. }
    assert (L2 : 2 ^ 52 <= rhe a2 (b2 * 2 ^ n2)).
    { apply rhe_ge; [nia|].
      assert (0 < a2 / b2).
      { destruct (Z.le_gt_cases (a2 / b2) 0); [|assumption].
        assert (a2 / b2 = 0) by lia.
        assert (d2 = 0) by (unfold d2; rewrite H3; reflexivity). lia. }
      destruct (Zdigits2_bounds (a2 / b2)) as [Lq _]; [assumption|].
      fold d2 in Lq.
      replace (d2 - 1) with (52 + n2) in Lq by lia.
      rewrite pow2_add in Lq by lia.
      divmod a2 b2 q r. nia. }
    assert (2 ^ 53 * 2 ^ n1 <= 2 ^ 52 * 2 ^ n2).
    { replace n2 with (1 + n1 + (n2 - n1 - 1)) by lia.
      rewrite !pow2_add by lia.
      assert (0 < 2 ^ (n2 - n1 - 1)) by (apply pow2_pos; lia).
      change (2 ^ 53) with (2 ^ 52 * 2). change (2 ^ 1) with 2. nia. }
    nia.
Qed.

Lemma ru_scale (c a b : Z) :
  0 < c -> 0 <= a -> 0 < b -> ru (c * a) (c * b) = ru a b.
Proof.
  intros Hc Ha Hb. apply Z.le_antisymm; apply ru_mono; nia.
Qed.

Lemma ru_nonneg (a b : Z) : 0 <= a -> 0 < b -> 0 <= ru a b.
Proof.
  intros Ha Hb. unfold ru.
  set (n := Z.max 0 _).
  assert (0 < 2 ^ n) by (apply pow2_pos; lia).
  assert (0 <= rhe a (b * 2 ^ n)) by (apply rhe_nonneg; nia).
  nia.
Qed.

(** An integer with at most 53 significant bits is its own rounding. *)
Lemma ru_exact (m j : Z) :
  0 <= m < 2 ^ 53 -> 0 <= j -> ru (m * 2 ^ j) 1 = m * 2 ^ j.
Proof.
  intros Hm Hj. unfold ru. rewrite Z.div_1_r, Z.mul_1_l.
  set (z := m * 2 ^ j). set (n := Z.max 0 (Zdigits2 z - 53)).
  assert (Pj : 0 < 2 ^ j) by (apply pow2_pos; lia).
  destruct (Z.eq_dec m 0) as [->|Hm0].
  { unfold n, z. cbn. reflexivity. }
  assert (Hz : 0 < z) by (unfold z; nia).
  assert (Hn : 0 <= n <= j).
  { split; [lia|]. unfold n.
    destruct (Z.le_gt_cases (Zdigits2 z) (53 + j)); [lia|exfalso].
    destruct (Zdigits2_bounds z Hz) as [L _].
    assert (2 ^ (53 + j) <= 2 ^ (Zdigits2 z - 1)) by (apply pow2_le; lia).
    rewrite pow2_add in H0 by lia.
    assert (z < 2 ^ 53 * 2 ^ j) by (unfold z; nia). lia. }
  assert (Pn : 0 < 2 ^ n) by (apply pow2_pos; lia).
  assert (Ez : z = 2 ^ n * (m * 2 ^ (j - n))).
  { unfold z. replace j with (n + (j - n)) at 1 by lia.
    rewrite pow2_add by lia. ring. }
  rewrite Ez at 1. rewrite rhe_exact by assumption. rewrite Ez. ring.
Qed.

(** *** [binary_round_aux] rounds a located fraction *)

Lemma sq_sq_gen (a b c : Z) :
  0 < b -> 0 < c -> sq (sq a b) (2 * c) = sq a (b * c).
Proof.
  intros Hb Hc. unfold sq.
  rewrite (Z.rem_mul_r a b c) by lia.
  rewrite <- (Z.div_div a b c) by lia.
  divmod a b q r. divmod q c q' t.
  set (d := if r =? 0 then 0 else 1).
  assert (Hd : 0 <= d <= 1 /\ (d = 0 <-> r = 0)).
  { unfold d. destruct (Z.eqb_spec r 0); lia. }
  destruct (divmod_unique (2 * q + d) (2 * c) q' (2 * t + d)) as [-> ->];
    [lia|lia|].
  destruct (Z.eqb_spec (2 * t + d) 0), (Z.eqb_spec (r + b * t) 0); nia.
Qed.

Lemma finish_cases (s : bool) (m e : Z) :
  -1074 <= e -> 0 <= m <= 2 ^ 53 ->
  finish s m e =
  if m =? 0 then S754_zero s
  else if m =? 2 ^ 53 then
    (if e + 1 <=? 971 then S754_finite s (2 ^ 52) (e + 1) else S754_infinity s)
  else
    (if e <=? 971 then S754_finite s (Z.to_pos m) e else S754_infinity s).
Proof.
  intros He Hm. unfold finish, shift_amount, fexp64.
  destruct (Z.eqb_spec m 0) as [->|Hm0].
  - cbn [Zdigits2]. replace (Z.max 0 _) with 0 by lia. reflexivity.
  - destruct (Z.eqb_spec m (2 ^ 53)) as [->|Hm1].
    + change (Zdigits2 (2 ^ 53)) with 54.
      replace (Z.max 0 _) with 1 by lia. reflexivity.
    + assert (Hd : Zdigits2 m <= 53).
      { destruct (Z.le_gt_cases (Zdigits2 m) 53); [assumption|exfalso].
        destruct (Zdigits2_bounds m) as [L _]; [lia|].
        assert (2 ^ 53 <= 2 ^ (Zdigits2 m - 1)) by (apply pow2_le; lia). lia. }
      replace (Z.max 0 _) with 0 by lia.
      rewrite Z.div_1_r, Z.add_0_r.
      destruct m as [|p|p]; try lia. reflexivity.
Qed.

Lemma finish_val (s : bool) (m e : Z) :
  -1074 <= e -> 0 <= m <= 2 ^ 53 -> (e = -1074 \/ 2 ^ 52 <= m) ->
  Fval (finish s m e) = cond_Zopp s (clamp (m * 2 ^ (e + 1074))) /\
  signed s (finish s m e) /\
  valid_binary (finish s m e) = true.
Proof.
  intros He Hm Hc. rewrite finish_cases by assumption. unfold clamp, signed.
  assert (P : 0 < 2 ^ (e + 1074)) by (apply pow2_pos; lia).
  destruct (Z.eqb_spec m 0) as [->|Hm0].
  { split; [destruct s; reflexivity|split; [left; reflexivity|reflexivity]]. }
  assert (Vn : forall p e', -1074 <= e' <= 971 -> Zpos p < 2 ^ 53 ->
                 (e' = -1074 \/ 2 ^ 52 <= Zpos p) ->
                 valid_binary (S754_finite s p e') = true).
  { intros p e' He' Hp Hc'. unfold SpecFloat.valid_binary, bounded, canonical_mantissa.
    rewrite andb_true_iff, Z.eqb_eq, Z.leb_le, fexp_eq.
    change (emax - prec) with 971. split; [|lia]. unfold fexp64.
    pose proof (digits_bounds p) as [L U].
    set (d := Zpos (digits2_pos p)) in *.
    assert (d <= 53).
    { destruct (Z.le_gt_cases d 53); [assumption|exfalso].
      assert (2 ^ 53 <= 2 ^ (d - 1)) by (apply pow2_le; lia). lia. }
    destruct Hc' as [->|Hc']; [lia|].
    assert (53 <= d); [|lia].
    destruct (Z.le_gt_cases 53 d); [assumption|exfalso].
    assert (2 ^ d <= 2 ^ 52) by (apply pow2_le; unfold d; lia). lia. }
  destruct (Z.eqb_spec m (2 ^ 53)) as [->|Hm1].
  - destruct (Z.leb_spec (e + 1) 971).
    + split; [|split; [right; left; eauto|apply Vn; [lia|reflexivity|right; reflexivity]]].
      cbn [Fval]. f_equal.
      replace (e + 1 + 1074) with (1 + (e + 1074)) by lia.
      rewrite pow2_add by lia.
      assert (2 ^ (e + 1074) <= 2 ^ 2044) by (apply pow2_le; lia).
      change (2 ^ 2098) with (2 ^ 53 * 2 * 2 ^ 2044).
      change (Z.pos (2 ^ 52)) with (2 ^ 52). change (2 ^ 1) with 2.
      change (2 ^ 53) with (2 ^ 52 * 2).
      hide (2 ^ 2044). lia.
    + split; [|split; [right; right; auto|reflexivity]]. cbn [Fval]. f_equal.
      assert (2 ^ 2045 <= 2 ^ (e + 1074)) by (apply pow2_le; lia).
      change (2 ^ 2098) with (2 ^ 53 * 2 ^ 2045).
      hide (2 ^ 2045). lia.
  - destruct (Z.leb_spec e 971).
    + split; [|split; [right; left; eauto|apply Vn; rewrite ?Z2Pos.id by lia; lia]].
      cbn [Fval]. f_equal.
      rewrite Z2Pos.id by lia.
      assert (2 ^ (e + 1074) <= 2 ^ 2045) by (apply pow2_le; lia).
      change (2 ^ 2098) with (2 ^ 53 * 2 ^ 2045).
      assert (0 < 2 ^ 2045) by reflexivity.
      hide (2 ^ 2045). nia.
    + split; [|split; [right; right; auto|reflexivity]]. cbn [Fval]. f_equal.
      assert (2 ^ 2046 <= 2 ^ (e + 1074)) by (apply pow2_le; lia).
      change (2 ^ 2098) with (2 ^ 52 * 2 ^ 2046).
      assert (0 < 2 ^ 2046) by reflexivity.
      assert (0 < 2 ^ 52) by reflexivity.
      assert (2 ^ 52 <= m) by lia.
      hide (2 ^ 2046). nia.
Qed.

Lemma Zdigits2_shiftr (q j : Z) :
  0 <= q -> 0 <= j -> Zdigits2 (q / 2 ^ j) = Z.max 0 (Zdigits2 q - j).
Proof.
  intros Hq Hj. assert (Pj : 0 < 2 ^ j) by (apply pow2_pos; lia).
  destruct (Z.eq_dec q 0) as [->|Hq0].
  { rewrite Z.div_0_l by lia. cbn. lia. }
  destruct (Zdigits2_bounds q) as [L U]; [lia|].
  pose proof (Zdigits2_nonneg q) as Hd.
  destruct (Z.le_gt_cases (Zdigits2 q) j) as [Hle|Hgt].
  - rewrite Z.div_small; [cbn; lia|].
    assert (2 ^ Zdigits2 q <= 2 ^ j) by (apply pow2_le; lia). lia.
  - replace (Z.max 0 (Zdigits2 q - j)) with (Zdigits2 q - j) by lia.
    apply Zdigits2_unique.
    + replace (Zdigits2 q - 1) with (j + (Zdigits2 q - j - 1)) in L by lia.
      replace (Zdigits2 q) with (j + (Zdigits2 q - j)) in U at 1 by lia.
      rewrite pow2_add in L, U by lia.
      divmod q (2 ^ j) h t. split.
      * destruct (Z.le_gt_cases (2 ^ (Zdigits2 q - j - 1)) h); [assumption|nia].
      * destruct (Z.le_gt_cases (2 ^ (Zdigits2 q - j)) h); [nia|assumption].
    + replace (Zdigits2 q - 1) with (j + (Zdigits2 q - j - 1)) in L by lia.
      rewrite pow2_add in L by lia.
      assert (0 < 2 ^ (Zdigits2 q - j - 1)) by (apply pow2_pos; lia).
      divmod q (2 ^ j) h t.
      destruct (Z.le_gt_cases h 0); [nia|assumption].
Qed.

Lemma Zdigits2_scaled_floor (n d k : Z) :
  0 < d -> 0 < n / d -> 0 <= k ->
  Zdigits2 (n * 2 ^ k / d) = Zdigits2 (n / d) + k.
Proof.
  intros Hd Hq Hk. assert (Pk : 0 < 2 ^ k) by (apply pow2_pos; lia).
  destruct (Zdigits2_bounds (n / d) Hq) as [L U].
  set (dq := Zdigits2 (n / d)) in *.
  assert (0 < dq) by (pose proof (Zdigits2_nonneg (n / d));
    destruct (Z.eq_dec dq 0) as [E|]; [rewrite E in U; cbn in U; lia|lia]).
  divmod n d q r. divmod (n * 2 ^ k) d q2 r2.
  assert (q * 2 ^ k <= q2).
  { destruct (Z.le_gt_cases (q * 2 ^ k) q2); [assumption|exfalso].
    assert (d * (q2 + 1) <= d * (q * 2 ^ k)) by nia. nia. }
  assert (q2 < (q + 1) * 2 ^ k).
  { destruct (Z.le_gt_cases ((q + 1) * 2 ^ k) q2); [exfalso|assumption].
    assert (d * ((q + 1) * 2 ^ k) <= d * q2) by nia. nia. }
  apply Zdigits2_unique; [|nia].
  replace (dq + k - 1) with ((dq - 1) + k) by lia.
  rewrite !pow2_add by lia. nia.
Qed.

(** The rounding performed by [binary_round_aux] on a located fraction. *)
Theorem round_located (s : bool) (n d e : Z) :
  0 <= n -> 0 < d -> e <= fexp64 (Zdigits2 (n / d) + e) ->
  let x := binary_round_aux prec emax s (n / d) e (new_location d (n mod d)) in
  Fval x = cond_Zopp s (clamp (ru (units_num n e) (units_den d e))) /\
  signed s x /\
  valid_binary x = true.
Proof.
  intros Hn Hd HC x.
  assert (Hq : 0 <= n / d) by (apply Z.div_pos; lia).
  unfold x. rewrite binary_round_aux_key by assumption.
  unfold shift_amount.
  set (dq := Zdigits2 (n / d)) in *.
  set (E := fexp64 (dq + e)) in *.
  replace (Z.max 0 (E - e)) with (E - e) by lia.
  set (j := E - e). assert (Hj : 0 <= j) by (unfold j; lia).
  assert (Pj : 0 < 2 ^ j) by (apply pow2_pos; lia).
  replace (e + j) with E by (unfold j; lia).
  pose proof (Z.mod_pos_bound n d Hd) as Hr.
  rewrite (key_new_location d (n / d) (n mod d)) by assumption.
  rewrite <- Z.div_mod by lia.
  rewrite sq_sq_gen, rne_key_sq by nia.
  rewrite rhe_scale by nia.
  set (M := rhe n (d * 2 ^ j)).
  assert (HE : -1074 <= E) by (unfold E, fexp64; lia).
  assert (Hdq : 0 <= dq) by apply Zdigits2_nonneg.
  assert (HM : 0 <= M <= 2 ^ 53).
  { split; [apply rhe_nonneg; nia|]. apply rhe_le; [nia|].
    pose proof (Zdigits2_lt_pow (n / d) Hq) as U. fold dq in U.
    assert (2 ^ dq <= 2 ^ 53 * 2 ^ j).
    { rewrite <- pow2_add by lia. apply pow2_le. unfold j, E, fexp64. lia. }
    divmod n d q r. nia. }
  assert (HN : E = -1074 \/ 2 ^ 52 <= M).
  { destruct (Z.eq_dec E (-1074)); [left; assumption|right].
    assert (Ej : j = dq - 53) by (unfold j, E, fexp64 in *; lia).
    apply rhe_ge; [nia|].
    assert (0 < n / d).
    { destruct (Z.eq_dec (n / d) 0) as [E0|]; [|lia].
      unfold dq in Ej. rewrite E0 in Ej. cbn in Ej. lia. }
    destruct (Zdigits2_bounds (n / d)) as [L _]; [assumption|]. fold dq in L.
    replace (dq - 1) with (52 + j) in L by lia.
    rewrite pow2_add in L by lia.
    divmod n d q r. nia. }
  destruct (finish_val s M E HE HM HN) as [V S]. split; [|exact S].
  rewrite V. do 2 f_equal.
  (* the two roundings agree *)
  unfold ru, units_num, units_den.
  set (k := e + 1074).
  assert (Ejk : E + 1074 = k + j) by (unfold j, k; lia).
  assert (Hkj : 0 <= k + j) by lia.
  assert (Hn' : Z.max 0 (Zdigits2 (n * 2 ^ Z.max 0 k / (d * 2 ^ Z.max 0 (- k))) - 53)
                = k + j).
  { assert (Ekj : k + j = Z.max 0 (dq + k - 53)) by (unfold j, E, fexp64, k; lia).
    destruct (Z.le_gt_cases 0 k) as [Hk|Hk].
    - replace (Z.max 0 k) with k by lia. replace (Z.max 0 (- k)) with 0 by lia.
      change (2 ^ 0) with 1. rewrite Z.mul_1_r.
      destruct (Z.eq_dec (n / d) 0) as [E0|E0].
      + assert (dq = 0) by (unfold dq; rewrite E0; reflexivity).
        assert (k = 0) by (unfold E, fexp64, k in *; lia).
        subst k. rewrite H0. change (2 ^ 0) with 1. rewrite Z.mul_1_r.
        fold dq. lia.
      + rewrite Zdigits2_scaled_floor by lia. fold dq. lia.
    - replace (Z.max 0 k) with 0 by lia. replace (Z.max 0 (- k)) with (- k) by lia.
      change (2 ^ 0) with 1. rewrite Z.mul_1_r.
      rewrite <- Z.div_div by (try apply pow2_pos; lia).
      rewrite Zdigits2_shiftr by lia. fold dq. lia. }
  rewrite Hn'. rewrite Ejk. f_equal.
  destruct (Z.le_gt_cases 0 k) as [Hk|Hk].
  - replace (Z.max 0 k) with k by lia. replace (Z.max 0 (- k)) with 0 by lia.
    change (2 ^ 0) with 1. rewrite Z.mul_1_r.
    rewrite pow2_add by lia.
    replace (n * 2 ^ k) with (2 ^ k * n) by ring.
    replace (d * (2 ^ k * 2 ^ j)) with (2 ^ k * (d * 2 ^ j)) by ring.
    symmetry. apply rhe_scale; [apply pow2_pos; lia|nia].
  - replace (Z.max 0 k) with 0 by lia. replace (Z.max 0 (- k)) with (- k) by lia.
    change (2 ^ 0) with 1. rewrite Z.mul_1_r.
    unfold M. f_equal.
    rewrite <- Z.mul_assoc, <- pow2_add by lia. do 2 f_equal. lia.
Qed.

(** *** Valid floats are ordered by value *)

Lemma valid_finite (s : bool) (m : positive) (e : Z) :
  valid_binary (S754_finite s m e) = true ->
  -1074 <= e <= 971 /\ Zpos m < 2 ^ 53 /\ (e = -1074 \/ 2 ^ 52 <= Zpos m).
Proof.
  unfold SpecFloat.valid_binary, bounded, canonical_mantissa.
  rewrite andb_true_iff, Z.eqb_eq, Z.leb_le, fexp_eq.
  change (emax - prec) with 971. unfold fexp64. intros [Hc He].
  pose proof (digits_bounds m) as [L U].
  set (d := Zpos (digits2_pos m)) in *.
  assert (d <= 53) by lia.
  assert (2 ^ d <= 2 ^ 53) by (apply pow2_le; lia).
  split; [lia|]. split; [lia|].
  destruct (Z.eq_dec e (-1074)); [left; assumption|right].
  assert (d = 53) by lia. replace (d - 1) with 52 in L by lia. exact L.
Qed.

Lemma Fval_finite_bounds (s : bool) (m : positive) (e : Z) :
  valid_binary (S754_finite s m e) = true ->
  0 < Zpos m * 2 ^ (e + 1074) < 2 ^ 2098.
Proof.
  intros H. apply valid_finite in H. destruct H as (He & Hm & _).
  assert (0 < 2 ^ (e + 1074)) by (apply pow2_pos; lia).
  assert (2 ^ (e + 1074) <= 2 ^ 2045) by (apply pow2_le; lia).
  change (2 ^ 2098) with (2 ^ 53 * 2 ^ 2045).
  assert (0 < 2 ^ 2045) by reflexivity. hide (2 ^ 2045). nia.
Qed.

(** Canonical mantissas compare like the values they stand for. *)
Lemma compare_canonical (s1 s2 : bool) (m1 m2 : positive) (e1 e2 : Z) :
  valid_binary (S754_finite s1 m1 e1) = true ->
  valid_binary (S754_finite s2 m2 e2) = true ->
  match e1 ?= e2 with
  | Lt => Lt
  | Gt => Gt
  | Eq => Pos.compare_cont Eq m1 m2
  end = (Zpos m1 * 2 ^ (e1 + 1074) ?= Zpos m2 * 2 ^ (e2 + 1074)).
Proof.
  intros V1 V2. apply valid_finite in V1, V2.
  destruct V1 as (He1 & Hm1 & Hn1). destruct V2 as (He2 & Hm2 & Hn2).
  assert (P1 : 0 < 2 ^ (e1 + 1074)) by (apply pow2_pos; lia).
  assert (P2 : 0 < 2 ^ (e2 + 1074)) by (apply pow2_pos; lia).
  symmetry. destruct (Z.compare_spec e1 e2) as [E|E|E].
  - subst e2. change (Pos.compare_cont Eq m1 m2) with (Zpos m1 ?= Zpos m2).
    destruct (Z.compare_spec (Zpos m1) (Zpos m2)) as [E|E|E].
    + rewrite E. apply Z.compare_refl.
    + apply Z.compare_lt_iff, Z.mul_lt_mono_pos_r; assumption.
    + apply Z.compare_gt_iff, Z.mul_lt_mono_pos_r; assumption.
  - apply Z.compare_lt_iff.
    replace (e2 + 1074) with (1 + (e2 - e1 - 1) + (e1 + 1074)) by lia.
    rewrite (pow2_add (1 + (e2 - e1 - 1)) (e1 + 1074)) by lia.
    rewrite (pow2_add 1 (e2 - e1 - 1)) by lia.
    assert (0 < 2 ^ (e2 - e1 - 1)) by (apply pow2_pos; lia).
    change (2 ^ 1) with 2. change (2 ^ 53) with (2 ^ 52 * 2) in *.
    assert (H12 : Zpos m1 < 2 * Zpos m2) by lia.
    clear Hm1 Hm2 Hn1 Hn2.
    set (P := 2 ^ (e1 + 1074)) in *. set (Q := 2 ^ (e2 - e1 - 1)) in *.
    assert (Zpos m1 * P < 2 * Zpos m2 * P)
      by (apply Z.mul_lt_mono_pos_r; lia).
    assert (0 <= 2 * Zpos m2 * P * (Q - 1))
      by (apply Z.mul_nonneg_nonneg; lia).
    lia.
  - apply Z.compare_gt_iff.
    replace (e1 + 1074) with (1 + (e1 - e2 - 1) + (e2 + 1074)) by lia.
    rewrite (pow2_add (1 + (e1 - e2 - 1)) (e2 + 1074)) by lia.
    rewrite (pow2_add 1 (e1 - e2 - 1)) by lia.
    assert (0 < 2 ^ (e1 - e2 - 1)) by (apply pow2_pos; lia).
    change (2 ^ 1) with 2. change (2 ^ 53) with (2 ^ 52 * 2) in *.
    assert (H12 : Zpos m2 < 2 * Zpos m1) by lia.
    clear Hm1 Hm2 Hn1 Hn2.
    set (P := 2 ^ (e2 + 1074)) in *. set (Q := 2 ^ (e1 - e2 - 1)) in *.
    assert (Zpos m2 * P < 2 * Zpos m1 * P)
      by (apply Z.mul_lt_mono_pos_r; lia).
    assert (0 <= 2 * Zpos m1 * P * (Q - 1))
      by (apply Z.mul_nonneg_nonneg; lia).
    lia.
Qed.

(** On valid floats other than NaN, [SFcompare] is the comparison of
    values. *)
Theorem SFcompare_Fval (x y : spec_float) :
  valid_binary x = true -> valid_binary y = true ->
  not_nan x = true -> not_nan y = true ->
  SFcompare x y = Some (Fval x ?= Fval y).
Proof.
  intros Vx Vy Nx Ny.
  assert (HI : 0 < 2 ^ 2098) by reflexivity.
  destruct x as [sx|sx| |sx mx ex]; try discriminate;
  destruct y as [sy|sy| |sy my ey]; try discriminate;
  try (pose proof (Fval_finite_bounds _ _ _ Vx) as Bx);
  try (pose proof (Fval_finite_bounds _ _ _ Vy) as By);
  cbn [SFcompare Fval];
  try (rewrite (compare_canonical _ _ _ _ _ _ Vx Vy));
  try (rewrite (compare_canonical _ _ _ _ _ _ Vy Vx));
  set (I := 2 ^ 2098) in *;
  try set (X := Z.pos mx * 2 ^ (ex + 1074)) in *;
  try set (Y := Z.pos my * 2 ^ (ey + 1074)) in *;
  destruct sx, sy; cbn [cond_Zopp CompOpp]; f_equal;
  try reflexivity;
  try (symmetry; apply Z.compare_lt_iff; lia);
  try (symmetry; apply Z.compare_gt_iff; lia);
  try (symmetry; apply Z.compare_eq_iff; lia).
  rewrite Z.compare_opp, (Z.compare_antisym X Y).
  unfold X, Y. rewrite <- (compare_canonical _ _ _ _ _ _ Vx Vy).
  destruct (ex ?= ey); reflexivity.
Qed.

Lemma SFltb_Fval (x y : spec_float) :
  valid_binary x = true -> valid_binary y = true ->
  not_nan x = true -> not_nan y = true ->
  SFltb x y = (Fval x <? Fval y).
Proof.
  intros. unfold SFltb, Z.ltb. rewrite SFcompare_Fval by assumption.
  destruct (Fval x ?= Fval y); reflexivity.
Qed.

Lemma SFleb_Fval (x y : spec_float) :
  valid_binary x = true -> valid_binary y = true ->
  not_nan x = true -> not_nan y = true ->
  SFleb x y = (Fval x <=? Fval y).
Proof.
  intros. unfold SFleb, Z.leb. rewrite SFcompare_Fval by assumption.
  destruct (Fval x ?= Fval y); reflexivity.
Qed.

(** *** Rounding an exact mantissa *)

Lemma ru_eq (a1 b1 a2 b2 : Z) :
  0 <= a1 -> 0 < b1 -> 0 < b2 -> a1 * b2 = a2 * b1 -> ru a1 b1 = ru a2 b2.
Proof.
  intros Ha H1 H2 H. assert (0 <= a2) by nia.
  apply Z.le_antisymm; apply ru_mono; lia.
Qed.

Lemma ru_0 (b : Z) : 0 < b -> ru 0 b = 0.
Proof.
  intros Hb. unfold ru. rewrite Z.div_0_l by lia. cbn [Zdigits2].
  change (Z.max 0 (0 - 53)) with 0. change (2 ^ 0) with 1.
  rewrite Z.mul_1_r, Z.mul_1_r.
  apply Z.le_antisymm; [apply rhe_le|apply rhe_ge]; lia.
Qed.

Lemma round_exact (s : bool) (n e : Z) :
  0 <= n -> e <= fexp64 (Zdigits2 n + e) ->
  let x := binary_round_aux prec emax s n e loc_Exact in
  Fval x = cond_Zopp s (clamp (ru (units_num n e) (units_den 1 e))) /\
  signed s x /\
  valid_binary x = true.
Proof.
  intros Hn HC.
  pose proof (round_located s n 1 e Hn) as H.
  rewrite Z.div_1_r, Z.mod_1_r in H.
  change (new_location 1 0) with loc_Exact in H.
  apply H; [lia|assumption].
Qed.

Lemma iter_xO (m d : positive) :
  Zpos (Pos.iter xO m d) = Zpos m * 2 ^ Zpos d.
Proof.
  rewrite (Pos.iter_swap_gen _ _ Zpos xO (Z.mul 2)) by reflexivity.
  change (2 ^ Zpos d) with (Pos.iter (Z.mul 2) 1 d).
  rewrite (Pos.iter_swap_gen _ _ (Z.mul (Zpos m)) (Z.mul 2) (Z.mul 2))
    by (intros; ring).
  rewrite Z.mul_1_r. reflexivity.
Qed.

Lemma Zdigits2_mul_pow2 (m j : Z) :
  0 < m -> 0 <= j -> Zdigits2 (m * 2 ^ j) = Zdigits2 m + j.
Proof.
  intros Hm Hj. destruct (Zdigits2_bounds m Hm) as [L U].
  assert (0 < 2 ^ j) by (apply pow2_pos; lia).
  assert (0 < Zdigits2 m).
  { pose proof (Zdigits2_nonneg m).
    destruct (Z.eq_dec (Zdigits2 m) 0) as [E|]; [|lia].
    rewrite E in U. cbn in U. lia. }
  apply Zdigits2_unique; [|nia].
  replace (Zdigits2 m + j - 1) with ((Zdigits2 m - 1) + j) by lia.
  rewrite !pow2_add by lia. nia.
Qed.

Lemma Zdigits2_mul_ge (a b : Z) :
  0 < a -> 0 < b -> Zdigits2 a + Zdigits2 b - 1 <= Zdigits2 (a * b).
Proof.
  intros Ha Hb.
  destruct (Zdigits2_bounds a Ha) as [La Ua].
  destruct (Zdigits2_bounds b Hb) as [Lb Ub].
  destruct (Zdigits2_bounds (a * b)) as [Lc Uc]; [nia|].
  assert (0 < Zdigits2 a /\ 0 < Zdigits2 b) as [Da Db].
  { pose proof (Zdigits2_nonneg a). pose proof (Zdigits2_nonneg b).
    split.
    - destruct (Z.eq_dec (Zdigits2 a) 0) as [E|]; [|lia].
      rewrite E in Ua. cbn in Ua. lia.
    - destruct (Z.eq_dec (Zdigits2 b) 0) as [E|]; [|lia].
      rewrite E in Ub. cbn in Ub. lia. }
  destruct (Z.le_gt_cases (Zdigits2 a + Zdigits2 b - 1) (Zdigits2 (a * b)));
    [assumption|exfalso].
  assert (2 ^ Zdigits2 (a * b) <= 2 ^ ((Zdigits2 a - 1) + (Zdigits2 b - 1))).
  { apply pow2_le. pose proof (Zdigits2_nonneg (a * b)). lia. }
  rewrite pow2_add in H0 by lia.
  assert (2 ^ (Zdigits2 a - 1) * 2 ^ (Zdigits2 b - 1) <= a * b) by nia.
  lia.
Qed.

Lemma units_nonneg (n d e : Z) :
  0 <= n -> 0 < d -> 0 <= units_num n e /\ 0 < units_den d e.
Proof.
  intros Hn Hd. unfold units_num, units_den.
  assert (0 < 2 ^ Z.max 0 (e + 1074)) by (apply pow2_pos; lia).
  assert (0 < 2 ^ Z.max 0 (- (e + 1074))) by (apply pow2_pos; lia).
  nia.
Qed.

(** The two ways of writing [n / d * 2^e] in units agree. *)
Lemma units_cross (n d e b : Z) :
  0 <= e + 1074 + b ->  0 <= b ->
  units_num n e * (d * 2 ^ b) = (n * 2 ^ (e + 1074 + b)) * units_den d e.
Proof.
  intros H Hb. unfold units_num, units_den.
  destruct (Z.le_gt_cases 0 (e + 1074)) as [Hk|Hk].
  - replace (Z.max 0 (e + 1074)) with (e + 1074) by lia.
    replace (Z.max 0 (- (e + 1074))) with 0 by lia.
    rewrite (pow2_add (e + 1074) b) by lia. change (2 ^ 0) with 1. ring.
  - replace (Z.max 0 (e + 1074)) with 0 by lia.
    replace (Z.max 0 (- (e + 1074))) with (- (e + 1074)) by lia.
    change (2 ^ 0) with 1.
    replace (2 ^ b) with (2 ^ ((e + 1074 + b) + (- (e + 1074))))
      by (f_equal; lia).
    rewrite (pow2_add (e + 1074 + b) (- (e + 1074))) by lia. ring.
Qed.

Lemma binary_round_val (s : bool) (m : positive) (e : Z) :
  let x := binary_round prec emax s m e in
  Fval x = cond_Zopp s (clamp (ru (units_num (Zpos m) e) (units_den 1 e))) /\
  signed s x /\
  valid_binary x = true.
Proof.
  unfold binary_round, shl_align. rewrite fexp_eq.
  set (E := fexp64 (Z.pos (digits2_pos m) + e)).
  destruct (E - e) as [|d|d] eqn:Ed.
  - apply round_exact; [lia|]. cbn [Zdigits2]. fold E. lia.
  - apply round_exact; [lia|]. cbn [Zdigits2]. fold E. lia.
  - pose proof (round_exact s (Zpos (Pos.iter xO m d)) E) as H.
    cbv zeta in H. rewrite iter_xO in H at 2.
    rewrite Zdigits2_mul_pow2 in H by lia. cbn [Zdigits2] in H.
    replace (Z.pos (digits2_pos m) + Z.pos d + E)
      with (Z.pos (digits2_pos m) + e) in H by lia.
    fold E in H. destruct H as [V S]; [lia|lia|]. split; [|exact S].
    rewrite V. do 2 f_equal. rewrite iter_xO.
    assert (HE : -1074 <= E) by (unfold E, fexp64; lia).
    destruct (units_nonneg (Z.pos m * 2 ^ Z.pos d) 1 E) as [A B]; [lia|lia|].
    destruct (units_nonneg (Z.pos m) 1 e) as [A' B']; [lia|lia|].
    apply ru_eq; try assumption.
    unfold units_num, units_den.
    replace (Z.max 0 (E + 1074)) with (E + 1074) by lia.
    replace (Z.max 0 (e + 1074)) with (Z.pos d + (E + 1074)) by lia.
    replace (Z.max 0 (- (E + 1074))) with 0 by lia.
    replace (Z.max 0 (- (e + 1074))) with 0 by lia.
    rewrite (pow2_add (Z.pos d) (E + 1074)) by lia. ring.
Qed.

(** *** The four operations on finite floats *)

Lemma valid_digits (s : bool) (m : positive) (e : Z) :
  valid_binary (S754_finite s m e) = true ->
  e = -1074 \/ Zdigits2 (Zpos m) = 53.
Proof.
  intros V. apply valid_finite in V. destruct V as (He & Hm & [Hn|Hn]).
  - left. assumption.
  - right. apply Zdigits2_unique; [|lia]. change (53 - 1) with 52. lia.
Qed.

Theorem SFmul_finite (sx sy : bool) (mx my : positive) (ex ey : Z) :
  valid_binary (S754_finite sx mx ex) = true ->
  valid_binary (S754_finite sy my ey) = true ->
  let x := SFmul prec emax (S754_finite sx mx ex) (S754_finite sy my ey) in
  Fval x =
    cond_Zopp (xorb sx sy)
      (clamp (ru (Zpos mx * 2 ^ (ex + 1074) * (Zpos my * 2 ^ (ey + 1074)))
                 (2 ^ 1074))) /\
  signed (xorb sx sy) x.
Proof.
  intros Vx Vy. cbn [SFmul].
  pose proof (valid_digits _ _ _ Vx) as Dx.
  pose proof (valid_digits _ _ _ Vy) as Dy.
  apply valid_finite in Vx, Vy.
  destruct Vx as (Hex & Hmx & _). destruct Vy as (Hey & Hmy & _).
  pose proof (Zdigits2_mul_ge (Zpos mx) (Zpos my)) as Hd.
  assert (0 < Zdigits2 (Zpos mx)) by (cbn; lia).
  assert (0 < Zdigits2 (Zpos my)) by (cbn; lia).
  destruct (round_exact (xorb sx sy) (Zpos (mx * my)) (ex + ey)) as (V & S & _);
    [lia| |].
  { rewrite Pos2Z.inj_mul. unfold fexp64. lia. }
  split; [|exact S]. rewrite V. do 2 f_equal.
  destruct (units_nonneg (Zpos (mx * my)) 1 (ex + ey)) as [A B]; [lia|lia|].
  apply ru_eq; try assumption; try reflexivity.
  rewrite <- (Z.mul_1_l (2 ^ 1074)) at 1.
  rewrite (units_cross _ 1 (ex + ey) 1074) by lia.
  f_equal. rewrite Pos2Z.inj_mul.
  replace (ex + ey + 1074 + 1074) with ((ex + 1074) + (ey + 1074)) by lia.
  rewrite (pow2_add (ex + 1074) (ey + 1074)) by lia. ring.
Qed.

Lemma div_eucl_eq (a b : Z) : Z.div_eucl a b = (a / b, a mod b).
Proof. unfold Z.div, Z.modulo. destruct (Z.div_eucl a b). reflexivity. Qed.

(** The correctly rounded quotient of two scaled integers. *)
Theorem div_core_val (s : bool) (mx my : positive) (ex ey : Z) :
  -1074 <= ex -> -1074 <= ey ->
  let '(q, e, l) := SFdiv_core_binary prec emax (Zpos mx) ex (Zpos my) ey in
  let x := binary_round_aux prec emax s q e l in
  Fval x =
    cond_Zopp s
      (clamp (ru (Zpos mx * 2 ^ (ex + 1074) * 2 ^ 1074)
                 (Zpos my * 2 ^ (ey + 1074)))) /\
  signed s x /\ valid_binary x = true.
Proof.
  intros Hex Hey. unfold SFdiv_core_binary. rewrite fexp_eq.
  set (d1 := Zdigits2 (Zpos mx)). set (d2 := Zdigits2 (Zpos my)).
  set (e' := Z.min (fexp64 (d1 + ex - (d2 + ey))) (ex - ey)).
  set (sh := ex - ey - e').
  assert (Hsh : 0 <= sh) by (unfold sh, e'; lia).
  assert (Psh : 0 < 2 ^ sh) by (apply pow2_pos; lia).
  set (m' := match sh with
             | 0 => Z.pos mx
             | Z.pos _ => Z.shiftl (Z.pos mx) sh
             | Z.neg _ => 0
             end).
  assert (Em : m' = Zpos mx * 2 ^ sh).
  { unfold m'. destruct sh as [|p|p] eqn:E; try lia.
    rewrite Z.shiftl_mul_pow2 by lia. reflexivity. }
  rewrite div_eucl_eq.
  assert (Hm' : 0 <= m') by nia.
  destruct (round_located s m' (Zpos my) e') as (V & S & W);
    [lia|lia| |].
  { (* no left shift is needed *)
    unfold fexp64.
    destruct (Z.le_gt_cases e' (-1074)); [lia|].
    assert (He' : e' <= d1 + ex - (d2 + ey) - 53) by (unfold e', fexp64 in *; lia).
    assert (Hs : 53 - d1 + d2 <= sh) by (unfold sh; lia).
    destruct (Zdigits2_bounds (Zpos mx)) as [L1 _]; [lia|]. fold d1 in L1.
    pose proof (Zdigits2_lt_pow (Zpos my)) as U2. fold d2 in U2.
    assert (0 < d1) by (unfold d1; cbn; lia).
    assert (0 < d2) by (unfold d2; cbn; lia).
    assert (Hq : 2 ^ 52 <= m' / Zpos my).
    { apply Z.div_le_lower_bound; [lia|]. rewrite Em.
      assert (2 ^ (52 + d2) <= 2 ^ ((d1 - 1) + sh)) by (apply pow2_le; lia).
      rewrite !pow2_add in H2 by lia. nia. }
    assert (53 <= Zdigits2 (m' / Zpos my)); [|lia].
    change 53 with (Zdigits2 (2 ^ 52)). apply Zdigits2_mono. lia. }
  split; [|split; [exact S|exact W]]. rewrite V. do 2 f_equal.
  destruct (units_nonneg m' (Zpos my) e') as [A B]; [lia|lia|].
  assert (0 < 2 ^ (ey + 1074)) by (apply pow2_pos; lia).
  apply ru_eq; try assumption; try nia.
  unfold units_num, units_den. rewrite Em.
  set (k := e' + 1074).
  transitivity (Zpos mx * Zpos my * 2 ^ (sh + Z.max 0 k + (ey + 1074))).
  { rewrite (pow2_add (sh + Z.max 0 k) (ey + 1074)) by lia.
    rewrite (pow2_add sh (Z.max 0 k)) by lia. ring. }
  replace (sh + Z.max 0 k + (ey + 1074))
    with ((ex + 1074) + 1074 + Z.max 0 (- k)) by (unfold sh, k; lia).
  rewrite (pow2_add ((ex + 1074) + 1074) (Z.max 0 (- k))) by lia.
  rewrite (pow2_add (ex + 1074) 1074) by lia. ring.
Qed.

Theorem SFdiv_finite (sx sy : bool) (mx my : positive) (ex ey : Z) :
  valid_binary (S754_finite sx mx ex) = true ->
  valid_binary (S754_finite sy my ey) = true ->
  let x := SFdiv prec emax (S754_finite sx mx ex) (S754_finite sy my ey) in
  Fval x =
    cond_Zopp (xorb sx sy)
      (clamp (ru (Zpos mx * 2 ^ (ex + 1074) * 2 ^ 1074)
                 (Zpos my * 2 ^ (ey + 1074)))) /\
  signed (xorb sx sy) x.
Proof.
  intros Vx Vy. cbn [SFdiv].
  apply valid_finite in Vx, Vy.
  destruct Vx as (Hex & _). destruct Vy as (Hey & _).
  pose proof (div_core_val (xorb sx sy) mx my ex ey) as H.
  destruct (SFdiv_core_binary prec emax (Zpos mx) ex (Zpos my) ey) as [[q e] l].
  destruct H as (V & S & _); [lia|lia|]. split; assumption.
Qed.

Lemma shl_align_fst (m : positive) (e e' : Z) :
  e' <= e -> Zpos (fst (shl_align m e e')) = Zpos m * 2 ^ (e - e').
Proof.
  intros H. unfold shl_align. destruct (e' - e) as [|d|d] eqn:E; try lia.
  - replace (e - e') with 0 by lia. cbn [fst]. change (2 ^ 0) with 1. lia.
  - cbn [fst]. rewrite iter_xO. f_equal. f_equal. lia.
Qed.

Lemma binary_normalize_val (z e : Z) :
  -1074 <= e ->
  let x := binary_normalize prec emax z e false in
  Fval x = sround (z * 2 ^ (e + 1074)) 1 /\ not_nan x = true /\
  valid_binary x = true.
Proof.
  intros He. unfold binary_normalize, sround.
  assert (P : 0 < 2 ^ (e + 1074)) by (apply pow2_pos; lia).
  assert (U : forall p, units_num (Zpos p) e = Zpos p * 2 ^ (e + 1074) /\
                        units_den 1 e = 1).
  { intros p. unfold units_num, units_den.
    replace (Z.max 0 (e + 1074)) with (e + 1074) by lia.
    replace (Z.max 0 (- (e + 1074))) with 0 by lia. split; reflexivity. }
  destruct z as [|p|p].
  - cbn. repeat split; reflexivity.
  - destruct (binary_round_val false p e) as (V & S & W).
    destruct (U p) as [U1 U2]. rewrite U1, U2 in V.
    split.
    + rewrite V. cbn [cond_Zopp].
      destruct (Z.ltb_spec (Zpos p * 2 ^ (e + 1074)) 0); [nia|reflexivity].
    + split; [|exact W]. destruct S as [->|[(m & e0 & ->)| ->]]; reflexivity.
  - destruct (binary_round_val true p e) as (V & S & W).
    destruct (U p) as [U1 U2]. rewrite U1, U2 in V.
    split.
    + rewrite V. cbn [cond_Zopp].
      destruct (Z.ltb_spec (Zneg p * 2 ^ (e + 1074)) 0); [|nia].
      do 3 f_equal. rewrite <- Z.mul_opp_l. reflexivity.
    + split; [|exact W]. destruct S as [->|[(m & e0 & ->)| ->]]; reflexivity.
Qed.

Lemma cond_Zopp_scale (s : bool) (m e ez : Z) :
  ez <= e -> -1074 <= ez ->
  cond_Zopp s (m * 2 ^ (e - ez)) * 2 ^ (ez + 1074) =
  cond_Zopp s (m * 2 ^ (e + 1074)).
Proof.
  intros H1 H2. replace (e + 1074) with ((e - ez) + (ez + 1074)) by lia.
  rewrite (pow2_add (e - ez) (ez + 1074)) by lia.
  destruct s; cbn [cond_Zopp]; ring.
Qed.

Theorem SFadd_finite (sx sy : bool) (mx my : positive) (ex ey : Z) :
  valid_binary (S754_finite sx mx ex) = true ->
  valid_binary (S754_finite sy my ey) = true ->
  let x := SFadd prec emax (S754_finite sx mx ex) (S754_finite sy my ey) in
  Fval x = sround (Fval (S754_finite sx mx ex) + Fval (S754_finite sy my ey)) 1 /\
  not_nan x = true.
Proof.
  intros Vx Vy. cbn [SFadd Fval].
  apply valid_finite in Vx, Vy.
  destruct Vx as (Hex & _). destruct Vy as (Hey & _).
  set (ez := Z.min ex ey).
  destruct (binary_normalize_val
              (cond_Zopp sx (Zpos (fst (shl_align mx ex ez))) +
               cond_Zopp sy (Zpos (fst (shl_align my ey ez)))) ez) as [V N];
    [unfold ez; lia|].
  destruct N as [N _].
  split; [|exact N]. rewrite V. f_equal.
  rewrite !shl_align_fst by (unfold ez; lia).
  rewrite Z.mul_add_distr_r. f_equal.
  - apply cond_Zopp_scale; unfold ez; lia.
  - apply cond_Zopp_scale; unfold ez; lia.
Qed.

Theorem SFsub_finite (sx sy : bool) (mx my : positive) (ex ey : Z) :
  valid_binary (S754_finite sx mx ex) = true ->
  valid_binary (S754_finite sy my ey) = true ->
  let x := SFsub prec emax (S754_finite sx mx ex) (S754_finite sy my ey) in
  Fval x = sround (Fval (S754_finite sx mx ex) - Fval (S754_finite sy my ey)) 1 /\
  not_nan x = true.
Proof.
  intros Vx Vy. cbn [SFsub Fval].
  apply valid_finite in Vx, Vy.
  destruct Vx as (Hex & _). destruct Vy as (Hey & _).
  set (ez := Z.min ex ey).
  destruct (binary_normalize_val
              (cond_Zopp sx (Zpos (fst (shl_align mx ex ez))) -
               cond_Zopp sy (Zpos (fst (shl_align my ey ez)))) ez) as [V N];
    [unfold ez; lia|].
  destruct N as [N _].
  split; [|exact N]. rewrite V. f_equal.
  rewrite !shl_align_fst by (unfold ez; lia).
  rewrite Z.mul_sub_distr_r. f_equal.
  - apply cond_Zopp_scale; unfold ez; lia.
  - apply cond_Zopp_scale; unfold ez; lia.
Qed.

(** *** The four operations on values *)

Lemma clamp_mono (a b : Z) : a <= b -> clamp a <= clamp b.
Proof. unfold clamp. hide (2 ^ 2098). lia. Qed.

Lemma clamp_nonneg (a : Z) : 0 <= a -> 0 <= clamp a.
Proof.
  unfold clamp. intros. assert (0 < 2 ^ 2098) by reflexivity.
  hide (2 ^ 2098). lia.
Qed.

Lemma clamp_small (a : Z) : a < 2 ^ 2098 -> clamp a = a.
Proof. unfold clamp. hide (2 ^ 2098). lia. Qed.

Theorem sround_mono (z1 b1 z2 b2 : Z) :
  0 < b1 -> 0 < b2 -> z1 * b2 <= z2 * b1 -> sround z1 b1 <= sround z2 b2.
Proof.
  intros H1 H2 H. unfold sround.
  destruct (Z.ltb_spec z1 0), (Z.ltb_spec z2 0).
  - apply Z.opp_le_mono. rewrite !Z.opp_involutive.
    apply clamp_mono, ru_mono; nia.
  - pose proof (clamp_nonneg (ru (- z1) b1)).
    pose proof (clamp_nonneg (ru z2 b2)).
    pose proof (ru_nonneg (- z1) b1). pose proof (ru_nonneg z2 b2). lia.
  - exfalso. nia.
  - apply clamp_mono, ru_mono; nia.
Qed.

Lemma sround_0 (b : Z) : 0 < b -> sround 0 b = 0.
Proof. intros. unfold sround. cbn. rewrite ru_0 by assumption. reflexivity. Qed.

Lemma sround_opp (z b : Z) : 0 < b -> sround (- z) b = - sround z b.
Proof.
  intros Hb. unfold sround.
  destruct (Z.ltb_spec (- z) 0), (Z.ltb_spec z 0); try lia.
  - rewrite Z.opp_involutive. reflexivity.
  - assert (z = 0) by lia. subst z. cbn. rewrite ru_0 by assumption. reflexivity.
Qed.

Lemma sround_exact_pos (m j : Z) :
  0 <= m < 2 ^ 53 -> 0 <= j -> m * 2 ^ j < 2 ^ 2098 ->
  sround (m * 2 ^ j) 1 = m * 2 ^ j.
Proof.
  intros Hm Hj Hb. unfold sround.
  assert (0 < 2 ^ j) by (apply pow2_pos; lia).
  destruct (Z.ltb_spec (m * 2 ^ j) 0); [clear Hb; nia|].
  rewrite ru_exact by assumption. apply clamp_small. assumption.
Qed.

(** A finite float is its own rounding. *)
Lemma Fval_exact (x : spec_float) :
  valid_binary x = true -> finite_or_zero x = true ->
  sround (Fval x) 1 = Fval x.
Proof.
  intros V Hf. destruct x as [s|s| |s m e]; try discriminate.
  - apply sround_0. lia.
  - pose proof (Fval_finite_bounds _ _ _ V) as B.
    apply valid_finite in V. destruct V as (He & Hm & _).
    destruct B as [_ B].
    cbn [Fval]. destruct s; cbn [cond_Zopp].
    + rewrite sround_opp by lia. f_equal.
      apply sround_exact_pos; [clear B; lia|clear B; lia|exact B].
    + apply sround_exact_pos; [clear B; lia|clear B; lia|exact B].
Qed.

Lemma Fval_finite_sign (s : bool) (m : positive) (e : Z) :
  valid_binary (S754_finite s m e) = true ->
  (Fval (S754_finite s m e) <? 0) = s /\ Fval (S754_finite s m e) <> 0.
Proof.
  intros V. pose proof (Fval_finite_bounds _ _ _ V) as B.
  cbn [Fval]. destruct s; cbn [cond_Zopp]; split; try lia.
  all: try (apply Z.ltb_lt; lia); try (apply Z.ltb_ge; lia).
Qed.

Theorem SFmul_val (x y : spec_float) :
  valid_binary x = true -> valid_binary y = true ->
  finite_or_zero x = true -> finite_or_zero y = true ->
  Fval (SFmul prec emax x y) = sround (Fval x * Fval y) (2 ^ 1074) /\
  not_nan (SFmul prec emax x y) = true.
Proof.
  intros Vx Vy Hx Hy.
  assert (P : 0 < 2 ^ 1074) by reflexivity.
  destruct x as [sx|sx| |sx mx ex]; try discriminate;
  destruct y as [sy|sy| |sy my ey]; try discriminate;
  try (cbn [SFmul Fval]; rewrite ?Z.mul_0_l, ?Z.mul_0_r, sround_0 by assumption;
       split; reflexivity).
  destruct (SFmul_finite sx sy mx my ex ey Vx Vy) as [V S].
  split.
  - rewrite V. pose proof (Fval_finite_bounds _ _ _ Vx) as [Bx _].
    pose proof (Fval_finite_bounds _ _ _ Vy) as [By _].
    cbn [Fval]. unfold sround. clear P V S.
    set (X := Zpos mx * 2 ^ (ex + 1074)) in *.
    set (Y := Zpos my * 2 ^ (ey + 1074)) in *.
    clearbody X Y. hide (2 ^ 1074).
    destruct sx, sy; cbn [cond_Zopp xorb];
      match goal with |- context [?a <? 0] =>
        destruct (Z.ltb_spec a 0); try nia end.
    + replace (- X * - Y) with (X * Y) by ring. reflexivity.
    + replace (- (- X * Y)) with (X * Y) by ring. reflexivity.
    + replace (- (X * - Y)) with (X * Y) by ring. reflexivity.
  - destruct S as [->|[(m & e0 & ->)| ->]]; reflexivity.
Qed.

Theorem SFdiv_val (x y : spec_float) :
  valid_binary x = true -> valid_binary y = true ->
  finite_or_zero x = true -> finite_or_zero y = true -> 0 < Fval y ->
  Fval (SFdiv prec emax x y) = sround (Fval x * 2 ^ 1074) (Fval y) /\
  not_nan (SFdiv prec emax x y) = true.
Proof.
  intros Vx Vy Hx Hy Hpos.
  assert (P : 0 < 2 ^ 1074) by reflexivity.
  destruct y as [sy|sy| |sy my ey]; try discriminate.
  pose proof (Fval_finite_bounds _ _ _ Vy) as By.
  destruct sy; [cbn [Fval cond_Zopp] in Hpos; lia|].
  destruct x as [sx|sx| |sx mx ex]; try discriminate.
  - cbn [SFdiv Fval]. rewrite Z.mul_0_l, sround_0 by assumption.
    split; reflexivity.
  - destruct (SFdiv_finite sx false mx my ex ey Vx Vy) as [V S].
    split.
    + rewrite V. pose proof (Fval_finite_bounds _ _ _ Vx) as [Bx _].
      destruct By as [By _].
      cbn [Fval]. unfold sround. rewrite xorb_false_r. clear V S Hpos.
      set (X := Zpos mx * 2 ^ (ex + 1074)) in *.
      set (Y := Zpos my * 2 ^ (ey + 1074)) in *.
      clearbody X Y. hide (2 ^ 1074).
      destruct sx; cbn [cond_Zopp];
        match goal with |- context [?a <? 0] =>
          destruct (Z.ltb_spec a 0); try nia end.
      rewrite Z.mul_opp_l, Z.opp_involutive. reflexivity.
    + destruct S as [->|[(m & e0 & ->)| ->]]; reflexivity.
Qed.

Theorem SFadd_val (x y : spec_float) :
  valid_binary x = true -> valid_binary y = true ->
  finite_or_zero x = true -> finite_or_zero y = true ->
  Fval (SFadd prec emax x y) = sround (Fval x + Fval y) 1 /\
  not_nan (SFadd prec emax x y) = true.
Proof.
  intros Vx Vy Hx Hy.
  destruct x as [sx|sx| |sx mx ex]; try discriminate;
  destruct y as [sy|sy| |sy my ey]; try discriminate.
  - cbn [Fval]. rewrite sround_0 by lia.
    destruct sx, sy; split; reflexivity.
  - cbn [SFadd]. rewrite Z.add_0_l.
    rewrite (Fval_exact _ Vy Hy). split; reflexivity.
  - cbn [SFadd]. change (Fval (S754_zero sy)) with 0. rewrite Z.add_0_r.
    rewrite (Fval_exact _ Vx Hx). split; reflexivity.
  - apply SFadd_finite; assumption.
Qed.

Theorem SFsub_val (x y : spec_float) :
  valid_binary x = true -> valid_binary y = true ->
  finite_or_zero x = true -> finite_or_zero y = true ->
  Fval (SFsub prec emax x y) = sround (Fval x - Fval y) 1 /\
  not_nan (SFsub prec emax x y) = true.
Proof.
  intros Vx Vy Hx Hy.
  destruct x as [sx|sx| |sx mx ex]; try discriminate;
  destruct y as [sy|sy| |sy my ey]; try discriminate.
  - cbn [Fval]. rewrite sround_0 by lia.
    destruct sx, sy; split; reflexivity.
  - cbn [SFsub]. change (Fval (S754_zero sx)) with 0. rewrite Z.sub_0_l.
    rewrite sround_opp by lia. rewrite (Fval_exact _ Vy Hy).
    split; [|reflexivity]. cbn [Fval]. destruct sy; cbn [cond_Zopp negb]; lia.
  - cbn [SFsub]. change (Fval (S754_zero sy)) with 0. rewrite Z.sub_0_r.
    rewrite (Fval_exact _ Vx Hx). split; reflexivity.
  - apply SFsub_finite; assumption.
Qed.

Lemma SFmul_finite_inv (x y : spec_float) :
  finite_or_zero (SFmul prec emax x y) = true ->
  finite_or_zero x = true /\ finite_or_zero y = true.
Proof.
  destruct x as [sx|sx| |sx mx ex], y as [sy|sy| |sy my ey];
    cbn [SFmul finite_or_zero]; intros H; try discriminate; auto.
Qed.

Lemma SFadd_finite_inv (x y : spec_float) :
  finite_or_zero (SFadd prec emax x y) = true ->
  finite_or_zero x = true /\ finite_or_zero y = true.
Proof.
  destruct x as [sx|sx| |sx mx ex], y as [sy|sy| |sy my ey];
    cbn [SFadd finite_or_zero]; intros H; try discriminate; auto;
    destruct sx, sy; discriminate.
Qed.

Lemma SFsub_finite_inv (x y : spec_float) :
  finite_or_zero (SFsub prec emax x y) = true ->
  finite_or_zero x = true /\ finite_or_zero y = true.
Proof.
  destruct x as [sx|sx| |sx mx ex], y as [sy|sy| |sy my ey];
    cbn [SFsub finite_or_zero]; intros H; try discriminate; auto;
    destruct sx, sy; discriminate.
Qed.

Lemma SFdiv_finite_inv (x y : spec_float) :
  finite_or_zero (SFdiv prec emax x y) = true ->
  finite_or_zero x = true.
Proof.
  destruct x as [sx|sx| |sx mx ex], y as [sy|sy| |sy my ey];
    cbn [SFdiv finite_or_zero]; intros H; try discriminate; auto.
Qed.

(** *** Primitive floats *)

Lemma fin_not_nan (x : float) : fin x = true -> not_nan (Prim2SF x) = true.
Proof. unfold fin. destruct (Prim2SF x); auto. Qed.

Lemma ltb_F (x y : float) :
  not_nan (Prim2SF x) = true -> not_nan (Prim2SF y) = true ->
  (x <? y)%float = (F x <? F y).
Proof.
  intros. rewrite FloatAxioms.ltb_spec. apply SFltb_Fval; auto using Prim2SF_valid.
Qed.

Lemma ltb_not_nan (x y : float) :
  (x <? y)%float = true ->
  not_nan (Prim2SF x) = true /\ not_nan (Prim2SF y) = true.
Proof.
  rewrite FloatAxioms.ltb_spec. unfold SFltb.
  destruct (Prim2SF x), (Prim2SF y); cbn; intros H;
    try discriminate; auto.
Qed.

Lemma eqb_zero_F (x : float) :
  fin x = true -> (x =? 0)%float = (F x =? 0).
Proof.
  intros H. rewrite FloatAxioms.eqb_spec. unfold SFeqb, Z.eqb.
  rewrite SFcompare_Fval; auto using Prim2SF_valid, fin_not_nan.
  change (Fval (Prim2SF 0)) with 0. fold (F x).
  destruct (F x ?= 0) eqn:E; destruct (F x); try reflexivity; discriminate.
Qed.

Lemma mul_F (x y : float) :
  fin x = true -> fin y = true ->
  F (x * y) = sround (F x * F y) (2 ^ 1074).
Proof.
  intros. unfold F. rewrite mul_spec.
  apply SFmul_val; auto using Prim2SF_valid.
Qed.

Lemma div_F (x y : float) :
  fin x = true -> fin y = true -> 0 < F y ->
  F (x / y) = sround (F x * 2 ^ 1074) (F y).
Proof.
  intros. unfold F. rewrite div_spec.
  apply SFdiv_val; auto using Prim2SF_valid.
Qed.

Lemma add_F (x y : float) :
  fin x = true -> fin y = true ->
  F (x + y) = sround (F x + F y) 1.
Proof.
  intros. unfold F. rewrite add_spec.
  apply SFadd_val; auto using Prim2SF_valid.
Qed.

Lemma sub_F (x y : float) :
  fin x = true -> fin y = true ->
  F (x - y) = sround (F x - F y) 1.
Proof.
  intros. unfold F. rewrite sub_spec.
  apply SFsub_val; auto using Prim2SF_valid.
Qed.

Lemma mul_fin (x y : float) :
  fin (x * y) = true -> fin x = true /\ fin y = true.
Proof. unfold fin. rewrite mul_spec. apply SFmul_finite_inv. Qed.

Lemma add_fin (x y : float) :
  fin (x + y) = true -> fin x = true /\ fin y = true.
Proof. unfold fin. rewrite add_spec. apply SFadd_finite_inv. Qed.

Lemma sub_fin (x y : float) :
  fin (x - y) = true -> fin x = true /\ fin y = true.
Proof. unfold fin. rewrite sub_spec. apply SFsub_finite_inv. Qed.

Lemma div_fin (x y : float) : fin (x / y) = true -> fin x = true.
Proof. unfold fin. rewrite div_spec. apply SFdiv_finite_inv. Qed.

Lemma F_exact (x : float) : fin x = true -> sround (F x) 1 = F x.
Proof. intros. apply Fval_exact; auto using Prim2SF_valid. Qed.

(** *** [round] on values *)

Lemma round_half_even_shift_eq (m k : Z) :
  0 <= k -> Py.round_half_even_shift m k = rhe m (2 ^ k).
Proof.
  intros Hk. unfold Py.round_half_even_shift, rhe, PyStr.round_half_even_div.
  assert (0 < 2 ^ k) by (apply pow2_pos; lia).
  rewrite Z.shiftr_div_pow2, Z.shiftl_mul_pow2, Z.shiftl_1_l by lia.
  replace (m - m / 2 ^ k * 2 ^ k) with (m mod 2 ^ k)
    by (rewrite Z.mod_eq by lia; ring).
  reflexivity.
Qed.

Lemma round_mantissa_eq (m : positive) (e : Z) :
  -1074 <= e ->
  Py.round_mantissa m e = rhe (Zpos m * 2 ^ (e + 1074)) (2 ^ 1074).
Proof.
  intros He. unfold Py.round_mantissa.
  destruct e as [|p|p].
  - rewrite Z.shiftl_mul_pow2 by lia. change (2 ^ 0) with 1.
    rewrite Z.mul_1_r, Z.add_0_l, Z.mul_comm. symmetry. apply rhe_exact.
    reflexivity.
  - rewrite Z.shiftl_mul_pow2 by lia.
    rewrite (pow2_add (Zpos p) 1074) by lia.
    replace (Zpos m * (2 ^ Zpos p * 2 ^ 1074))
      with (2 ^ 1074 * (Zpos m * 2 ^ Zpos p)) by ring.
    symmetry. apply rhe_exact. reflexivity.
  - rewrite round_half_even_shift_eq by lia.
    assert (0 < 2 ^ (Zneg p + 1074)) by (apply pow2_pos; lia).
    assert (0 < 2 ^ Zpos p) by (apply pow2_pos; lia).
    replace (2 ^ 1074) with (2 ^ (Zneg p + 1074) * 2 ^ Zpos p).
    + rewrite (Z.mul_comm (Zpos m)). symmetry. apply rhe_scale; assumption.
    + rewrite <- pow2_add by lia. f_equal. lia.
Qed.

Lemma round_units_opp (z : Z) : round_units (- z) = - round_units z.
Proof.
  unfold round_units.
  destruct (Z.ltb_spec (- z) 0), (Z.ltb_spec z 0); try lia.
  - rewrite Z.opp_involutive. reflexivity.
  - assert (z = 0) by lia. subst z. reflexivity.
Qed.

(** [round] returns exactly on the finite floats, with the nearest
    integer to the value. *)
Theorem round_F (x : float) :
  Py.round x = if fin x then Ok (round_units (F x))
               else match Prim2SF x with
                    | S754_nan => Raise ValueError
                    | _ => Raise OverflowError
                    end.
Proof.
  unfold Py.round, fin, F. pose proof (Prim2SF_valid x) as V.
  destruct (Prim2SF x) as [s|s| |s m e]; cbn [finite_or_zero Fval];
    try reflexivity.
  pose proof (Fval_finite_bounds _ _ _ V) as B.
  apply valid_finite in V. destruct V as (He & _).
  f_equal. rewrite round_mantissa_eq by lia.
  destruct s; cbn [cond_Zopp].
  - rewrite round_units_opp. f_equal. unfold round_units.
    destruct (Z.ltb_spec (Zpos m * 2 ^ (e + 1074)) 0); [lia|reflexivity].
  - unfold round_units.
    destruct (Z.ltb_spec (Zpos m * 2 ^ (e + 1074)) 0); [lia|reflexivity].
Qed.

Lemma round_units_mono (z1 z2 : Z) :
  z1 <= z2 -> round_units z1 <= round_units z2.
Proof.
  intros H. unfold round_units.
  assert (P : 0 < 2 ^ 1074) by reflexivity. hide (2 ^ 1074).
  destruct (Z.ltb_spec z1 0), (Z.ltb_spec z2 0).
  - apply Z.opp_le_mono. rewrite !Z.opp_involutive. apply rhe_mono; nia.
  - pose proof (rhe_nonneg (- z1) _ P).
    pose proof (rhe_nonneg z2 _ P). lia.
  - lia.
  - apply rhe_mono; nia.
Qed.

(** *** Weights, conversions, the divisor *)

Lemma ru_exact' (m j : Z) :
  0 <= m <= 2 ^ 53 -> 0 <= j -> ru (m * 2 ^ j) 1 = m * 2 ^ j.
Proof.
  intros Hm Hj. destruct (Z.eq_dec m (2 ^ 53)) as [->|].
  - replace (2 ^ 53 * 2 ^ j) with (2 ^ 52 * 2 ^ (j + 1)).
    + apply ru_exact; [split; [lia|reflexivity]|lia].
    + rewrite (pow2_add j 1) by lia. change (2 ^ 53) with (2 ^ 52 * 2).
      change (2 ^ 1) with 2. ring.
  - apply ru_exact; lia.
Qed.

Lemma ru_shape (r : Z) :
  0 < r ->
  let n := Z.max 0 (Zdigits2 r - 53) in
  ru r 1 = rhe r (2 ^ n) * 2 ^ n /\ 0 <= rhe r (2 ^ n) <= 2 ^ 53 /\
  rhe r (2 ^ n) * 2 ^ n <= 2 * r.
Proof.
  intros Hr n. unfold ru. rewrite Z.div_1_r, Z.mul_1_l. fold n.
  assert (Hn : 0 <= n) by (unfold n; lia).
  assert (Pn : 0 < 2 ^ n) by (apply pow2_pos; lia).
  destruct (Zdigits2_bounds r Hr) as [L U].
  pose proof (Zdigits2_nonneg r) as Hd.
  assert (0 < Zdigits2 r).
  { destruct (Z.eq_dec (Zdigits2 r) 0) as [E|]; [|lia].
    rewrite E in U. cbn in U. lia. }
  split; [reflexivity|].
  destruct (Z.eq_dec n 0) as [E0|E0].
  - rewrite E0. change (2 ^ 0) with 1.
    assert (E1 : rhe r 1 = r).
    { rewrite <- (Z.mul_1_l r) at 1. apply rhe_exact. lia. }
    rewrite E1.
    assert (2 ^ Zdigits2 r <= 2 ^ 53) by (apply pow2_le; unfold n in E0; lia).
    lia.
  - assert (En : Zdigits2 r = 53 + n) by (unfold n in *; lia).
    rewrite En in U. rewrite pow2_add in U by lia.
    assert (M1 : rhe r (2 ^ n) <= 2 ^ 53) by (apply rhe_le; lia).
    assert (M0 : 0 <= rhe r (2 ^ n)) by (apply rhe_nonneg; lia).
    split; [lia|].
    replace (Zdigits2 r - 1) with (52 + n) in L by lia.
    rewrite pow2_add in L by lia.
    change (2 ^ 53) with (2 * 2 ^ 52) in M1. nia.
Qed.

(** Half of a rounded value, rounded again, does not exceed the value
    that was rounded. *)
Lemma ru_half_le (r : Z) : 0 < r -> ru (ru r 1) 2 <= r.
Proof.
  intros Hr. destruct (ru_shape r Hr) as (E & (M0 & M1) & H2).
  set (n := Z.max 0 (Zdigits2 r - 53)) in *.
  set (M := rhe r (2 ^ n)) in *.
  destruct (Z.eq_dec n 0) as [E0|E0].
  - assert (Er : ru r 1 = r).
    { rewrite E, E0. change (2 ^ 0) with 1. unfold M. rewrite E0.
      change (2 ^ 0) with 1. rewrite Z.mul_1_r.
      rewrite <- (Z.mul_1_l r) at 1. apply rhe_exact. lia. }
    rewrite Er. rewrite <- Er at 2. apply ru_mono; lia.
  - assert (Hn : 1 <= n) by (unfold n in *; lia).
    rewrite E.
    replace (M * 2 ^ n) with (2 * (M * 2 ^ (n - 1))).
    + assert (0 < 2 ^ (n - 1)) by (apply pow2_pos; lia).
      change (ru (2 * (M * 2 ^ (n - 1))) 2)
        with (ru (2 * (M * 2 ^ (n - 1))) (2 * 1)).
      rewrite ru_scale by nia.
      rewrite ru_exact' by lia.
      replace n with (1 + (n - 1)) in H2 by lia.
      rewrite pow2_add in H2 by lia. change (2 ^ 1) with 2 in H2. lia.
    + replace n with (1 + (n - 1)) at 2 by lia.
      rewrite pow2_add by lia. change (2 ^ 1) with 2. ring.
Qed.

Lemma fin_bound (x : float) : fin x = true -> - 2 ^ 2098 < F x < 2 ^ 2098.
Proof.
  unfold fin, F. pose proof (Prim2SF_valid x) as V.
  destruct (Prim2SF x) as [s|s| |s m e]; try discriminate; intros _.
  - cbn. split; reflexivity.
  - pose proof (Fval_finite_bounds _ _ _ V). cbn [Fval].
    hide (2 ^ 2098). destruct s; cbn [cond_Zopp]; lia.
Qed.

Lemma sround_pos (z b : Z) : 0 <= z -> 0 < b -> sround z b = clamp (ru z b).
Proof.
  intros. unfold sround. destruct (Z.ltb_spec z 0); [lia|reflexivity].
Qed.

Lemma clamp_le (a : Z) : clamp a <= a.
Proof. unfold clamp. hide (2 ^ 2098). lia. Qed.

Lemma clamp_eq_of_lt (a : Z) : clamp a < 2 ^ 2098 -> clamp a = a.
Proof. unfold clamp. hide (2 ^ 2098). lia. Qed.

(** *** The adjusted weight never exceeds the actual weight *)

Lemma F_04 : F 0.4 = 7205759403792794 * 2 ^ 1020 /\ fin 0.4 = true.
Proof. split; vm_compute; reflexivity. Qed.

Theorem abw_le_weight (w i : float) :
  (i <? w)%float = true ->
  fin (i + 0.4 * (w - i))%float = true ->
  F (i + 0.4 * (w - i))%float <= F w.
Proof.
  intros Hlt Hfin.
  apply add_fin in Hfin. destruct Hfin as [Fi Ft].
  pose proof Ft as Ft'. apply mul_fin in Ft'. destruct Ft' as [F4 Fd].
  pose proof Fd as Fd'. apply sub_fin in Fd'. destruct Fd' as [Fw _].
  rewrite ltb_F in Hlt by (apply fin_not_nan; assumption).
  apply Z.ltb_lt in Hlt.
  set (r := F w - F i). assert (Hr : 0 < r) by (unfold r; lia).
  (* d = w - i *)
  assert (Ed : F (w - i)%float = ru r 1).
  { rewrite sub_F by assumption. fold r. rewrite sround_pos by lia.
    apply clamp_eq_of_lt.
    pose proof (fin_bound _ Fd) as B. rewrite sub_F in B by assumption.
    fold r in B. rewrite sround_pos in B by lia. exact (proj2 B). }
  assert (Hu : 0 <= ru r 1) by (apply ru_nonneg; lia).
  (* t = 0.4 * d *)
  assert (Et : F (0.4 * (w - i))%float <= r).
  { rewrite mul_F by assumption. rewrite Ed.
    destruct F_04 as [E4 _]. rewrite E4.
    transitivity (sround (ru r 1) 2).
    - apply sround_mono; [reflexivity|lia|].
      assert (7205759403792794 * 2 ^ 1020 * 2 <= 2 ^ 1074)
        by (vm_compute; discriminate).
      hide (2 ^ 1074). hide (7205759403792794 * 2 ^ 1020). nia.
    - rewrite sround_pos by lia.
      pose proof (clamp_le (ru (ru r 1) 2)). pose proof (ru_half_le r Hr). lia. }
  rewrite add_F by assumption.
  rewrite <- (F_exact w Fw). apply sround_mono; lia.
Qed.

(** *** Conversions from [int] *)

Lemma float_of_int_F (n : Z) (a : float) :
  Py.float_of_int n = Ok a ->
  Prim2SF a = binary_normalize prec emax n 0 false /\
  F a = sround (n * 2 ^ 1074) 1 /\ fin a = true.
Proof.
  unfold Py.float_of_int.
  destruct (binary_normalize_val n 0) as (V & N & W); [lia|].
  cbv zeta in V, N, W. change (0 + 1074) with 1074 in V.
  set (bn := binary_normalize prec emax n 0 false) in *.
  intros H.
  assert (Hf : finite_or_zero bn = true /\ a = SF2Prim bn).
  { destruct bn; try discriminate; injection H as <-; split; reflexivity. }
  destruct Hf as [Hf ->]. unfold F, fin.
  rewrite Prim2SF_SF2Prim by assumption. auto.
Qed.

Lemma float_of_int_returns (n : Z) :
  - 2 ^ 2098 < sround (n * 2 ^ 1074) 1 < 2 ^ 2098 ->
  exists a, Py.float_of_int n = Ok a.
Proof.
  intros B. unfold Py.float_of_int.
  destruct (binary_normalize_val n 0) as (V & N & W); [lia|].
  cbv zeta in V, N, W. change (0 + 1074) with 1074 in V.
  destruct (binary_normalize prec emax n 0 false) as [s|s| |s m e];
    try discriminate; eauto.
  exfalso. cbn [Fval] in V. rewrite <- V in B.
  hide (2 ^ 2098). destruct s; cbn [cond_Zopp] in B; lia.
Qed.

(** *** The divisor [72 * serum_creatinine] *)

Lemma eqb_zero_F' (x : float) :
  not_nan (Prim2SF x) = true -> (x =? 0)%float = (F x =? 0).
Proof.
  intros H. rewrite FloatAxioms.eqb_spec. unfold SFeqb, Z.eqb.
  rewrite SFcompare_Fval; auto using Prim2SF_valid.
  change (Fval (Prim2SF 0)) with 0. fold (F x).
  destruct (F x ?= 0) eqn:E; destruct (F x); try reflexivity; discriminate.
Qed.

Lemma positive_cases (c : float) :
  (0 <? c)%float = true ->
  (fin c = true /\ 0 < F c) \/ Prim2SF c = S754_infinity false.
Proof.
  intros H. pose proof (ltb_not_nan _ _ H) as [_ N].
  rewrite ltb_F in H by (auto; reflexivity).
  change (F 0) with 0 in H. apply Z.ltb_lt in H.
  unfold fin, F in *.
  destruct (Prim2SF c) as [s|s| |s m e]; try discriminate; cbn [finite_or_zero].
  - right. destruct s; [exfalso|reflexivity].
    cbn [Fval cond_Zopp] in H. assert (0 < 2 ^ 2098) by reflexivity. lia.
  - left. auto.
Qed.

Lemma ru_ge_1 (a b : Z) : 0 < b -> b <= a -> 1 <= ru a b.
Proof.
  intros Hb H. assert (E : ru 1 1 = 1) by reflexivity.
  rewrite <- E. apply ru_mono; lia.
Qed.

Theorem mul_72_positive (c : float) :
  (0 <? c)%float = true ->
  (fin (72 * c)%float = true /\ 0 < F (72 * c)%float) \/
  Prim2SF (72 * c)%float = S754_infinity false.
Proof.
  intros H. destruct (positive_cases c H) as [[Fc Pc]|Ic].
  - assert (F72 : fin 72 = true) by reflexivity.
    assert (V72 : F 72 = 72 * 2 ^ 1074) by (vm_compute; reflexivity).
    pose proof (mul_F 72 c F72 Fc) as E. rewrite V72 in E.
    assert (P : 0 < 2 ^ 1074) by reflexivity. hide (2 ^ 1074).
    rewrite sround_pos in E by nia.
    match type of E with _ = clamp (ru ?a ?b) =>
      assert (1 <= ru a b) by (apply ru_ge_1; nia) end.
    assert (Hpos : 0 < F (72 * c)%float).
    { rewrite E. unfold clamp. assert (0 < 2 ^ 2098) by reflexivity.
      hide (2 ^ 2098). lia. }
    destruct (SFmul_val (Prim2SF 72) (Prim2SF c)) as [_ N];
      auto using Prim2SF_valid.
    rewrite <- mul_spec in N.
    unfold fin, F in *.
    destruct (Prim2SF (72 * c)%float) as [s|s| |s m e]; try discriminate.
    + right. destruct s; [exfalso|reflexivity].
      cbn [Fval cond_Zopp] in Hpos.
      assert (0 < 2 ^ 2098) by reflexivity. hide (2 ^ 2098). lia.
    + left. auto.
  - right. rewrite mul_spec, Ic. reflexivity.
Qed.

Corollary mul_72_nonzero (c : float) :
  (0 <? c)%float = true -> ((72 * c) =? 0)%float = false.
Proof.
  intros H. destruct (mul_72_positive c H) as [[Fc Pc]|Ic].
  - rewrite eqb_zero_F' by (apply fin_not_nan; assumption).
    apply Z.eqb_neq. lia.
  - rewrite FloatAxioms.eqb_spec, Ic. reflexivity.
Qed.

(** *** Monotone clearances, rounded ints as text *)

Lemma div_by_infinity (p d : float) :
  fin p = true -> Prim2SF d = S754_infinity false -> F (p / d)%float = 0.
Proof.
  unfold fin, F. intros Hp Hd. rewrite div_spec, Hd.
  destruct (Prim2SF p); try discriminate; reflexivity.
Qed.

(** The Cockcroft-Gault expression is monotone in its weight term when
    [140 - age], the sex factor and the divisor are not negative. *)
Theorem clearance_mono (a x y f d : float) :
  0 <= F a -> 0 <= F f ->
  (fin d = true /\ 0 < F d) \/ Prim2SF d = S754_infinity false ->
  F x <= F y ->
  fin (a * x * f / d)%float = true ->
  fin (a * y * f / d)%float = true ->
  F (a * x * f / d)%float <= F (a * y * f / d)%float.
Proof.
  intros Ha Hf Hd Hxy Fx Fy.
  pose proof (div_fin _ _ Fx) as Px. pose proof (div_fin _ _ Fy) as Py.
  destruct (mul_fin _ _ Px) as [Qx Ff]. destruct (mul_fin _ _ Py) as [Qy _].
  destruct (mul_fin _ _ Qx) as [Fa Hx]. destruct (mul_fin _ _ Qy) as [_ Hy].
  assert (P : 0 < 2 ^ 1074) by reflexivity.
  assert (S1 : F (a * x)%float <= F (a * y)%float).
  { rewrite !mul_F by assumption. hide (2 ^ 1074).
    assert (F a * F x <= F a * F y) by nia. apply sround_mono; nia. }
  assert (S2 : F (a * x * f)%float <= F (a * y * f)%float).
  { rewrite (mul_F (a * x)), (mul_F (a * y)) by assumption.
    hide (2 ^ 1074).
    assert (F (a * x)%float * F f <= F (a * y)%float * F f) by nia.
    apply sround_mono; nia. }
  destruct Hd as [[Fd Pd]|Id].
  - rewrite !div_F by assumption.
    pose proof (Z.mul_le_mono_nonneg_r _ _ _ (Z.lt_le_incl _ _ P) S2).
    hide (2 ^ 1074). apply sround_mono; nia.
  - rewrite !div_by_infinity by assumption. lia.
Qed.

(** *** A rounded float converts back to a float exactly *)

Lemma round_units_repr (x : float) :
  fin x = true ->
  exists m j, 0 <= m < 2 ^ 53 /\ 0 <= j /\
    Z.abs (round_units (F x)) * 2 ^ 1074 = m * 2 ^ j /\ m * 2 ^ j < 2 ^ 2098.
Proof.
  unfold fin, F. pose proof (Prim2SF_valid x) as V.
  destruct (Prim2SF x) as [s|s| |s m e]; try discriminate; intros _.
  - exists 0, 0. cbn. repeat split; try lia; reflexivity.
  - destruct (Fval_finite_bounds _ _ _ V) as [B0 B1].
    apply valid_finite in V. destruct V as (He & Hm & _).
    set (X := Zpos m * 2 ^ (e + 1074)) in *.
    assert (P : 0 < 2 ^ 1074) by reflexivity.
    pose proof (rhe_nonneg X (2 ^ 1074) P) as R0.
    assert (Ea : Z.abs (round_units (Fval (S754_finite s m e)))
                 = rhe X (2 ^ 1074)).
    { cbn [Fval]. fold X. clear B1.
      destruct s; cbn [cond_Zopp]; [rewrite round_units_opp|];
        unfold round_units; hide (2 ^ 1074);
        destruct (Z.ltb_spec X 0); lia. }
    rewrite Ea. clear Ea.
    destruct (Z.le_gt_cases 0 e) as [Hp|Hn].
    + exists (Zpos m), (e + 1074).
      split; [clear - Hm; lia|]. split; [clear - He; lia|].
      split; [|exact B1].
      unfold X. rewrite (pow2_add e 1074) by (clear - Hp; lia).
      replace (Zpos m * (2 ^ e * 2 ^ 1074)) with (2 ^ 1074 * (Zpos m * 2 ^ e))
        by (hide (2 ^ 1074); ring).
      rewrite rhe_exact by assumption. hide (2 ^ 1074). ring.
    + exists (rhe X (2 ^ 1074)), 1074.
      assert (U : rhe X (2 ^ 1074) <= 2 ^ 52).
      { apply rhe_le; [assumption|]. unfold X. clear B0 B1 R0 X.
        assert (2 ^ (e + 1074) <= 2 ^ 1073) by (apply pow2_le; clear P; lia).
        assert (0 < 2 ^ (e + 1074)) by (apply pow2_pos; clear P; lia).
        change (2 ^ 1074) with (2 * 2 ^ 1073). clear P.
        change (2 ^ 53) with (2 * 2 ^ 52) in Hm. hide (2 ^ 1073). nia. }
      assert (2 ^ 52 < 2 ^ 53) by reflexivity.
      assert (2 ^ 52 < 2 ^ 1024) by reflexivity.
      assert (0 < 2 ^ 1024) by reflexivity.
      change (2 ^ 2098) with (2 ^ 1024 * 2 ^ 1074). clear B0 B1.
      hide (2 ^ 1074). hide (2 ^ 1024).
      repeat split; try lia; nia.
Qed.

Lemma round_units_exact (x : float) :
  fin x = true ->
  let z := round_units (F x) * 2 ^ 1074 in
  sround z 1 = z /\ - 2 ^ 2098 < z < 2 ^ 2098.
Proof.
  intros Hx z. destruct (round_units_repr x Hx) as (m & j & Hm & Hj & E & B).
  assert (Pj : 0 < 2 ^ j) by (apply pow2_pos; lia).
  assert (P : 0 < 2 ^ 1074) by reflexivity.
  set (n := round_units (F x)) in *.
  destruct (Z.le_gt_cases 0 n) as [Hn|Hn].
  - rewrite Z.abs_eq in E by assumption. unfold z. rewrite E.
    split; [apply sround_exact_pos; assumption|].
    clear E P z. hide (2 ^ 2098). nia.
  - rewrite Z.abs_neq in E by (clear - Hn; lia). unfold z.
    replace (n * 2 ^ 1074) with (- (m * 2 ^ j))
      by (clear - E; hide (2 ^ 1074); lia).
    rewrite sround_opp by reflexivity.
    rewrite sround_exact_pos by assumption.
    split; [reflexivity|].
    clear E P z. hide (2 ^ 2098). nia.
Qed.

Lemma str_int_neg (p : positive) :
  PyStr.str_int (Zneg p) = ("-" ++ PyStr.str_int (Zpos p))%string.
Proof. reflexivity. Qed.

(** An [int] obtained by [round] converts to a float without loss, and
    [.1f] shows it as its decimal digits followed by [.0]. *)
Theorem format_rounded (x : float) (n : Z) :
  Py.round x = Ok n ->
  PyStr.format_int_1f n = Ok (PyStr.str_int n ++ ".0")%string.
Proof.
  rewrite round_F. destruct (fin x) eqn:Hx;
    [|destruct (Prim2SF x); discriminate].
  intros H. injection H as <-.
  destruct (round_units_exact x Hx) as [Ex Bx]. cbv zeta in Ex, Bx.
  set (n := round_units (F x)) in *.
  destruct (float_of_int_returns n) as [f Ef]; [rewrite Ex; exact Bx|].
  unfold PyStr.format_int_1f. rewrite Ef. cbn [bind]. f_equal.
  destruct (float_of_int_F n f Ef) as (Eb & EF & Ff).
  rewrite Ex in EF. unfold PyStr.format_1f.
  pose proof (Prim2SF_valid f) as V. unfold F, fin in EF, Ff.
  destruct (Prim2SF f) as [s|s| |s m e] eqn:Ep; try discriminate.
  - (* zero: only for n = 0 *)
    assert (n = 0).
    { cbn [Fval] in EF. assert (0 < 2 ^ 1074) by reflexivity.
      clear - EF H. hide (2 ^ 1074). nia. }
    rewrite H in Eb. cbn in Eb. injection Eb as ->. rewrite H. reflexivity.
  - apply valid_finite in V. destruct V as (He & Hm & _).
    cbn [Fval] in EF. clear Ex Bx.
    assert (P : 0 < 2 ^ 1074) by reflexivity.
    assert (Pe : 0 < 2 ^ (e + 1074)) by (apply pow2_pos; lia).
    (* the mantissa stands for |n| *)
    assert (EA : Zpos m * 2 ^ Z.max e 0 = Z.abs n * 2 ^ Z.max (- e) 0 /\
                 (s = true /\ n < 0 \/ s = false /\ 0 < n)).
    { assert (EA' : Zpos m * 2 ^ (e + 1074) = Z.abs n * 2 ^ 1074 /\
                    (s = true /\ n < 0 \/ s = false /\ 0 < n)).
      { clear - EF P Pe. hide (2 ^ 1074).
        assert (0 < Zpos m * 2 ^ (e + 1074)) by lia.
        destruct s; cbn [cond_Zopp] in EF.
        - assert (n < 0) by nia.
          split; [rewrite Z.abs_neq by lia; lia|left; split; [reflexivity|lia]].
        - assert (0 < n) by nia.
          split; [rewrite Z.abs_eq by lia; lia|right; split; [reflexivity|lia]]. }
      destruct EA' as [EA' Hs]. split; [|exact Hs].
      clear EF Hs.
      destruct (Z.le_gt_cases 0 e) as [Hp|Hn].
      - replace (Z.max e 0) with e by (clear - Hp; lia).
        replace (Z.max (- e) 0) with 0 by (clear - Hp; lia).
        rewrite (pow2_add e 1074) in EA' by (clear - Hp; lia).
        change (2 ^ 0) with 1. clear Pe. hide (2 ^ 1074). nia.
      - replace (Z.max e 0) with 0 by (clear - Hn; lia).
        replace (Z.max (- e) 0) with (- e) by (clear - Hn; lia).
        change (2 ^ 0) with 1. rewrite Z.mul_1_r.
        replace (2 ^ 1074) with (2 ^ (- e) * 2 ^ (e + 1074)) in EA'
          by (rewrite <- pow2_add by (clear - He Hn; lia); f_equal;
              clear; lia).
        clear P. nia. }
    destruct EA as [EA Hs]. clear EF P Pe.
    unfold PyStr.scaled.
    change (10 ^ Z.max (- -1) 0) with 10. change (10 ^ Z.max (-1) 0) with 1.
    rewrite EA, Z.mul_1_r.
    assert (PD : 0 < 2 ^ Z.max (- e) 0) by (apply pow2_pos; lia).
    replace (Z.abs n * 2 ^ Z.max (- e) 0 * 10)
      with (2 ^ Z.max (- e) 0 * (Z.abs n * 10)) by ring.
    fold (rhe (2 ^ Z.max (- e) 0 * (Z.abs n * 10)) (2 ^ Z.max (- e) 0)).
    rewrite rhe_exact by assumption.
    rewrite Z.div_mul by lia. rewrite Z.mod_mul by lia.
    change (PyStr.str_int 0) with "0"%string.
    destruct Hs as [[-> Hn]|[-> Hn]].
    + destruct n as [|p|p]; try lia. rewrite str_int_neg. reflexivity.
    + destruct n as [|p|p]; try lia. reflexivity.
Qed.

(** *** [round] with one and two arguments *)

Lemma rhe_nearest (a b : Z) : 0 < b -> nearest_even a b (rhe a b).
Proof.
  intros Hb. destruct (rhe_spec a b Hb) as ((L & U) & T1 & T2).
  unfold nearest_even. split; [lia|].
  intros H. destruct (Z.le_gt_cases (rhe a b * b) a).
  - apply T2. lia.
  - apply T1. lia.
Qed.

Lemma round_units_nearest (z : Z) :
  nearest_even z (2 ^ 1074) (round_units z).
Proof.
  assert (P : 0 < 2 ^ 1074) by reflexivity. unfold round_units.
  destruct (Z.ltb_spec z 0).
  - destruct (rhe_nearest (- z) (2 ^ 1074) P) as [A B].
    unfold nearest_even. rewrite Z.even_opp.
    replace (- rhe (- z) (2 ^ 1074) * 2 ^ 1074 - z)
      with (- (rhe (- z) (2 ^ 1074) * 2 ^ 1074 - - z)) by ring.
    rewrite Z.abs_opp. split; assumption.
  - apply rhe_nearest. assumption.
Qed.

Lemma rhe_eq (a1 b1 a2 b2 : Z) :
  0 < b1 -> 0 < b2 -> a1 * b2 = a2 * b1 -> rhe a1 b1 = rhe a2 b2.
Proof. intros. apply Z.le_antisymm; apply rhe_mono; lia. Qed.

Lemma nearest_double_val (s : bool) (t d : positive) :
  Fval (PyStr.nearest_double s t d) =
    cond_Zopp s (clamp (ru (Zpos t * 2 ^ 1074) (Zpos d))) /\
  valid_binary (PyStr.nearest_double s t d) = true.
Proof.
  unfold PyStr.nearest_double.
  pose proof (div_core_val s t d 0 0) as H.
  destruct (SFdiv_core_binary prec emax (Zpos t) 0 (Zpos d) 0) as [[q e] l].
  destruct H as (V & _ & W); [lia|lia|]. split; [|exact W].
  rewrite V. do 2 f_equal. change (0 + 1074) with 1074.
  assert (P : 0 < 2 ^ 1074) by reflexivity.
  replace (Zpos t * 2 ^ 1074 * 2 ^ 1074) with (2 ^ 1074 * (Zpos t * 2 ^ 1074)) by ring.
  rewrite (Z.mul_comm (Zpos d)). apply ru_scale; lia.
Qed.

(** [round(x, 1)] in values: the double nearest to [t / 10], where [t]
    is the number of tenths nearest to [x]. *)
Theorem round_1_F (x : float) :
  fin x = true ->
  F (round_1 x) =
    cond_Zopp (F x <? 0) (clamp (ru (tenths (F x) * 2 ^ 1074) 10)) /\
  nearest_even (10 * Z.abs (F x)) (2 ^ 1074) (tenths (F x)).
Proof.
  intros Hx. assert (P : 0 < 2 ^ 1074) by reflexivity.
  split; [|apply rhe_nearest; assumption].
  unfold round_1, F, fin in *. pose proof (Prim2SF_valid x) as V.
  destruct (Prim2SF x) as [s|s| |s m e] eqn:Ex; try discriminate.
  - rewrite Ex. reflexivity.
  - destruct (Fval_finite_sign _ _ _ V) as [Hs _]. rewrite Hs.
    pose proof (Fval_finite_bounds _ _ _ V) as B.
    apply valid_finite in V. destruct V as (He & _).
    set (X := Zpos m * 2 ^ (e + 1074)) in *.
    assert (EX : Z.abs (Fval (S754_finite s m e)) = X).
    { cbn [Fval]. fold X. destruct s; cbn [cond_Zopp]; lia. }
    unfold tenths. rewrite EX.
    unfold PyStr.scaled.
    change (10 ^ Z.max (- -1) 0) with 10. change (10 ^ Z.max (-1) 0) with 1.
    rewrite Z.mul_1_r.
    assert (PD : 0 < 2 ^ Z.max (- e) 0) by (apply pow2_pos; lia).
    assert (Et : PyStr.round_half_even_div (Zpos m * 2 ^ Z.max e 0 * 10)
                   (2 ^ Z.max (- e) 0) = rhe (10 * X) (2 ^ 1074)).
    { apply rhe_eq; try assumption. unfold X.
      destruct (Z.le_gt_cases 0 e).
      - replace (Z.max e 0) with e by lia. replace (Z.max (- e) 0) with 0 by lia.
        rewrite (pow2_add e 1074) by lia. change (2 ^ 0) with 1. ring.
      - replace (Z.max e 0) with 0 by lia.
        replace (Z.max (- e) 0) with (- e) by lia.
        change (2 ^ 0) with 1.
        replace (2 ^ 1074) with (2 ^ (- e) * 2 ^ (e + 1074))
          by (rewrite <- pow2_add by lia; f_equal; lia).
        ring. }
    rewrite Et.
    pose proof (rhe_nonneg (10 * X) (2 ^ 1074) P) as Ht.
    destruct (rhe (10 * X) (2 ^ 1074)) as [|t|t] eqn:E; try lia.
    + rewrite Prim2SF_SF2Prim by reflexivity.
      cbn [Fval]. rewrite Z.mul_0_l, ru_0 by lia. destruct s; reflexivity.
    + destruct (nearest_double_val s t 10) as [W1 W2].
      rewrite Prim2SF_SF2Prim by assumption. exact W1.
Qed.

End B64Facts.

(* ================================================================== *)
(** ** Running examples *)

Example scenario_1_output :
  calculate_crcl scenario_1 =
  Ok {| out_original_crcl :=
          "84 mL/min" ++ newline ++ "Creatinine clearance, original Cockcroft-Gault";
        out_modified_crcl :=
          "81 mL/min" ++ newline ++
          "Creatinine clearance modified for overweight patient, using adjusted body weight of 67.6 kg (148.9 lbs).";
        out_crcl_range := "79.0-81.0 mL/min mL/min" |}%string.
Proof. vm_compute. reflexivity. Qed.

Example scenario_2_output :
  calculate_crcl scenario_2 =
  Ok {| out_original_crcl :=
          "72 mL/min" ++ newline ++ "Creatinine clearance, original Cockcroft-Gault";
        out_modified_crcl :=
          "72 mL/min" ++ newline ++
          "Creatinine clearance modified for overweight patient, using adjusted body weight of 49.9 kg (110.0 lbs).";
        out_crcl_range := "72.0-79.0 mL/min mL/min" |}%string.
Proof. vm_compute. reflexivity. Qed.

(* ================================================================== *)
(** ** The formulas *)

(** C1: for a validated input the three unrounded clearances are one and
    the same Cockcroft-Gault expression in [140 - age], the sex factor
    and [72 * serum_creatinine], taken at the weight in kg, at the
    adjusted and at the ideal body weight; the sex factor is 0.85 for
    female and 1.0 for male. *)
Theorem C1_three_variants_share_formula (data : CrClFormInput) (l : Locals) :
  validated data = true ->
  crcl_locals data = Ok l ->
  exists a : float,
    Py.float_of_int (140 - data.(age)) = Ok a /\
    l.(sex_factor) = match data.(sex) with
                     | female => 0.85%float
                     | male => 1.0%float
                     end /\
    l.(original_crcl) =
      cockcroft_gault a l.(weight_in_kg) l.(sex_factor) data.(serum_creatinine) /\
    l.(modified_crcl) =
      cockcroft_gault a l.(abw) l.(sex_factor) data.(serum_creatinine) /\
    l.(crcl_using_ibw) =
      cockcroft_gault a l.(ibw) l.(sex_factor) data.(serum_creatinine).
Proof.
  intros _ H. apply crcl_locals_Ok in H.
  destruct H as (a & Ha & _ & _ & _ & _ & Hf & Ho & Hm & Hi).
  exists a. unfold cockcroft_gault. repeat split; auto.
  rewrite Hf. destruct (sex data); reflexivity.
Qed.

Lemma C1_witness :
  exists l a,
    crcl_locals scenario_1 = Ok l /\
    Py.float_of_int 95 = Ok a /\
    l.(original_crcl) = cockcroft_gault a 70 1 1.1 /\
    l.(original_crcl) = 83.964646464646464%float.
Proof.
  destruct (crcl_locals scenario_1) as [l|e] eqn:E;
    [|vm_compute in E; discriminate].
  destruct (C1_three_variants_share_formula scenario_1 l) as (a & Ha & Hf & Ho & _);
    [vm_compute; reflexivity | exact E |].
  exists l, a. vm_compute in E. injection E as <-.
  repeat split; auto.
Defined.

(** C2: unit conversion.  Imperial: the weight is multiplied by 0.453592
    and the height is kept; metric: the weight is kept and the height is
    divided by 2.54.  Dividing by 2.54 is observably not multiplying by
    the rounded inverse. *)
Theorem C2_unit_normalization :
  (forall data : CrClFormInput,
     convert_units data =
     Ok (match data.(unit_system) with
         | imperial => ((data.(weight) * 0.453592)%float, data.(height))
         | metric => (data.(weight), (data.(height) / 2.54)%float)
         end)) /\
  (forall (data : CrClFormInput) (l : Locals),
     crcl_locals data = Ok l ->
     convert_units data = Ok (l.(weight_in_kg), l.(height_in_inches))) /\
  ((170 / 2.54 =? 170 * (1 / 2.54)) = false)%float.
Proof.
  split; [exact convert_units_eq|]. split; [|reflexivity].
  intros data l H. apply crcl_locals_Ok in H.
  destruct H as (a & _ & _ & Hc & _). exact Hc.
Qed.

(** C3: the adjusted body weight is
    [ibw + 0.4 * (weight_in_kg - ibw)] when the weight in kg is above the
    ideal body weight, and the weight in kg itself otherwise. *)
Theorem C3_adjusted_body_weight :
  (forall w i : float,
     adjusted_body_weight w i =
     if (i <? w)%float then (i + 0.4 * (w - i))%float else w) /\
  (forall (data : CrClFormInput) (l : Locals),
     crcl_locals data = Ok l ->
     l.(abw) = if (l.(ibw) <? l.(weight_in_kg))%float
               then (l.(ibw) + 0.4 * (l.(weight_in_kg) - l.(ibw)))%float
               else l.(weight_in_kg)).
Proof.
  split; [reflexivity|].
  intros data l H. apply crcl_locals_Ok in H.
  destruct H as (a & _ & _ & _ & _ & Hb & _). exact Hb.
Qed.

(** C4: the ideal body weight is [50 + 2.3 * (height_in - 60)] for male
    and [45.5 + 2.3 * (height_in - 60)] for female, with no bound
    applied: the calculation uses it as computed, and for the validated
    input [short_stature] it is negative and so is the clearance built
    on it. *)
Theorem C4_ideal_body_weight :
  (forall (h : float) (s : Sex),
     calculate_ibw h s =
     match s with
     | male => (50 + 2.3 * (h - 60))%float
     | female => (45.5 + 2.3 * (h - 60))%float
     end) /\
  (forall (data : CrClFormInput) (l : Locals),
     crcl_locals data = Ok l ->
     l.(ibw) = calculate_ibw l.(height_in_inches) data.(sex)) /\
  (exists (l : Locals) (r : Rounded),
     validated short_stature = true /\
     crcl_locals short_stature = Ok l /\
     round_locals l = Ok r /\
     (l.(ibw) <? 0)%float = true /\
     l.(ibw) = (-42.724409448818889)%float /\
     r.(crcl_using_ibw_int) = -51 /\
     option_map out_crcl_range
       (match calculate_crcl short_stature with Ok o => Some o | Raise _ => None end)
     = Some "-51.0-3.0 mL/min mL/min"%string).
Proof.
  split; [intros h []; reflexivity|]. split.
  - intros data l H. apply crcl_locals_Ok in H.
    destruct H as (a & _ & _ & _ & Hi & _). exact Hi.
  - destruct (crcl_locals short_stature) as [l|e] eqn:E;
      [|vm_compute in E; discriminate].
    destruct (round_locals l) as [r|e] eqn:R;
      [|vm_compute in E; injection E as <-; vm_compute in R; discriminate].
    exists l, r. vm_compute in E. injection E as <-.
    vm_compute in R. injection R as <-.
    repeat split; vm_compute; reflexivity.
Qed.

(* ================================================================== *)
(** ** Independence from the weight *)

(** C7: two inputs that agree on unit system, height, sex, age and serum
    creatinine, whatever their weights, either both stop with the same
    exception before the clearances exist, or have the same ideal body
    weight, the same unrounded [crcl_using_ibw] and the same [round] of
    it. *)
Theorem C7_crcl_using_ibw_ignores_weight (d1 d2 : CrClFormInput) :
  d1.(unit_system) = d2.(unit_system) ->
  d1.(height) = d2.(height) ->
  d1.(sex) = d2.(sex) ->
  d1.(age) = d2.(age) ->
  d1.(serum_creatinine) = d2.(serum_creatinine) ->
  match crcl_locals d1, crcl_locals d2 with
  | Ok l1, Ok l2 =>
      l1.(ibw) = l2.(ibw) /\
      l1.(crcl_using_ibw) = l2.(crcl_using_ibw) /\
      Py.round l1.(crcl_using_ibw) = Py.round l2.(crcl_using_ibw)
  | Raise e1, Raise e2 => e1 = e2
  | _, _ => False
  end.
Proof.
  intros Hu Hh Hs Ha Hc. rewrite !crcl_locals_eq.
  rewrite <- Hu, <- Hh, <- Hs, <- Ha, <- Hc.
  destruct (Py.float_of_int (140 - age d1)) as [a|e]; [|reflexivity].
  destruct ((72 * serum_creatinine d1) =? 0)%float; [reflexivity|].
  cbv zeta. cbn [ibw crcl_using_ibw]. repeat split; reflexivity.
Qed.

Lemma C7_witness :
  weight scenario_1 <> weight scenario_1_heavier /\
  match crcl_locals scenario_1, crcl_locals scenario_1_heavier with
  | Ok l1, Ok l2 =>
      l1.(ibw) = l2.(ibw) /\
      l1.(crcl_using_ibw) = l2.(crcl_using_ibw) /\
      Py.round l1.(crcl_using_ibw) = Py.round l2.(crcl_using_ibw)
  | Raise e1, Raise e2 => e1 = e2
  | _, _ => False
  end.
Proof.
  split.
  - intros H. apply (f_equal (fun x => (x <? 80)%float)) in H.
    vm_compute in H. discriminate.
  - apply (C7_crcl_using_ibw_ignores_weight scenario_1 scenario_1_heavier);
      reflexivity.
Defined.

(* ================================================================== *)
(** ** The default unit system *)

(** C10: a form without [unit_system] is read as the same form with
    [unit_system = "metric"]; it is not rejected for the missing field,
    and the calculation then keeps the weight (kilograms) and divides the
    height by 2.54 (centimetres). *)
Theorem C10_unit_system_defaults_to_metric
    (w h c : float) (a : Z) (sx : string) :
  let f := {| form_unit_system := None; form_weight := Some w;
              form_height := Some h; form_age := Some a;
              form_serum_creatinine := Some c; form_sex := Some sx |} in
  let g := {| form_unit_system := Some "metric"%string; form_weight := Some w;
              form_height := Some h; form_age := Some a;
              form_serum_creatinine := Some c; form_sex := Some sx |} in
  parse_form f = parse_form g /\
  endpoint f = endpoint g /\
  (forall data : CrClFormInput,
     parse_form f = Ok data ->
     data.(unit_system) = metric /\
     convert_units data = Ok (w, (h / 2.54)%float)) /\
  ((0 <? w)%float = true -> (0 <? h)%float = true -> 18 <= a ->
   (0 <? c)%float = true -> (sx = "male" \/ sx = "female")%string ->
   exists s : Sex,
     parse_form f =
     Ok {| unit_system := metric; weight := w; height := h; age := a;
           serum_creatinine := c; sex := s |}).
Proof.
  cbv zeta. split; [reflexivity|]. split; [reflexivity|]. split.
  - intros data H. unfold parse_form in H.
    cbn [form_unit_system form_weight form_height form_age
         form_serum_creatinine form_sex with_default required bind] in H.
    change (parse_unit_system "metric") with (Ok metric) in H.
    cbn [bind] in H.
    destruct (0 <? w)%float; cbn [check bind] in H; [|discriminate].
    destruct (0 <? h)%float; cbn [check bind] in H; [|discriminate].
    destruct (18 <=? a); cbn [check bind] in H; [|discriminate].
    destruct (0 <? c)%float; cbn [check bind] in H; [|discriminate].
    destruct (parse_sex sx) as [s|e]; cbn [bind] in H; [|discriminate].
    injection H as <-. split; [reflexivity|].
    rewrite convert_units_eq. reflexivity.
  - intros Hw Hh Ha Hc Hs. unfold parse_form.
    cbn [form_unit_system form_weight form_height form_age
         form_serum_creatinine form_sex with_default required bind].
    change (parse_unit_system "metric") with (Ok metric).
    cbn [bind]. rewrite Hw, Hh, Hc.
    apply Z.leb_le in Ha. rewrite Ha. cbn [check bind].
    destruct Hs as [-> | ->].
    + exists male. reflexivity.
    + exists female. reflexivity.
Qed.

Lemma C10_witness :
  parse_form form_without_unit_system = Ok scenario_1 /\
  endpoint form_without_unit_system = calculate_crcl scenario_1 /\
  convert_units scenario_1 = Ok (70, 170 / 2.54)%float.
Proof.
  pose proof (C10_unit_system_defaults_to_metric 70 170 1.1 45 "male")
    as (_ & _ & H & _).
  split; [reflexivity|]. split; [reflexivity|].
  apply (H scenario_1). reflexivity.
Defined.

(* ================================================================== *)
(** ** The run after the clearances *)

Import B64 B64Facts.

Lemma leb_F (x y : float) :
  not_nan (Prim2SF x) = true -> not_nan (Prim2SF y) = true ->
  (x <=? y)%float = (F x <=? F y).
Proof.
  intros. rewrite FloatAxioms.leb_spec.
  apply SFleb_Fval; auto using Prim2SF_valid.
Qed.

Lemma leb_ltb_false (x y : float) :
  (x <=? y)%float = true -> (y <? x)%float = false.
Proof.
  intros H.
  assert (N : not_nan (Prim2SF x) = true /\ not_nan (Prim2SF y) = true).
  { rewrite FloatAxioms.leb_spec in H. unfold SFleb in H.
    destruct (Prim2SF x), (Prim2SF y); cbn in H; try discriminate; auto. }
  destruct N as [Nx Ny].
  rewrite leb_F in H by assumption. rewrite ltb_F by assumption.
  apply Z.leb_le in H. apply Z.ltb_ge. exact H.
Qed.

Lemma validated_fields (data : CrClFormInput) :
  validated data = true ->
  (0 <? data.(weight))%float = true /\
  (0 <? data.(height))%float = true /\
  18 <= data.(age) /\
  (0 <? data.(serum_creatinine))%float = true.
Proof.
  unfold validated. rewrite !andb_true_iff, Z.leb_le. tauto.
Qed.

(** [round_locals] returns exactly when the three clearances are
    finite. *)
Lemma round_locals_eq (l : Locals) :
  round_locals l =
  if clearances_finite l
  then Ok {| original_crcl_int := round_units (F l.(original_crcl));
             modified_crcl_int := round_units (F l.(modified_crcl));
             crcl_using_ibw_int := round_units (F l.(crcl_using_ibw)) |}
  else Raise (match round_locals l with
              | Raise e => e
              | Ok _ => OverflowError
              end).
Proof.
  unfold round_locals, clearances_finite. rewrite !round_F.
  destruct (fin (original_crcl l)); cbn [bind andb];
    [|destruct (Prim2SF (original_crcl l)); reflexivity].
  destruct (fin (modified_crcl l)); cbn [bind andb];
    [|destruct (Prim2SF (modified_crcl l)); reflexivity].
  destruct (fin (crcl_using_ibw l)); cbn [bind andb];
    [|destruct (Prim2SF (crcl_using_ibw l)); reflexivity].
  reflexivity.
Qed.

Lemma round_locals_Ok (l : Locals) (r : Rounded) :
  round_locals l = Ok r ->
  clearances_finite l = true /\
  Py.round l.(original_crcl) = Ok r.(original_crcl_int) /\
  Py.round l.(modified_crcl) = Ok r.(modified_crcl_int) /\
  Py.round l.(crcl_using_ibw) = Ok r.(crcl_using_ibw_int) /\
  r.(original_crcl_int) = round_units (F l.(original_crcl)) /\
  r.(modified_crcl_int) = round_units (F l.(modified_crcl)) /\
  r.(crcl_using_ibw_int) = round_units (F l.(crcl_using_ibw)).
Proof.
  intros H. pose proof H as H'. rewrite round_locals_eq in H'.
  destruct (clearances_finite l) eqn:Hf; [|discriminate].
  injection H' as <-. cbn [original_crcl_int modified_crcl_int crcl_using_ibw_int].
  unfold clearances_finite in Hf. rewrite !andb_true_iff in Hf.
  destruct Hf as [[Ho Hm] Hi].
  rewrite !round_F, Ho, Hm, Hi. repeat split; reflexivity.
Qed.

Lemma round_locals_Raise (l : Locals) (e : exn) :
  round_locals l = Raise e ->
  clearances_finite l = false /\ (e = OverflowError \/ e = ValueError).
Proof.
  intros H. split.
  - rewrite round_locals_eq in H.
    destruct (clearances_finite l); [discriminate|reflexivity].
  - revert H. unfold round_locals. rewrite !round_F.
    destruct (fin (original_crcl l)); cbn [bind];
      [|destruct (Prim2SF (original_crcl l)); intros H; injection H as <-; auto].
    destruct (fin (modified_crcl l)); cbn [bind];
      [|destruct (Prim2SF (modified_crcl l)); intros H; injection H as <-; auto].
    destruct (fin (crcl_using_ibw l)); cbn [bind];
      [|destruct (Prim2SF (crcl_using_ibw l)); intros H; injection H as <-; auto].
    discriminate.
Qed.

(** Once the three clearances are rounded, the output is built without
    any further exception. *)
Lemma format_output_eq (l : Locals) (r : Rounded) :
  round_locals l = Ok r ->
  let lo := Z.min r.(crcl_using_ibw_int) r.(modified_crcl_int) in
  let hi := Z.max r.(crcl_using_ibw_int) r.(modified_crcl_int) in
  format_output l r =
  Ok {| out_original_crcl :=
          (PyStr.str_int r.(original_crcl_int) ++ " mL/min" ++ newline
             ++ "Creatinine clearance, original Cockcroft-Gault")%string;
        out_modified_crcl :=
          (PyStr.str_int r.(modified_crcl_int) ++ " mL/min" ++ newline
             ++ "Creatinine clearance modified for overweight patient, using adjusted body weight of "
             ++ PyStr.repr_float (round_1 l.(abw)) ++ " kg ("
             ++ PyStr.repr_float (round_1 (l.(abw) / 0.453592)) ++ " lbs).")%string;
        out_crcl_range :=
          (((PyStr.str_int lo ++ ".0") ++ "-" ++ (PyStr.str_int hi ++ ".0")
              ++ " mL/min") ++ " mL/min")%string |}.
Proof.
  intros R lo hi. apply round_locals_Ok in R.
  destruct R as (_ & _ & Rm & Ri & _).
  assert (Elo : PyStr.format_int_1f lo = Ok (PyStr.str_int lo ++ ".0")%string).
  { unfold lo. destruct (Z.min_spec (crcl_using_ibw_int r) (modified_crcl_int r))
      as [[_ ->]|[_ ->]]; eapply format_rounded; eassumption. }
  assert (Ehi : PyStr.format_int_1f hi = Ok (PyStr.str_int hi ++ ".0")%string).
  { unfold hi. destruct (Z.max_spec (crcl_using_ibw_int r) (modified_crcl_int r))
      as [[_ ->]|[_ ->]]; eapply format_rounded; eassumption. }
  unfold format_output, crcl_range. fold lo hi.
  rewrite Elo, Ehi. cbn [bind]. reflexivity.
Qed.

(* ================================================================== *)
(** ** The range string *)

(** C5: for a validated input on which the calculation returns, the
    range string is the lower and the higher of the rounded
    [crcl_using_ibw] and [modified_crcl], each written with its decimal
    digits and [.0], joined by [-], with the unit [ mL/min] twice; the
    lower end is at most the higher; the integer 62 is written 62.0. *)
Theorem C5_range_string (data : CrClFormInput) (out : CrClFormOutput) :
  validated data = true ->
  calculate_crcl data = Ok out ->
  exists (l : Locals) (r : Rounded),
    crcl_locals data = Ok l /\ round_locals l = Ok r /\
    let lo := Z.min r.(crcl_using_ibw_int) r.(modified_crcl_int) in
    let hi := Z.max r.(crcl_using_ibw_int) r.(modified_crcl_int) in
    out.(out_crcl_range) =
      (((PyStr.str_int lo ++ ".0") ++ "-" ++ (PyStr.str_int hi ++ ".0")
          ++ " mL/min") ++ " mL/min")%string /\
    lo <= hi /\
    PyStr.format_int_1f 62 = Ok "62.0"%string.
Proof.
  intros _ H. unfold calculate_crcl in H.
  destruct (crcl_locals data) as [l|e]; cbn [bind] in H; [|discriminate].
  destruct (round_locals l) as [r|e] eqn:R; cbn [bind] in H; [|discriminate].
  exists l, r. split; [reflexivity|]. split; [exact R|].
  rewrite (format_output_eq l r R) in H. injection H as <-.
  cbn [out_crcl_range]. cbv zeta.
  split; [reflexivity|]. split; [lia|reflexivity].
Qed.

Lemma C5_witness :
  exists out : CrClFormOutput,
    calculate_crcl scenario_1 = Ok out /\
    out.(out_crcl_range) = "79.0-81.0 mL/min mL/min"%string.
Proof.
  destruct (calculate_crcl scenario_1) as [out|e] eqn:E;
    [|vm_compute in E; discriminate].
  exists out. split; [reflexivity|].
  destruct (C5_range_string scenario_1 out) as (l & r & L & R & H & _);
    [reflexivity|exact E|].
  vm_compute in L. injection L as <-.
  vm_compute in R. injection R as <-.
  rewrite H. reflexivity.
Defined.

(* ================================================================== *)
(** ** Modified against original clearance *)

(** The claim as written fails for a patient older than 140: at age 150
    the overweight patient [aged_150] gets an original clearance of -14
    and a modified one of -11. *)
Lemma C6_counterexample :
  validated aged_150 = true /\
  exists (l : Locals) (r : Rounded),
    crcl_locals aged_150 = Ok l /\ round_locals l = Ok r /\
    (l.(ibw) <? l.(weight_in_kg))%float = true /\
    r.(original_crcl_int) = -14 /\ r.(modified_crcl_int) = -11 /\
    (r.(modified_crcl_int) <=? r.(original_crcl_int)) = false.
Proof.
  split; [reflexivity|].
  destruct (crcl_locals aged_150) as [l|e] eqn:L;
    [|vm_compute in L; discriminate].
  destruct (round_locals l) as [r|e] eqn:R;
    [|vm_compute in L; injection L as <-; vm_compute in R; discriminate].
  exists l, r. vm_compute in L. injection L as <-.
  vm_compute in R. injection R as <-.
  repeat split; reflexivity.
Qed.

Lemma sex_factor_nonneg (s : Sex) :
  0 <= F (if Sex_eqb s female then 0.85 else 1.0)%float.
Proof. destruct s; vm_compute; discriminate. Qed.

Lemma float_of_int_nonneg (n : Z) (a : float) :
  0 <= n -> Py.float_of_int n = Ok a -> 0 <= F a.
Proof.
  intros Hn H. apply float_of_int_F in H. destruct H as (_ & -> & _).
  assert (0 < 2 ^ 1074) by reflexivity. hide (2 ^ 1074).
  rewrite sround_pos by nia. apply clamp_nonneg, ru_nonneg; nia.
Qed.

(** C6, amended: on a validated input on which the calculation rounds
    the three clearances, when the age is at most 140 and the weight in
    kg is above the ideal body weight, the modified clearance is at most
    the original one, before and after rounding; and when the weight in
    kg is at most the ideal body weight, the two are equal, before and
    after rounding. *)
Theorem C6_modified_le_original
    (data : CrClFormInput) (l : Locals) (r : Rounded) :
  validated data = true ->
  crcl_locals data = Ok l ->
  round_locals l = Ok r ->
  (data.(age) <= 140 ->
   (l.(ibw) <? l.(weight_in_kg))%float = true ->
   (l.(modified_crcl) <=? l.(original_crcl))%float = true /\
   r.(modified_crcl_int) <= r.(original_crcl_int)) /\
  ((l.(weight_in_kg) <=? l.(ibw))%float = true ->
   l.(modified_crcl) = l.(original_crcl) /\
   r.(modified_crcl_int) = r.(original_crcl_int)).
Proof.
  intros V L R.
  apply validated_fields in V. destruct V as (_ & _ & _ & Vc).
  apply crcl_locals_Ok in L.
  destruct L as (a & Ha & _ & _ & _ & Eb & Ef & Eo & Em & _).
  apply round_locals_Ok in R.
  destruct R as (Hf & Ro & Rm & _ & Io & Im & _).
  unfold clearances_finite in Hf. rewrite !andb_true_iff in Hf.
  destruct Hf as [[Fo Fm] _].
  split.
  - intros Hage Hlt.
    assert (Eb' : abw l = (ibw l + 0.4 * (weight_in_kg l - ibw l))%float).
    { rewrite Eb. unfold adjusted_body_weight. rewrite Hlt. reflexivity. }
    assert (Fb : fin (abw l) = true).
    { rewrite Em in Fm. apply div_fin in Fm. apply mul_fin in Fm.
      destruct Fm as [Fm _]. apply mul_fin in Fm. tauto. }
    assert (Hbw : F (abw l) <= F (weight_in_kg l)).
    { rewrite Eb'. apply abw_le_weight; [exact Hlt|]. rewrite <- Eb'. exact Fb. }
    assert (Hle : F (modified_crcl l) <= F (original_crcl l)).
    { rewrite Em, Eo. apply clearance_mono.
      - apply (float_of_int_nonneg (140 - age data)); [lia|exact Ha].
      - rewrite Ef. apply sex_factor_nonneg.
      - apply mul_72_positive. exact Vc.
      - exact Hbw.
      - rewrite <- Em. exact Fm.
      - rewrite <- Eo. exact Fo. }
    split.
    + rewrite leb_F by (apply fin_not_nan; assumption).
      apply Z.leb_le. exact Hle.
    + rewrite Im, Io. apply round_units_mono. exact Hle.
  - intros Hle. apply leb_ltb_false in Hle.
    assert (Eb' : abw l = weight_in_kg l).
    { rewrite Eb. unfold adjusted_body_weight. rewrite Hle. reflexivity. }
    assert (E : modified_crcl l = original_crcl l).
    { rewrite Em, Eo, Eb'. reflexivity. }
    split; [exact E|]. rewrite Im, Io, E. reflexivity.
Qed.

Lemma C6_witness :
  exists (l1 l2 : Locals) (r1 r2 : Rounded),
    (crcl_locals scenario_1 = Ok l1 /\ round_locals l1 = Ok r1 /\
     (l1.(ibw) <? l1.(weight_in_kg))%float = true /\
     r1.(modified_crcl_int) <= r1.(original_crcl_int)) /\
    (crcl_locals scenario_2 = Ok l2 /\ round_locals l2 = Ok r2 /\
     (l2.(weight_in_kg) <=? l2.(ibw))%float = true /\
     r2.(modified_crcl_int) = r2.(original_crcl_int)).
Proof.
  destruct (crcl_locals scenario_1) as [l1|e] eqn:L1;
    [|vm_compute in L1; discriminate].
  destruct (crcl_locals scenario_2) as [l2|e] eqn:L2;
    [|vm_compute in L2; discriminate].
  destruct (round_locals l1) as [r1|e] eqn:R1;
    [|vm_compute in L1; injection L1 as <-; vm_compute in R1; discriminate].
  destruct (round_locals l2) as [r2|e] eqn:R2;
    [|vm_compute in L2; injection L2 as <-; vm_compute in R2; discriminate].
  exists l1, l2, r1, r2.
  assert (H1 : (ibw l1 <? weight_in_kg l1)%float = true)
    by (vm_compute in L1; injection L1 as <-; reflexivity).
  assert (H2 : (weight_in_kg l2 <=? ibw l2)%float = true)
    by (vm_compute in L2; injection L2 as <-; reflexivity).
  split.
  - repeat split; try assumption.
    apply (C6_modified_le_original scenario_1 l1 r1);
      [reflexivity|exact L1|exact R1|vm_compute; discriminate|exact H1].
  - repeat split; try assumption.
    apply (C6_modified_le_original scenario_2 l2 r2);
      [reflexivity|exact L2|exact R2|exact H2].
Defined.

(* ================================================================== *)
(** ** Rounding *)

(** C8: the three clearances in the output are [round] of the unrounded
    floats, each the integer nearest to the exact value of its float,
    the even one on a tie; the text of the modified clearance shows
    [round(abw, 1)] and, rounded on its own, [round(abw / 0.453592, 1)];
    and [round(x, 1)] of a finite float is the double nearest to a whole
    number of tenths, the number nearest to ten times [x], the even one
    on a tie. *)
Theorem C8_rounding
    (data : CrClFormInput) (l : Locals) (r : Rounded) (out : CrClFormOutput) :
  validated data = true ->
  crcl_locals data = Ok l ->
  round_locals l = Ok r ->
  format_output l r = Ok out ->
  (Py.round l.(original_crcl) = Ok r.(original_crcl_int) /\
   nearest_even (F l.(original_crcl)) (2 ^ 1074) r.(original_crcl_int)) /\
  (Py.round l.(modified_crcl) = Ok r.(modified_crcl_int) /\
   nearest_even (F l.(modified_crcl)) (2 ^ 1074) r.(modified_crcl_int)) /\
  (Py.round l.(crcl_using_ibw) = Ok r.(crcl_using_ibw_int) /\
   nearest_even (F l.(crcl_using_ibw)) (2 ^ 1074) r.(crcl_using_ibw_int)) /\
  out.(out_modified_crcl) =
    (PyStr.str_int r.(modified_crcl_int) ++ " mL/min" ++ newline
       ++ "Creatinine clearance modified for overweight patient, using adjusted body weight of "
       ++ PyStr.repr_float (round_1 l.(abw)) ++ " kg ("
       ++ PyStr.repr_float (round_1 (l.(abw) / 0.453592)) ++ " lbs).")%string /\
  fin l.(abw) = true /\
  (forall x : float,
     fin x = true ->
     F (round_1 x) =
       cond_Zopp (F x <? 0) (clamp (ru (tenths (F x) * 2 ^ 1074) 10)) /\
     nearest_even (10 * Z.abs (F x)) (2 ^ 1074) (tenths (F x))).
Proof.
  intros _ L R H.
  rewrite (format_output_eq l r R) in H. injection H as <-.
  apply crcl_locals_Ok in L.
  destruct L as (a & _ & _ & _ & _ & _ & _ & _ & Em & _).
  apply round_locals_Ok in R.
  destruct R as (Hf & Ro & Rm & Ri & Io & Im & Ii).
  unfold clearances_finite in Hf. rewrite !andb_true_iff in Hf.
  destruct Hf as [[Fo Fm] Fi].
  split; [split; [exact Ro|rewrite Io; apply round_units_nearest]|].
  split; [split; [exact Rm|rewrite Im; apply round_units_nearest]|].
  split; [split; [exact Ri|rewrite Ii; apply round_units_nearest]|].
  split; [reflexivity|]. split; [|exact round_1_F].
  rewrite Em in Fm. apply div_fin in Fm. apply mul_fin in Fm.
  destruct Fm as [Fm _]. apply mul_fin in Fm. tauto.
Qed.

Lemma C8_witness :
  exists (l : Locals) (r : Rounded) (out : CrClFormOutput),
    crcl_locals scenario_1 = Ok l /\ round_locals l = Ok r /\
    format_output l r = Ok out /\
    l.(original_crcl) = 83.964646464646464%float /\
    r.(original_crcl_int) = 84 /\
    nearest_even (F l.(original_crcl)) (2 ^ 1074) 84 /\
    round_1 l.(abw) = 67.6%float /\
    round_1 (l.(abw) / 0.453592) = 148.9%float.
Proof.
  destruct (crcl_locals scenario_1) as [l|e] eqn:L;
    [|vm_compute in L; discriminate].
  destruct (round_locals l) as [r|e] eqn:R;
    [|vm_compute in L; injection L as <-; vm_compute in R; discriminate].
  destruct (format_output l r) as [out|e] eqn:O;
    [|rewrite (format_output_eq l r R) in O; discriminate].
  exists l, r, out.
  destruct (C8_rounding scenario_1 l r out) as ((_ & N) & _);
    [reflexivity|exact L|exact R|exact O|].
  assert (E : original_crcl_int r = 84).
  { vm_compute in L. injection L as <-. vm_compute in R. injection R as <-.
    reflexivity. }
  rewrite E in N.
  repeat split; try assumption; try exact (proj1 N); try exact (proj2 N);
    vm_compute in L; injection L as <-; reflexivity.
Defined.

(* ================================================================== *)
(** ** Exceptions *)

(** The claim as written fails: [huge_clearance] passes validation with
    finite, positive measurements, its clearance overflows to an
    infinity, and [round] raises [OverflowError]. *)
Lemma C9_counterexample :
  validated huge_clearance = true /\
  calculate_crcl huge_clearance = Raise OverflowError.
Proof. split; vm_compute; reflexivity. Qed.

Lemma float_of_int_small (n : Z) :
  - 2 ^ 1023 <= n <= 2 ^ 1023 -> exists a, Py.float_of_int n = Ok a.
Proof.
  intros Hn. apply float_of_int_returns.
  assert (P : 0 < 2 ^ 1074) by reflexivity.
  assert (E : sround (1 * 2 ^ 2097) 1 = 1 * 2 ^ 2097).
  { apply sround_exact_pos;
      [split; [discriminate|reflexivity]|discriminate|reflexivity]. }
  assert (E' : sround (- (1 * 2 ^ 2097)) 1 = - (1 * 2 ^ 2097)).
  { rewrite sround_opp by reflexivity. rewrite E. reflexivity. }
  assert (B : 1 * 2 ^ 2097 < 2 ^ 2098) by reflexivity.
  assert (S : 2 ^ 1023 * 2 ^ 1074 = 1 * 2 ^ 2097) by reflexivity.
  split.
  - apply Z.lt_le_trans with (- (1 * 2 ^ 2097)).
    + clear - B. hide (2 ^ 2098). hide (2 ^ 2097). lia.
    + rewrite <- E'. apply sround_mono; [reflexivity|reflexivity|].
      clear E E' B. rewrite <- S. clear S.
      hide (2 ^ 1074). hide (2 ^ 1023). nia.
  - apply Z.le_lt_trans with (1 * 2 ^ 2097); [|exact B].
    rewrite <- E. apply sround_mono; [reflexivity|reflexivity|].
    clear E E' B. rewrite <- S. clear S.
    hide (2 ^ 1074). hide (2 ^ 1023). nia.
Qed.

(** C9, amended: on a validated input the divisor [72 * serum_creatinine]
    is never zero and [140 - age] converts to a float for every age up to
    [2^1023], so the clearances are computed; the calculation then
    returns exactly when the three clearances are finite, and the only
    exceptions it can raise are [OverflowError] and [ValueError]. *)
Theorem C9_no_zero_division (data : CrClFormInput) :
  validated data = true ->
  ((72 * data.(serum_creatinine)) =? 0)%float = false /\
  (data.(age) <= 2 ^ 1023 -> exists l, crcl_locals data = Ok l) /\
  (forall l, crcl_locals data = Ok l ->
             returns (calculate_crcl data) = clearances_finite l) /\
  (forall e, calculate_crcl data = Raise e ->
             e = OverflowError \/ e = ValueError).
Proof.
  intros V. apply validated_fields in V. destruct V as (_ & _ & Va & Vc).
  pose proof (mul_72_nonzero _ Vc) as Hz.
  split; [exact Hz|]. split; [|split].
  - intros Hage. destruct (float_of_int_small (140 - age data)) as [a Ha].
    { assert (122 < 2 ^ 1023) by reflexivity. hide (2 ^ 1023). lia. }
    rewrite crcl_locals_eq, Ha, Hz. eauto.
  - intros l L. unfold calculate_crcl. rewrite L. cbn [bind].
    destruct (round_locals l) as [r|e] eqn:R; cbn [bind].
    + rewrite (format_output_eq l r R). apply round_locals_Ok in R.
      destruct R as [-> _]. reflexivity.
    + apply round_locals_Raise in R. destruct R as [-> _]. reflexivity.
  - intros e H. unfold calculate_crcl in H. rewrite crcl_locals_eq, Hz in H.
    unfold Py.float_of_int in H.
    destruct (binary_normalize prec emax (140 - age data) 0 false);
      cbn [bind] in H;
      try (injection H as <-; left; reflexivity);
      match type of H with
      | bind (round_locals ?l) _ = _ =>
          destruct (round_locals l) as [r|e'] eqn:R; cbn [bind] in H;
          [rewrite (format_output_eq _ r R) in H; discriminate
          |injection H as <-; apply round_locals_Raise in R; tauto]
      end.
Qed.

Lemma C9_witness :
  ((72 * 1.1) =? 0)%float = false /\
  (exists l, crcl_locals scenario_1 = Ok l) /\
  returns (calculate_crcl scenario_1) = true.
Proof.
  destruct (C9_no_zero_division scenario_1) as (Hz & Hl & Hr & _);
    [reflexivity|].
  split; [exact Hz|]. split; [apply Hl; vm_compute; discriminate|].
  destruct (crcl_locals scenario_1) as [l|e] eqn:L;
    [|vm_compute in L; discriminate].
  rewrite (Hr l eq_refl). vm_compute in L. injection L as <-.
  vm_compute. reflexivity.
Defined.

(* ================================================================== *)
(** * Further properties of the code *)

(** ** The request boundary *)

Tactic Notation "bind_inv" hyp(H) "as" ident(a) ident(Ha) :=
  apply bind_Ok in H; destruct H as (a & Ha & H).

Lemma required_Ok {A : Type} (o : option A) (a : A) :
  required o = Ok a -> o = Some a.
Proof. destruct o; intros H; [injection H as <-; reflexivity|discriminate]. Qed.

Lemma check_Ok (b : bool) (u : unit) : check b = Ok u -> b = true.
Proof. destruct b; [reflexivity|discriminate]. Qed.

(** Every way out of [parse_form] other than a value is a
    [ValidationError]. *)
Lemma parse_form_Raise (f : Form) (e : exn) :
  parse_form f = Raise e -> e = ValidationError.
Proof.
  unfold parse_form, parse_unit_system, parse_sex, required, check.
  destruct (with_default "metric"%string (form_unit_system f) =? "metric")%string;
    [|destruct (with_default "metric"%string (form_unit_system f) =? "imperial")%string].
  all: cbn [bind].
  all: destruct (form_weight f) as [w|]; cbn [bind];
    [destruct (0 <? w)%float; cbn [bind]|].
  all: try (intros H; injection H as <-; reflexivity).
  all: destruct (form_height f) as [h|]; cbn [bind];
    [destruct (0 <? h)%float; cbn [bind]|].
  all: try (intros H; injection H as <-; reflexivity).
  all: destruct (form_age f) as [a|]; cbn [bind];
    [destruct (18 <=? a); cbn [bind]|].
  all: try (intros H; injection H as <-; reflexivity).
  all: destruct (form_serum_creatinine f) as [c|]; cbn [bind];
    [destruct (0 <? c)%float; cbn [bind]|].
  all: try (intros H; injection H as <-; reflexivity).
  all: destruct (form_sex f) as [sx|]; cbn [bind];
    [destruct (sx =? "male")%string;
       [|destruct (sx =? "female")%string]; cbn [bind]|].
  all: try (intros H; injection H as <-; reflexivity).
  all: discriminate.
Qed.

(** What an accepted form looked like. *)
Lemma parse_form_Ok (f : Form) (data : CrClFormInput) :
  parse_form f = Ok data ->
  parse_unit_system (with_default "metric"%string f.(form_unit_system))
    = Ok data.(unit_system) /\
  f.(form_weight) = Some data.(weight) /\
  (0 <? data.(weight))%float = true /\
  f.(form_height) = Some data.(height) /\
  (0 <? data.(height))%float = true /\
  f.(form_age) = Some data.(age) /\
  (18 <=? data.(age)) = true /\
  f.(form_serum_creatinine) = Some data.(serum_creatinine) /\
  (0 <? data.(serum_creatinine))%float = true /\
  exists sx, f.(form_sex) = Some sx /\ parse_sex sx = Ok data.(sex).
Proof.
  unfold parse_form. intros H.
  bind_inv H as us Eus.
  bind_inv H as w Ew. apply required_Ok in Ew.
  bind_inv H as u1 Cw. apply check_Ok in Cw.
  bind_inv H as h Eh. apply required_Ok in Eh.
  bind_inv H as u2 Ch. apply check_Ok in Ch.
  bind_inv H as a Ea. apply required_Ok in Ea.
  bind_inv H as u3 Ca. apply check_Ok in Ca.
  bind_inv H as c Ec. apply required_Ok in Ec.
  bind_inv H as u4 Cc. apply check_Ok in Cc.
  bind_inv H as sx Esx. apply required_Ok in Esx.
  bind_inv H as s Es.
  injection H as <-.
  cbn [unit_system weight height age serum_creatinine sex].
  repeat split; try assumption. exists sx. split; assumption.
Qed.

(** X1: whatever form is accepted satisfies the declared constraints and
    carries the submitted values unchanged: the weight, the height and
    the serum creatinine are greater than zero (so none is a NaN), the
    age is at least 18, the sex was one of the two literals, and the
    unit system is the submitted literal, or metric when none was
    submitted. *)
Theorem parse_form_validated (f : Form) (data : CrClFormInput) :
  parse_form f = Ok data ->
  validated data = true /\
  f.(form_weight) = Some data.(weight) /\
  f.(form_height) = Some data.(height) /\
  f.(form_age) = Some data.(age) /\
  f.(form_serum_creatinine) = Some data.(serum_creatinine) /\
  f.(form_sex) = Some (match data.(sex) with
                       | male => "male"
                       | female => "female"
                       end)%string /\
  (f.(form_unit_system) = None /\ data.(unit_system) = metric \/
   f.(form_unit_system) = Some (match data.(unit_system) with
                                | metric => "metric"
                                | imperial => "imperial"
                                end)%string).
Proof.
  intros H. apply parse_form_Ok in H.
  destruct H as (Hu & Hw & Cw & Hh & Ch & Ha & Ca & Hc & Cc & sx & Hs & Ps).
  split; [unfold validated; rewrite Cw, Ch, Ca, Cc; reflexivity|].
  repeat (split; [assumption|]). split.
  - rewrite Hs. f_equal. unfold parse_sex in Ps.
    destruct (sx =? "male")%string eqn:E1.
    + injection Ps as <-. apply String.eqb_eq. exact E1.
    + destruct (sx =? "female")%string eqn:E2; [|discriminate].
      injection Ps as <-. apply String.eqb_eq. exact E2.
  - unfold parse_unit_system in Hu.
    destruct (form_unit_system f) as [u|]; cbn [with_default] in Hu.
    + right. f_equal.
      destruct (u =? "metric")%string eqn:E1.
      * injection Hu as <-. apply String.eqb_eq. exact E1.
      * destruct (u =? "imperial")%string eqn:E2; [|discriminate].
        injection Hu as <-. apply String.eqb_eq. exact E2.
    + left. split; [reflexivity|].
      change ("metric" =? "metric")%string with true in Hu.
      injection Hu as <-. reflexivity.
Qed.

Lemma parse_form_validated_witness :
  parse_form form_without_unit_system = Ok scenario_1 /\
  validated scenario_1 = true /\
  form_without_unit_system.(form_weight) = Some scenario_1.(weight).
Proof.
  assert (H : parse_form form_without_unit_system = Ok scenario_1)
    by reflexivity.
  split; [exact H|].
  destruct (parse_form_validated _ _ H) as (V & W & _).
  split; [exact V|exact W].
Defined.

(** X2: the five fields without a default are required: a form that lacks
    the weight, the height, the age, the serum creatinine or the sex is
    rejected with a validation error, whatever else it holds. *)
Theorem parse_form_missing_field (f : Form) :
  f.(form_weight) = None \/ f.(form_height) = None \/
  f.(form_age) = None \/ f.(form_serum_creatinine) = None \/
  f.(form_sex) = None ->
  parse_form f = Raise ValidationError.
Proof.
  intros H. destruct (parse_form f) as [data|e] eqn:P.
  - exfalso. apply parse_form_Ok in P.
    destruct P as (_ & Hw & _ & Hh & _ & Ha & _ & Hc & _ & sx & Hs & _).
    destruct H as [H|[H|[H|[H|H]]]]; congruence.
  - f_equal. exact (parse_form_Raise f e P).
Qed.

Lemma parse_form_missing_field_witness :
  parse_form form_without_weight = Raise ValidationError.
Proof.
  apply parse_form_missing_field. left. reflexivity.
Defined.

(** X3: the bounds and the literals are enforced: a weight, a height or a
    serum creatinine that is not greater than zero (zero, negative or
    NaN), an age below 18, a sex other than the two literals, or a unit
    system other than the two literals is rejected with a validation
    error. *)
Theorem parse_form_out_of_range (f : Form) :
  (exists w, f.(form_weight) = Some w /\ (0 <? w)%float = false) \/
  (exists h, f.(form_height) = Some h /\ (0 <? h)%float = false) \/
  (exists a, f.(form_age) = Some a /\ a < 18) \/
  (exists c, f.(form_serum_creatinine) = Some c /\ (0 <? c)%float = false) \/
  (exists s, f.(form_sex) = Some s /\ s <> "male"%string /\ s <> "female"%string) \/
  (exists u, f.(form_unit_system) = Some u /\
             u <> "metric"%string /\ u <> "imperial"%string) ->
  parse_form f = Raise ValidationError.
Proof.
  intros H. destruct (parse_form f) as [data|e] eqn:P.
  - exfalso. apply parse_form_Ok in P.
    destruct P as (Hu & Hw & Cw & Hh & Ch & Ha & Ca & Hc & Cc & sx & Hs & Ps).
    destruct H as [(w & E & C)|[(h & E & C)|[(a & E & C)|[(c & E & C)|
                  [(s & E & N1 & N2)|(u & E & N1 & N2)]]]]].
    + congruence.
    + congruence.
    + apply Z.leb_le in Ca. assert (a = age data) by congruence. lia.
    + congruence.
    + assert (s = sx) by congruence. subst sx. unfold parse_sex in Ps.
      apply String.eqb_neq in N1, N2. rewrite N1, N2 in Ps. discriminate.
    + rewrite E in Hu. cbn [with_default] in Hu. unfold parse_unit_system in Hu.
      apply String.eqb_neq in N1, N2. rewrite N1, N2 in Hu. discriminate.
  - f_equal. exact (parse_form_Raise f e P).
Qed.

Lemma parse_form_out_of_range_witness :
  parse_form form_minor = Raise ValidationError /\
  parse_form form_nan_weight = Raise ValidationError.
Proof.
  split; apply parse_form_out_of_range.
  - right. right. left. exists 17. split; [reflexivity|lia].
  - left. exists nan. split; reflexivity.
Defined.

(* ================================================================== *)
(** ** Order facts about the four operations *)

Lemma sround_nonneg (z b : Z) : 0 <= z -> 0 < b -> 0 <= sround z b.
Proof.
  intros Hz Hb. rewrite <- (sround_0 b Hb). apply sround_mono; nia.
Qed.

Lemma sround_nonpos (z b : Z) : z <= 0 -> 0 < b -> sround z b <= 0.
Proof.
  intros Hz Hb. rewrite <- (sround_0 b Hb). apply sround_mono; nia.
Qed.

Lemma round_units_0 : round_units 0 = 0.
Proof.
  unfold round_units. cbn [Z.ltb Z.compare].
  replace 0 with (2 ^ 1074 * 0) at 1 by reflexivity.
  apply rhe_exact. reflexivity.
Qed.

Lemma mul_mono_l (x y c : float) :
  fin x = true -> fin y = true -> fin c = true ->
  0 <= F c -> F x <= F y -> F (x * c)%float <= F (y * c)%float.
Proof.
  intros Fx Fy Fc Hc H. rewrite !mul_F by assumption.
  assert (P : 0 < 2 ^ 1074) by reflexivity. hide (2 ^ 1074).
  assert (F x * F c <= F y * F c) by nia. apply sround_mono; nia.
Qed.

Lemma mul_mono_r (c x y : float) :
  fin x = true -> fin y = true -> fin c = true ->
  0 <= F c -> F x <= F y -> F (c * x)%float <= F (c * y)%float.
Proof.
  intros Fx Fy Fc Hc H. rewrite !mul_F by assumption.
  assert (P : 0 < 2 ^ 1074) by reflexivity. hide (2 ^ 1074).
  assert (F c * F x <= F c * F y) by nia. apply sround_mono; nia.
Qed.

Lemma mul_nonneg (x y : float) :
  fin x = true -> fin y = true -> 0 <= F x -> 0 <= F y -> 0 <= F (x * y)%float.
Proof.
  intros Fx Fy Hx Hy. rewrite mul_F by assumption.
  apply sround_nonneg; [nia|reflexivity].
Qed.

Lemma mul_nonpos_l (x y : float) :
  fin x = true -> fin y = true -> F x <= 0 -> 0 <= F y -> F (x * y)%float <= 0.
Proof.
  intros Fx Fy Hx Hy. rewrite mul_F by assumption.
  apply sround_nonpos; [nia|reflexivity].
Qed.

Lemma add_mono_r (c x y : float) :
  fin x = true -> fin y = true -> fin c = true ->
  F x <= F y -> F (c + x)%float <= F (c + y)%float.
Proof.
  intros Fx Fy Fc H. rewrite !add_F by assumption.
  apply sround_mono; lia.
Qed.

Lemma add_mono_l (x y c : float) :
  fin x = true -> fin y = true -> fin c = true ->
  F x <= F y -> F (x + c)%float <= F (y + c)%float.
Proof.
  intros Fx Fy Fc H. rewrite !add_F by assumption.
  apply sround_mono; lia.
Qed.

Lemma sub_mono_l (x y c : float) :
  fin x = true -> fin y = true -> fin c = true ->
  F x <= F y -> F (x - c)%float <= F (y - c)%float.
Proof.
  intros Fx Fy Fc H. rewrite !sub_F by assumption.
  apply sround_mono; lia.
Qed.

Lemma div_mono_l (x y d : float) :
  fin x = true -> fin y = true -> positive_divisor d ->
  F x <= F y -> F (x / d)%float <= F (y / d)%float.
Proof.
  intros Fx Fy [[Fd Pd]|Id] H.
  - rewrite !div_F by assumption.
    assert (P : 0 <= 2 ^ 1074) by discriminate.
    pose proof (Z.mul_le_mono_nonneg_r _ _ _ P H).
    hide (2 ^ 1074). apply sround_mono; nia.
  - rewrite !div_by_infinity by assumption. lia.
Qed.

Lemma div_nonneg (x d : float) :
  fin x = true -> positive_divisor d -> 0 <= F x -> 0 <= F (x / d)%float.
Proof.
  intros Fx [[Fd Pd]|Id] H.
  - rewrite div_F by assumption.
    assert (P : 0 <= 2 ^ 1074) by discriminate.
    apply sround_nonneg; [|assumption]. hide (2 ^ 1074). nia.
  - rewrite div_by_infinity by assumption. lia.
Qed.

Lemma div_nonpos (x d : float) :
  fin x = true -> positive_divisor d -> F x <= 0 -> F (x / d)%float <= 0.
Proof.
  intros Fx [[Fd Pd]|Id] H.
  - rewrite div_F by assumption.
    assert (P : 0 <= 2 ^ 1074) by discriminate.
    apply sround_nonpos; [|assumption]. hide (2 ^ 1074). nia.
  - rewrite div_by_infinity by assumption. lia.
Qed.

Lemma F_infinity (d : float) :
  Prim2SF d = S754_infinity false -> F d = 2 ^ 2098.
Proof. unfold F. intros ->. reflexivity. Qed.

(** A larger positive divisor gives a smaller quotient of a dividend
    that is not negative. *)
Lemma div_anti_r (p d1 d2 : float) :
  fin p = true -> 0 <= F p ->
  positive_divisor d1 -> positive_divisor d2 -> F d1 <= F d2 ->
  F (p / d2)%float <= F (p / d1)%float.
Proof.
  intros Fp Hp [[F1 P1]|I1] [[F2 P2]|I2] H.
  - rewrite !div_F by assumption.
    assert (P : 0 <= 2 ^ 1074) by discriminate.
    assert (0 <= F p * 2 ^ 1074) by (hide (2 ^ 1074); nia).
    hide (2 ^ 1074). apply sround_mono; nia.
  - rewrite (div_by_infinity p d2) by assumption.
    apply div_nonneg; [assumption|left; split; assumption|assumption].
  - exfalso. rewrite (F_infinity d1 I1) in H.
    pose proof (fin_bound d2 F2) as B. hide (2 ^ 2098). lia.
  - rewrite !div_by_infinity by assumption. lia.
Qed.

Lemma float_of_int_mono (n1 n2 : Z) (a1 a2 : float) :
  n1 <= n2 -> Py.float_of_int n1 = Ok a1 -> Py.float_of_int n2 = Ok a2 ->
  F a1 <= F a2.
Proof.
  intros H H1 H2.
  apply float_of_int_F in H1. destruct H1 as (_ & -> & _).
  apply float_of_int_F in H2. destruct H2 as (_ & -> & _).
  assert (P : 0 <= 2 ^ 1074) by discriminate.
  pose proof (Z.mul_le_mono_nonneg_r _ _ _ P H).
  hide (2 ^ 1074). apply sround_mono; lia.
Qed.

Lemma float_of_int_nonpos (n : Z) (a : float) :
  n <= 0 -> Py.float_of_int n = Ok a -> F a <= 0.
Proof.
  intros Hn H. apply float_of_int_F in H. destruct H as (_ & -> & _).
  assert (P : 0 <= 2 ^ 1074) by discriminate.
  apply sround_nonpos; [|reflexivity]. hide (2 ^ 1074). nia.
Qed.

Lemma float_of_int_fin (n : Z) (a : float) :
  Py.float_of_int n = Ok a -> fin a = true.
Proof. intros H. apply float_of_int_F in H. tauto. Qed.

Lemma positive_F (c : float) : (0 <? c)%float = true -> 0 < F c.
Proof.
  intros H. destruct (positive_cases c H) as [[_ P]|I]; [exact P|].
  rewrite (F_infinity c I). reflexivity.
Qed.

(** [72 * c] grows with a positive [c]. *)
Lemma mul_72_mono (c1 c2 : float) :
  (0 <? c1)%float = true -> (0 <? c2)%float = true ->
  (c1 <=? c2)%float = true ->
  F (72 * c1)%float <= F (72 * c2)%float.
Proof.
  intros H1 H2 H.
  destruct (ltb_not_nan _ _ H1) as [_ N1].
  destruct (ltb_not_nan _ _ H2) as [_ N2].
  rewrite leb_F in H by assumption. apply Z.leb_le in H.
  destruct (positive_cases c2 H2) as [[F2 P2]|I2].
  - destruct (positive_cases c1 H1) as [[F1 P1]|I1].
    + apply mul_mono_r; try assumption; try reflexivity.
      vm_compute. discriminate.
    + exfalso. rewrite (F_infinity c1 I1) in H.
      pose proof (fin_bound c2 F2) as B. hide (2 ^ 2098). lia.
  - assert (E : Prim2SF (72 * c2)%float = S754_infinity false)
      by (rewrite mul_spec, I2; reflexivity).
    rewrite (F_infinity _ E).
    destruct (mul_72_positive c1 H1) as [[F1 _]|I1].
    + pose proof (fin_bound _ F1) as B. hide (2 ^ 2098). lia.
    + rewrite (F_infinity _ I1). apply Z.le_refl.
Qed.

(* ================================================================== *)
(** ** Ideal and adjusted body weight *)

Lemma calculate_ibw_eq (h : float) (s : Sex) :
  calculate_ibw h s =
  ((match s with male => 50 | female => 45.5 end) + 2.3 * (h - 60))%float.
Proof. destruct s; reflexivity. Qed.

Lemma calculate_ibw_fin (h : float) (s : Sex) :
  fin (calculate_ibw h s) = true ->
  fin h = true /\ fin (h - 60)%float = true /\
  fin (2.3 * (h - 60))%float = true.
Proof.
  rewrite calculate_ibw_eq. intros H.
  apply add_fin in H. destruct H as [_ H]. split; [|split; [|exact H]].
  - apply mul_fin in H. destruct H as [_ H]. apply sub_fin in H. tauto.
  - apply mul_fin in H. tauto.
Qed.

Lemma calculate_ibw_mono (h1 h2 : float) (s : Sex) :
  fin (calculate_ibw h1 s) = true ->
  fin (calculate_ibw h2 s) = true ->
  F h1 <= F h2 ->
  F (calculate_ibw h1 s) <= F (calculate_ibw h2 s).
Proof.
  intros F1 F2 H.
  destruct (calculate_ibw_fin _ _ F1) as (Fh1 & Fs1 & Fm1).
  destruct (calculate_ibw_fin _ _ F2) as (Fh2 & Fs2 & Fm2).
  rewrite !calculate_ibw_eq.
  apply add_mono_r; try assumption; [destruct s; reflexivity|].
  apply mul_mono_r; try assumption; [reflexivity|vm_compute; discriminate|].
  apply sub_mono_l; try assumption. reflexivity.
Qed.

(** X4: the ideal body weight grows with the height: of two heights, the
    larger never has the smaller ideal body weight, for either sex, as
    long as both results are finite. *)
Theorem calculate_ibw_monotone (h1 h2 : float) (s : Sex) :
  fin (calculate_ibw h1 s) = true ->
  fin (calculate_ibw h2 s) = true ->
  (h1 <=? h2)%float = true ->
  (calculate_ibw h1 s <=? calculate_ibw h2 s)%float = true.
Proof.
  intros F1 F2 H.
  rewrite leb_F by (apply fin_not_nan; assumption). apply Z.leb_le.
  apply calculate_ibw_mono; try assumption.
  destruct (calculate_ibw_fin _ _ F1) as (Fh1 & _).
  destruct (calculate_ibw_fin _ _ F2) as (Fh2 & _).
  rewrite leb_F in H by (apply fin_not_nan; assumption). apply Z.leb_le in H.
  exact H.
Qed.

Lemma calculate_ibw_monotone_witness :
  (calculate_ibw 64 female <=? calculate_ibw 70 female)%float = true.
Proof.
  apply calculate_ibw_monotone; reflexivity.
Defined.

(** X5: at one height the ideal body weight of a female patient never
    exceeds that of a male patient. *)
Theorem calculate_ibw_female_le_male (h : float) :
  fin (calculate_ibw h female) = true ->
  fin (calculate_ibw h male) = true ->
  (calculate_ibw h female <=? calculate_ibw h male)%float = true.
Proof.
  intros F1 F2.
  rewrite leb_F by (apply fin_not_nan; assumption). apply Z.leb_le.
  destruct (calculate_ibw_fin _ _ F1) as (Fh & Fs & Fm).
  rewrite !calculate_ibw_eq.
  apply add_mono_l; try assumption; try reflexivity.
  vm_compute. discriminate.
Qed.

Lemma calculate_ibw_female_le_male_witness :
  (calculate_ibw 64 female <=? calculate_ibw 64 male)%float = true.
Proof.
  apply calculate_ibw_female_le_male; reflexivity.
Defined.

Lemma adjusted_fin (w i : float) :
  fin (i + 0.4 * (w - i))%float = true ->
  fin i = true /\ fin w = true /\ fin (w - i)%float = true /\
  fin (0.4 * (w - i))%float = true.
Proof.
  intros H. apply add_fin in H. destruct H as [Fi H].
  pose proof H as H'. apply mul_fin in H'. destruct H' as [_ H'].
  pose proof H' as H''. apply sub_fin in H''. tauto.
Qed.

Lemma ibw_le_abw (w i : float) :
  (i <? w)%float = true ->
  fin (i + 0.4 * (w - i))%float = true ->
  F i <= F (i + 0.4 * (w - i))%float.
Proof.
  intros H Fb. destruct (adjusted_fin w i Fb) as (Fi & Fw & Fs & Fm).
  rewrite ltb_F in H by (apply fin_not_nan; assumption). apply Z.ltb_lt in H.
  assert (Hs : 0 <= F (w - i)%float).
  { rewrite sub_F by assumption. apply sround_nonneg; [lia|reflexivity]. }
  assert (Hm : 0 <= F (0.4 * (w - i))%float).
  { apply mul_nonneg; try assumption; [reflexivity|vm_compute; discriminate]. }
  rewrite add_F by assumption. rewrite <- (F_exact i Fi) at 1.
  apply sround_mono; lia.
Qed.

(** X6: the adjusted body weight of an overweight patient lies between the
    ideal and the actual body weight (both ends included), as long as it
    is finite. *)
Theorem adjusted_body_weight_between (w i : float) :
  (i <? w)%float = true ->
  fin (adjusted_body_weight w i) = true ->
  (i <=? adjusted_body_weight w i)%float = true /\
  (adjusted_body_weight w i <=? w)%float = true.
Proof.
  unfold adjusted_body_weight. intros H. rewrite H. intros Fb.
  destruct (adjusted_fin w i Fb) as (Fi & Fw & _).
  rewrite !leb_F by (apply fin_not_nan; assumption).
  split; apply Z.leb_le.
  - apply ibw_le_abw; assumption.
  - apply abw_le_weight; assumption.
Qed.

Lemma adjusted_body_weight_between_witness :
  (66 <=? adjusted_body_weight 70 66)%float = true /\
  (adjusted_body_weight 70 66 <=? 70)%float = true.
Proof.
  apply adjusted_body_weight_between; reflexivity.
Defined.

(** The adjusted body weight grows with the actual weight. *)
Lemma adjusted_body_weight_mono (w1 w2 i : float) :
  fin w1 = true -> fin w2 = true -> fin i = true ->
  fin (adjusted_body_weight w1 i) = true ->
  fin (adjusted_body_weight w2 i) = true ->
  F w1 <= F w2 ->
  F (adjusted_body_weight w1 i) <= F (adjusted_body_weight w2 i).
Proof.
  unfold adjusted_body_weight. intros F1 F2 Fi B1 B2 H.
  destruct (i <? w1)%float eqn:H1, (i <? w2)%float eqn:H2.
  - destruct (adjusted_fin w1 i B1) as (_ & _ & Fs1 & Fm1).
    destruct (adjusted_fin w2 i B2) as (_ & _ & Fs2 & Fm2).
    apply add_mono_r; try assumption.
    apply mul_mono_r; try assumption; [reflexivity|vm_compute; discriminate|].
    apply sub_mono_l; assumption.
  - exfalso. rewrite ltb_F in H1, H2 by (apply fin_not_nan; assumption).
    apply Z.ltb_lt in H1. apply Z.ltb_ge in H2. lia.
  - pose proof (ibw_le_abw w2 i H2 B2).
    rewrite ltb_F in H1 by (apply fin_not_nan; assumption).
    apply Z.ltb_ge in H1. lia.
  - exact H.
Qed.

(* ================================================================== *)
(** ** What a completed calculation tells *)

(** Everything that is known once the three clearances have been
    computed and rounded. *)
Lemma crcl_run (data : CrClFormInput) (l : Locals) (r : Rounded) :
  validated data = true ->
  crcl_locals data = Ok l ->
  round_locals l = Ok r ->
  exists a : float,
    Py.float_of_int (140 - data.(age)) = Ok a /\ fin a = true /\
    l.(weight_in_kg) =
      match data.(unit_system) with
      | imperial => (data.(weight) * 0.453592)%float
      | metric => data.(weight)
      end /\
    l.(height_in_inches) =
      match data.(unit_system) with
      | imperial => data.(height)
      | metric => (data.(height) / 2.54)%float
      end /\
    l.(ibw) = calculate_ibw l.(height_in_inches) data.(sex) /\
    l.(abw) = adjusted_body_weight l.(weight_in_kg) l.(ibw) /\
    l.(sex_factor) = (if Sex_eqb data.(sex) female then 0.85 else 1.0)%float /\
    fin l.(sex_factor) = true /\ 0 <= F l.(sex_factor) /\
    positive_divisor (72 * data.(serum_creatinine))%float /\
    (fin l.(weight_in_kg) = true /\ 0 <= F l.(weight_in_kg)) /\
    fin l.(abw) = true /\ fin l.(ibw) = true /\
    (l.(original_crcl) =
       (a * l.(weight_in_kg) * l.(sex_factor) / (72 * data.(serum_creatinine)))%float /\
     fin (a * l.(weight_in_kg))%float = true /\
     fin (a * l.(weight_in_kg) * l.(sex_factor))%float = true /\
     fin l.(original_crcl) = true /\
     r.(original_crcl_int) = round_units (F l.(original_crcl))) /\
    (l.(modified_crcl) =
       (a * l.(abw) * l.(sex_factor) / (72 * data.(serum_creatinine)))%float /\
     fin (a * l.(abw))%float = true /\
     fin (a * l.(abw) * l.(sex_factor))%float = true /\
     fin l.(modified_crcl) = true /\
     r.(modified_crcl_int) = round_units (F l.(modified_crcl))) /\
    (l.(crcl_using_ibw) =
       (a * l.(ibw) * l.(sex_factor) / (72 * data.(serum_creatinine)))%float /\
     fin (a * l.(ibw))%float = true /\
     fin (a * l.(ibw) * l.(sex_factor))%float = true /\
     fin l.(crcl_using_ibw) = true /\
     r.(crcl_using_ibw_int) = round_units (F l.(crcl_using_ibw))).
Proof.
  intros V L R.
  apply validated_fields in V. destruct V as (Vw & _ & _ & Vc).
  pose proof L as L'. apply crcl_locals_Ok in L'.
  destruct L' as (a & Ha & _ & Hwh & Ei & Eb & Ef & Eo & Em & Ec).
  rewrite convert_units_eq in Hwh.
  assert (Ew : weight_in_kg l = match unit_system data with
                                | imperial => (weight data * 0.453592)%float
                                | metric => weight data
                                end)
    by (destruct (unit_system data); injection Hwh as -> _; reflexivity).
  assert (Eh : height_in_inches l = match unit_system data with
                                    | imperial => height data
                                    | metric => (height data / 2.54)%float
                                    end)
    by (destruct (unit_system data); injection Hwh as _ ->; reflexivity).
  apply round_locals_Ok in R.
  destruct R as (Hf & _ & _ & _ & Io & Im & Ii).
  unfold clearances_finite in Hf. rewrite !andb_true_iff in Hf.
  destruct Hf as [[Fo Fm] Fc].
  assert (Po : fin (a * weight_in_kg l * sex_factor l)%float = true)
    by (rewrite Eo in Fo; exact (div_fin _ _ Fo)).
  assert (Pm : fin (a * abw l * sex_factor l)%float = true)
    by (rewrite Em in Fm; exact (div_fin _ _ Fm)).
  assert (Pc : fin (a * ibw l * sex_factor l)%float = true)
    by (rewrite Ec in Fc; exact (div_fin _ _ Fc)).
  destruct (mul_fin _ _ Po) as [Qo Ff].
  destruct (mul_fin _ _ Pm) as [Qm _].
  destruct (mul_fin _ _ Pc) as [Qc _].
  destruct (mul_fin _ _ Qo) as [Fa Fw].
  destruct (mul_fin _ _ Qm) as [_ Fb].
  destruct (mul_fin _ _ Qc) as [_ Fi].
  assert (Hw : 0 <= F (weight_in_kg l)).
  { rewrite Ew in Fw |- *. destruct (unit_system data).
    - apply Z.lt_le_incl, positive_F. exact Vw.
    - destruct (mul_fin _ _ Fw) as [F1 F2].
      apply mul_nonneg; try assumption.
      + apply Z.lt_le_incl, positive_F. exact Vw.
      + vm_compute. discriminate. }
  exists a. repeat split; try assumption.
  - rewrite Ef. apply sex_factor_nonneg.
  - apply mul_72_positive. exact Vc.
Qed.

Lemma same_float_of_int (n1 n2 : Z) (a1 a2 : float) :
  n1 = n2 -> Py.float_of_int n1 = Ok a1 -> Py.float_of_int n2 = Ok a2 ->
  a1 = a2.
Proof. intros -> H1 H2. rewrite H1 in H2. injection H2 as ->. reflexivity. Qed.

(* ================================================================== *)
(** ** How the clearances move with the inputs *)

(** X7: of two patients who differ in weight only, neither older than 140,
    the heavier one never gets the lower original clearance nor the
    lower modified clearance, and both get the same clearance by ideal
    body weight. *)
Theorem heavier_patient_not_lower
    (d1 d2 : CrClFormInput) (l1 l2 : Locals) (r1 r2 : Rounded) :
  validated d1 = true -> validated d2 = true ->
  d1.(unit_system) = d2.(unit_system) ->
  d1.(height) = d2.(height) ->
  d1.(sex) = d2.(sex) ->
  d1.(age) = d2.(age) ->
  d1.(serum_creatinine) = d2.(serum_creatinine) ->
  (d1.(weight) <=? d2.(weight))%float = true ->
  d1.(age) <= 140 ->
  crcl_locals d1 = Ok l1 -> round_locals l1 = Ok r1 ->
  crcl_locals d2 = Ok l2 -> round_locals l2 = Ok r2 ->
  r1.(original_crcl_int) <= r2.(original_crcl_int) /\
  r1.(modified_crcl_int) <= r2.(modified_crcl_int) /\
  r1.(crcl_using_ibw_int) = r2.(crcl_using_ibw_int).
Proof.
  intros V1 V2 Hu Hh Hs Ha Hc Hw Hage L1 R1 L2 R2.
  destruct (crcl_run d1 l1 r1 V1 L1 R1)
    as (a1 & A1 & Fa1 & Ew1 & Eh1 & Ei1 & Eb1 & Ef1 & Ff1 & Pf1 & D1 &
        (Fw1 & Pw1) & Fb1 & Fi1 & (Eo1 & _ & _ & Fo1 & Io1) &
        (Em1 & _ & _ & Fm1 & Im1) & (Ec1 & _ & _ & Fc1 & Ic1)).
  destruct (crcl_run d2 l2 r2 V2 L2 R2)
    as (a2 & A2 & Fa2 & Ew2 & Eh2 & Ei2 & Eb2 & Ef2 & Ff2 & Pf2 & D2 &
        (Fw2 & Pw2) & Fb2 & Fi2 & (Eo2 & _ & _ & Fo2 & Io2) &
        (Em2 & _ & _ & Fm2 & Im2) & (Ec2 & _ & _ & Fc2 & Ic2)).
  assert (Ea : a2 = a1)
    by (apply (same_float_of_int (140 - age d2) (140 - age d1)); congruence).
  subst a2.
  assert (Ef : sex_factor l2 = sex_factor l1)
    by (rewrite Ef1, Ef2, Hs; reflexivity).
  assert (Eh : height_in_inches l2 = height_in_inches l1)
    by (rewrite Eh1, Eh2, Hu, Hh; reflexivity).
  assert (Ei : ibw l2 = ibw l1) by (rewrite Ei1, Ei2, Eh, Hs; reflexivity).
  rewrite <- Hc in Eo2, Em2, Ec2. rewrite Ef in Eo2, Em2, Ec2.
  rewrite Ei in Ec2, Eb2.
  assert (Pa : 0 <= F a1)
    by (apply (float_of_int_nonneg (140 - age d1)); [lia|exact A1]).
  assert (Hkg : F (weight_in_kg l1) <= F (weight_in_kg l2)).
  { apply validated_fields in V1, V2.
    destruct V1 as (W1 & _). destruct V2 as (W2 & _).
    destruct (ltb_not_nan _ _ W1) as [_ N1].
    destruct (ltb_not_nan _ _ W2) as [_ N2].
    rewrite leb_F in Hw by assumption. apply Z.leb_le in Hw.
    rewrite Ew1, Ew2, <- Hu in *.
    destruct (unit_system d1); [exact Hw|].
    destruct (mul_fin _ _ Fw1) as [G1 G]. destruct (mul_fin _ _ Fw2) as [G2 _].
    apply mul_mono_l; try assumption. vm_compute. discriminate. }
  assert (Hb : F (abw l1) <= F (abw l2)).
  { rewrite Eb1, Eb2. apply adjusted_body_weight_mono; try assumption.
    - rewrite <- Eb1. exact Fb1.
    - rewrite <- Eb2. exact Fb2. }
  split; [|split].
  - rewrite Io1, Io2. apply round_units_mono. rewrite Eo1, Eo2.
    apply clearance_mono; try assumption.
    + rewrite <- Eo1. exact Fo1.
    + rewrite <- Eo2. exact Fo2.
  - rewrite Im1, Im2. apply round_units_mono. rewrite Em1, Em2.
    apply clearance_mono; try assumption.
    + rewrite <- Em1. exact Fm1.
    + rewrite <- Em2. exact Fm2.
  - rewrite Ic1, Ic2, Ec1, Ec2. reflexivity.
Qed.

Lemma heavier_patient_not_lower_witness :
  exists (l1 l2 : Locals) (r1 r2 : Rounded),
    crcl_locals scenario_1 = Ok l1 /\ round_locals l1 = Ok r1 /\
    crcl_locals scenario_1_heavier = Ok l2 /\ round_locals l2 = Ok r2 /\
    r1.(original_crcl_int) <= r2.(original_crcl_int) /\
    r1.(modified_crcl_int) <= r2.(modified_crcl_int) /\
    r1.(crcl_using_ibw_int) = r2.(crcl_using_ibw_int).
Proof.
  destruct (crcl_locals scenario_1) as [l1|e] eqn:L1;
    [|vm_compute in L1; discriminate].
  destruct (crcl_locals scenario_1_heavier) as [l2|e] eqn:L2;
    [|vm_compute in L2; discriminate].
  destruct (round_locals l1) as [r1|e] eqn:R1;
    [|vm_compute in L1; injection L1 as <-; vm_compute in R1; discriminate].
  destruct (round_locals l2) as [r2|e] eqn:R2;
    [|vm_compute in L2; injection L2 as <-; vm_compute in R2; discriminate].
  exists l1, l2, r1, r2.
  repeat (split; [first [reflexivity|assumption]|]).
  apply (heavier_patient_not_lower scenario_1 scenario_1_heavier l1 l2 r1 r2);
    try reflexivity; try assumption.
  vm_compute. discriminate.
Defined.

(** X8: of two patients who differ in serum creatinine only, neither older
    than 140, the one with the higher serum creatinine never gets the
    higher original clearance. *)
Theorem higher_creatinine_not_higher
    (d1 d2 : CrClFormInput) (l1 l2 : Locals) (r1 r2 : Rounded) :
  validated d1 = true -> validated d2 = true ->
  d1.(unit_system) = d2.(unit_system) ->
  d1.(weight) = d2.(weight) ->
  d1.(height) = d2.(height) ->
  d1.(sex) = d2.(sex) ->
  d1.(age) = d2.(age) ->
  (d1.(serum_creatinine) <=? d2.(serum_creatinine))%float = true ->
  d1.(age) <= 140 ->
  crcl_locals d1 = Ok l1 -> round_locals l1 = Ok r1 ->
  crcl_locals d2 = Ok l2 -> round_locals l2 = Ok r2 ->
  r2.(original_crcl_int) <= r1.(original_crcl_int).
Proof.
  intros V1 V2 Hu Hw Hh Hs Ha Hc Hage L1 R1 L2 R2.
  destruct (crcl_run d1 l1 r1 V1 L1 R1)
    as (a1 & A1 & Fa1 & Ew1 & _ & _ & _ & Ef1 & Ff1 & Pf1 & D1 &
        (Fw1 & Pw1) & _ & _ & (Eo1 & Qo1 & Po1 & Fo1 & Io1) & _).
  destruct (crcl_run d2 l2 r2 V2 L2 R2)
    as (a2 & A2 & Fa2 & Ew2 & _ & _ & _ & Ef2 & Ff2 & Pf2 & D2 &
        (Fw2 & Pw2) & _ & _ & (Eo2 & Qo2 & Po2 & Fo2 & Io2) & _).
  assert (Ea : a2 = a1)
    by (apply (same_float_of_int (140 - age d2) (140 - age d1)); congruence).
  subst a2.
  assert (Ef : sex_factor l2 = sex_factor l1)
    by (rewrite Ef1, Ef2, Hs; reflexivity).
  assert (Ew : weight_in_kg l2 = weight_in_kg l1)
    by (rewrite Ew1, Ew2, Hu, Hw; reflexivity).
  rewrite Ef, Ew in Eo2.
  assert (Pa : 0 <= F a1)
    by (apply (float_of_int_nonneg (140 - age d1)); [lia|exact A1]).
  apply validated_fields in V1, V2.
  destruct V1 as (_ & _ & _ & C1). destruct V2 as (_ & _ & _ & C2).
  rewrite Io1, Io2. apply round_units_mono. rewrite Eo1, Eo2.
  apply div_anti_r; try assumption.
  - apply mul_nonneg; try assumption. apply mul_nonneg; assumption.
  - apply mul_72_mono; assumption.
Qed.

Lemma higher_creatinine_not_higher_witness :
  exists (l1 l2 : Locals) (r1 r2 : Rounded),
    crcl_locals scenario_1 = Ok l1 /\ round_locals l1 = Ok r1 /\
    crcl_locals scenario_1_creatinine_2 = Ok l2 /\ round_locals l2 = Ok r2 /\
    r2.(original_crcl_int) <= r1.(original_crcl_int).
Proof.
  destruct (crcl_locals scenario_1) as [l1|e] eqn:L1;
    [|vm_compute in L1; discriminate].
  destruct (crcl_locals scenario_1_creatinine_2) as [l2|e] eqn:L2;
    [|vm_compute in L2; discriminate].
  destruct (round_locals l1) as [r1|e] eqn:R1;
    [|vm_compute in L1; injection L1 as <-; vm_compute in R1; discriminate].
  destruct (round_locals l2) as [r2|e] eqn:R2;
    [|vm_compute in L2; injection L2 as <-; vm_compute in R2; discriminate].
  exists l1, l2, r1, r2.
  repeat (split; [first [reflexivity|assumption]|]).
  apply (higher_creatinine_not_higher scenario_1 scenario_1_creatinine_2
           l1 l2 r1 r2);
    try reflexivity; try assumption.
  vm_compute. discriminate.
Defined.

(** X9: of two patients who differ in age only, the older one never gets
    the higher original clearance: this holds at every age, also past
    140, where the clearance is negative. *)
Theorem older_patient_not_higher
    (d1 d2 : CrClFormInput) (l1 l2 : Locals) (r1 r2 : Rounded) :
  validated d1 = true -> validated d2 = true ->
  d1.(unit_system) = d2.(unit_system) ->
  d1.(weight) = d2.(weight) ->
  d1.(height) = d2.(height) ->
  d1.(sex) = d2.(sex) ->
  d1.(serum_creatinine) = d2.(serum_creatinine) ->
  d1.(age) <= d2.(age) ->
  crcl_locals d1 = Ok l1 -> round_locals l1 = Ok r1 ->
  crcl_locals d2 = Ok l2 -> round_locals l2 = Ok r2 ->
  r2.(original_crcl_int) <= r1.(original_crcl_int).
Proof.
  intros V1 V2 Hu Hw Hh Hs Hc Hage L1 R1 L2 R2.
  destruct (crcl_run d1 l1 r1 V1 L1 R1)
    as (a1 & A1 & Fa1 & Ew1 & _ & _ & _ & Ef1 & Ff1 & Pf1 & D1 &
        (Fw1 & Pw1) & _ & _ & (Eo1 & Qo1 & Po1 & Fo1 & Io1) & _).
  destruct (crcl_run d2 l2 r2 V2 L2 R2)
    as (a2 & A2 & Fa2 & Ew2 & _ & _ & _ & Ef2 & Ff2 & Pf2 & D2 &
        (Fw2 & Pw2) & _ & _ & (Eo2 & Qo2 & Po2 & Fo2 & Io2) & _).
  assert (Ef : sex_factor l2 = sex_factor l1)
    by (rewrite Ef1, Ef2, Hs; reflexivity).
  assert (Ew : weight_in_kg l2 = weight_in_kg l1)
    by (rewrite Ew1, Ew2, Hu, Hw; reflexivity).
  rewrite Ef, Ew, <- Hc in *.
  assert (Ha : F a2 <= F a1).
  { apply (float_of_int_mono (140 - age d2) (140 - age d1)); [lia| |];
      assumption. }
  rewrite Io1, Io2. apply round_units_mono. rewrite Eo1, Eo2.
  apply div_mono_l; try assumption.
  apply mul_mono_l; try assumption.
  apply mul_mono_l; assumption.
Qed.

Lemma older_patient_not_higher_witness :
  exists (l1 l2 : Locals) (r1 r2 : Rounded),
    crcl_locals scenario_1 = Ok l1 /\ round_locals l1 = Ok r1 /\
    crcl_locals scenario_1_aged_80 = Ok l2 /\ round_locals l2 = Ok r2 /\
    r2.(original_crcl_int) <= r1.(original_crcl_int).
Proof.
  destruct (crcl_locals scenario_1) as [l1|e] eqn:L1;
    [|vm_compute in L1; discriminate].
  destruct (crcl_locals scenario_1_aged_80) as [l2|e] eqn:L2;
    [|vm_compute in L2; discriminate].
  destruct (round_locals l1) as [r1|e] eqn:R1;
    [|vm_compute in L1; injection L1 as <-; vm_compute in R1; discriminate].
  destruct (round_locals l2) as [r2|e] eqn:R2;
    [|vm_compute in L2; injection L2 as <-; vm_compute in R2; discriminate].
  exists l1, l2, r1, r2.
  repeat (split; [first [reflexivity|assumption]|]).
  apply (older_patient_not_higher scenario_1 scenario_1_aged_80 l1 l2 r1 r2);
    try reflexivity; try assumption.
  vm_compute. discriminate.
Defined.

(** X10: of two patients who differ in height only, neither older than 140,
    both get the same original clearance, and the taller one never gets
    the lower clearance by ideal body weight. *)
Theorem taller_patient_not_lower
    (d1 d2 : CrClFormInput) (l1 l2 : Locals) (r1 r2 : Rounded) :
  validated d1 = true -> validated d2 = true ->
  d1.(unit_system) = d2.(unit_system) ->
  d1.(weight) = d2.(weight) ->
  d1.(sex) = d2.(sex) ->
  d1.(age) = d2.(age) ->
  d1.(serum_creatinine) = d2.(serum_creatinine) ->
  (d1.(height) <=? d2.(height))%float = true ->
  d1.(age) <= 140 ->
  crcl_locals d1 = Ok l1 -> round_locals l1 = Ok r1 ->
  crcl_locals d2 = Ok l2 -> round_locals l2 = Ok r2 ->
  r1.(original_crcl_int) = r2.(original_crcl_int) /\
  r1.(crcl_using_ibw_int) <= r2.(crcl_using_ibw_int).
Proof.
  intros V1 V2 Hu Hw Hs Ha Hc Hh Hage L1 R1 L2 R2.
  destruct (crcl_run d1 l1 r1 V1 L1 R1)
    as (a1 & A1 & Fa1 & Ew1 & Eh1 & Ei1 & _ & Ef1 & Ff1 & Pf1 & D1 &
        _ & _ & Fi1 & (Eo1 & _ & _ & _ & Io1) & _ &
        (Ec1 & _ & _ & Fc1 & Ic1)).
  destruct (crcl_run d2 l2 r2 V2 L2 R2)
    as (a2 & A2 & Fa2 & Ew2 & Eh2 & Ei2 & _ & Ef2 & Ff2 & Pf2 & D2 &
        _ & _ & Fi2 & (Eo2 & _ & _ & _ & Io2) & _ &
        (Ec2 & _ & _ & Fc2 & Ic2)).
  assert (Ea : a2 = a1)
    by (apply (same_float_of_int (140 - age d2) (140 - age d1)); congruence).
  subst a2.
  assert (Ef : sex_factor l2 = sex_factor l1)
    by (rewrite Ef1, Ef2, Hs; reflexivity).
  assert (Ew : weight_in_kg l2 = weight_in_kg l1)
    by (rewrite Ew1, Ew2, Hu, Hw; reflexivity).
  rewrite <- Hc in Eo2, Ec2. rewrite Ef in Eo2, Ec2. rewrite Ew in Eo2.
  assert (Pa : 0 <= F a1)
    by (apply (float_of_int_nonneg (140 - age d1)); [lia|exact A1]).
  split.
  - rewrite Io1, Io2, Eo1, Eo2. reflexivity.
  - assert (Hin : F (height_in_inches l1) <= F (height_in_inches l2)).
    { apply validated_fields in V1, V2.
      destruct V1 as (_ & H1 & _). destruct V2 as (_ & H2 & _).
      destruct (ltb_not_nan _ _ H1) as [_ N1].
      destruct (ltb_not_nan _ _ H2) as [_ N2].
      rewrite leb_F in Hh by assumption. apply Z.leb_le in Hh.
      rewrite Ei1 in Fi1. rewrite Ei2 in Fi2.
      apply calculate_ibw_fin in Fi1, Fi2.
      destruct Fi1 as (G1 & _). destruct Fi2 as (G2 & _).
      rewrite Eh1, Eh2, <- Hu in *.
      destruct (unit_system d1); [|exact Hh].
      apply div_mono_l; try assumption.
      - exact (div_fin _ _ G1).
      - exact (div_fin _ _ G2).
      - left. split; [reflexivity|vm_compute; reflexivity]. }
    rewrite Ic1, Ic2. apply round_units_mono. rewrite Ec1, Ec2.
    apply clearance_mono; try assumption.
    + rewrite Ei1, Ei2, <- Hs. apply calculate_ibw_mono; try assumption.
      * rewrite <- Ei1. exact Fi1.
      * rewrite Hs, <- Ei2. exact Fi2.
    + rewrite <- Ec1. exact Fc1.
    + rewrite <- Ec2. exact Fc2.
Qed.

Lemma taller_patient_not_lower_witness :
  exists (l1 l2 : Locals) (r1 r2 : Rounded),
    crcl_locals scenario_1 = Ok l1 /\ round_locals l1 = Ok r1 /\
    crcl_locals scenario_1_taller = Ok l2 /\ round_locals l2 = Ok r2 /\
    r1.(original_crcl_int) = r2.(original_crcl_int) /\
    r1.(crcl_using_ibw_int) <= r2.(crcl_using_ibw_int).
Proof.
  destruct (crcl_locals scenario_1) as [l1|e] eqn:L1;
    [|vm_compute in L1; discriminate].
  destruct (crcl_locals scenario_1_taller) as [l2|e] eqn:L2;
    [|vm_compute in L2; discriminate].
  destruct (round_locals l1) as [r1|e] eqn:R1;
    [|vm_compute in L1; injection L1 as <-; vm_compute in R1; discriminate].
  destruct (round_locals l2) as [r2|e] eqn:R2;
    [|vm_compute in L2; injection L2 as <-; vm_compute in R2; discriminate].
  exists l1, l2, r1, r2.
  repeat (split; [first [reflexivity|assumption]|]).
  apply (taller_patient_not_lower scenario_1 scenario_1_taller l1 l2 r1 r2);
    try reflexivity; try assumption.
  vm_compute. discriminate.
Defined.

(** X11: of a female and a male patient with the same measurements, neither
    older than 140, the female one never gets the higher original
    clearance. *)
Theorem female_not_higher
    (d1 d2 : CrClFormInput) (l1 l2 : Locals) (r1 r2 : Rounded) :
  validated d1 = true -> validated d2 = true ->
  d1.(unit_system) = d2.(unit_system) ->
  d1.(weight) = d2.(weight) ->
  d1.(height) = d2.(height) ->
  d1.(age) = d2.(age) ->
  d1.(serum_creatinine) = d2.(serum_creatinine) ->
  d1.(sex) = female -> d2.(sex) = male ->
  d1.(age) <= 140 ->
  crcl_locals d1 = Ok l1 -> round_locals l1 = Ok r1 ->
  crcl_locals d2 = Ok l2 -> round_locals l2 = Ok r2 ->
  r1.(original_crcl_int) <= r2.(original_crcl_int).
Proof.
  intros V1 V2 Hu Hw Hh Ha Hc S1 S2 Hage L1 R1 L2 R2.
  destruct (crcl_run d1 l1 r1 V1 L1 R1)
    as (a1 & A1 & Fa1 & Ew1 & _ & _ & _ & Ef1 & Ff1 & Pf1 & D1 &
        (Fw1 & Pw1) & _ & _ & (Eo1 & Qo1 & Po1 & Fo1 & Io1) & _).
  destruct (crcl_run d2 l2 r2 V2 L2 R2)
    as (a2 & A2 & Fa2 & Ew2 & _ & _ & _ & Ef2 & Ff2 & Pf2 & D2 &
        (Fw2 & Pw2) & _ & _ & (Eo2 & Qo2 & Po2 & Fo2 & Io2) & _).
  assert (Ea : a2 = a1)
    by (apply (same_float_of_int (140 - age d2) (140 - age d1)); congruence).
  subst a2.
  assert (Ew : weight_in_kg l2 = weight_in_kg l1)
    by (rewrite Ew1, Ew2, Hu, Hw; reflexivity).
  rewrite Ew, <- Hc in *.
  assert (Pa : 0 <= F a1)
    by (apply (float_of_int_nonneg (140 - age d1)); [lia|exact A1]).
  rewrite S1 in Ef1. rewrite S2 in Ef2. cbn [Sex_eqb] in Ef1, Ef2.
  rewrite Io1, Io2. apply round_units_mono. rewrite Eo1, Eo2.
  apply div_mono_l; try assumption.
  apply mul_mono_r; try assumption.
  - apply mul_nonneg; assumption.
  - rewrite Ef1, Ef2. vm_compute. discriminate.
Qed.

Lemma female_not_higher_witness :
  exists (l1 l2 : Locals) (r1 r2 : Rounded),
    crcl_locals scenario_1_female = Ok l1 /\ round_locals l1 = Ok r1 /\
    crcl_locals scenario_1 = Ok l2 /\ round_locals l2 = Ok r2 /\
    r1.(original_crcl_int) <= r2.(original_crcl_int).
Proof.
  destruct (crcl_locals scenario_1_female) as [l1|e] eqn:L1;
    [|vm_compute in L1; discriminate].
  destruct (crcl_locals scenario_1) as [l2|e] eqn:L2;
    [|vm_compute in L2; discriminate].
  destruct (round_locals l1) as [r1|e] eqn:R1;
    [|vm_compute in L1; injection L1 as <-; vm_compute in R1; discriminate].
  destruct (round_locals l2) as [r2|e] eqn:R2;
    [|vm_compute in L2; injection L2 as <-; vm_compute in R2; discriminate].
  exists l1, l2, r1, r2.
  repeat (split; [first [reflexivity|assumption]|]).
  apply (female_not_higher scenario_1_female scenario_1 l1 l2 r1 r2);
    try reflexivity; try assumption.
  vm_compute. discriminate.
Defined.

(* ================================================================== *)
(** ** Sign and ends of the results *)

(** X12: the original clearance is not negative up to the age of 140 and not
    positive from the age of 140 on. *)
Theorem original_crcl_sign
    (data : CrClFormInput) (l : Locals) (r : Rounded) :
  validated data = true ->
  crcl_locals data = Ok l ->
  round_locals l = Ok r ->
  (data.(age) <= 140 -> 0 <= r.(original_crcl_int)) /\
  (140 <= data.(age) -> r.(original_crcl_int) <= 0).
Proof.
  intros V L R.
  destruct (crcl_run data l r V L R)
    as (a & A & Fa & _ & _ & _ & _ & _ & Ff & Pf & D &
        (Fw & Pw) & _ & _ & (Eo & Qo & Po & Fo & Io) & _).
  rewrite Io, Eo, <- round_units_0. split; intros Hage.
  - apply round_units_mono.
    assert (Pa : 0 <= F a)
      by (apply (float_of_int_nonneg (140 - age data)); [lia|exact A]).
    apply div_nonneg; try assumption.
    apply mul_nonneg; try assumption. apply mul_nonneg; assumption.
  - apply round_units_mono.
    assert (Pa : F a <= 0)
      by (apply (float_of_int_nonpos (140 - age data)); [lia|exact A]).
    apply div_nonpos; try assumption.
    apply mul_nonpos_l; try assumption. apply mul_nonpos_l; assumption.
Qed.

Lemma original_crcl_sign_witness :
  exists (l1 l2 : Locals) (r1 r2 : Rounded),
    crcl_locals scenario_1 = Ok l1 /\ round_locals l1 = Ok r1 /\
    crcl_locals aged_150 = Ok l2 /\ round_locals l2 = Ok r2 /\
    0 <= r1.(original_crcl_int) /\ r2.(original_crcl_int) <= 0.
Proof.
  destruct (crcl_locals scenario_1) as [l1|e] eqn:L1;
    [|vm_compute in L1; discriminate].
  destruct (crcl_locals aged_150) as [l2|e] eqn:L2;
    [|vm_compute in L2; discriminate].
  destruct (round_locals l1) as [r1|e] eqn:R1;
    [|vm_compute in L1; injection L1 as <-; vm_compute in R1; discriminate].
  destruct (round_locals l2) as [r2|e] eqn:R2;
    [|vm_compute in L2; injection L2 as <-; vm_compute in R2; discriminate].
  exists l1, l2, r1, r2.
  repeat (split; [first [reflexivity|assumption]|]).
  split.
  - apply (original_crcl_sign scenario_1 l1 r1);
      [reflexivity|exact L1|exact R1|vm_compute; discriminate].
  - apply (original_crcl_sign aged_150 l2 r2);
      [reflexivity|exact L2|exact R2|vm_compute; discriminate].
Defined.

Lemma append_assoc (a b c : string) :
  ((a ++ b) ++ c = a ++ (b ++ c))%string.
Proof. induction a as [|x a IH]; cbn; [reflexivity|rewrite IH; reflexivity]. Qed.

Lemma calculate_crcl_Ok (data : CrClFormInput) (out : CrClFormOutput) :
  calculate_crcl data = Ok out ->
  exists (l : Locals) (r : Rounded),
    crcl_locals data = Ok l /\ round_locals l = Ok r /\
    format_output l r = Ok out.
Proof.
  unfold calculate_crcl. intros H.
  destruct (crcl_locals data) as [l|e]; cbn [bind] in H; [|discriminate].
  destruct (round_locals l) as [r|e] eqn:R; cbn [bind] in H; [|discriminate].
  exists l, r. auto.
Qed.

(** X13: up to the age of 140 the two ends of the range are known: for an
    overweight patient the range runs from the clearance by ideal body
    weight to the modified clearance, which is at most the original one;
    otherwise it runs from the modified clearance, which is the original
    one, to the clearance by ideal body weight. *)
Theorem crcl_range_ends (data : CrClFormInput) (out : CrClFormOutput) :
  validated data = true ->
  data.(age) <= 140 ->
  calculate_crcl data = Ok out ->
  exists (l : Locals) (r : Rounded),
    crcl_locals data = Ok l /\ round_locals l = Ok r /\
    if (l.(ibw) <? l.(weight_in_kg))%float
    then
      r.(crcl_using_ibw_int) <= r.(modified_crcl_int) /\
      r.(modified_crcl_int) <= r.(original_crcl_int) /\
      out.(out_crcl_range) =
        (PyStr.str_int r.(crcl_using_ibw_int) ++ ".0-"
           ++ PyStr.str_int r.(modified_crcl_int) ++ ".0 mL/min mL/min")%string
    else
      r.(modified_crcl_int) = r.(original_crcl_int) /\
      r.(modified_crcl_int) <= r.(crcl_using_ibw_int) /\
      out.(out_crcl_range) =
        (PyStr.str_int r.(modified_crcl_int) ++ ".0-"
           ++ PyStr.str_int r.(crcl_using_ibw_int) ++ ".0 mL/min mL/min")%string.
Proof.
  intros V Hage H. apply calculate_crcl_Ok in H.
  destruct H as (l & r & L & R & H). exists l, r.
  split; [exact L|]. split; [exact R|].
  rewrite (format_output_eq l r R) in H. injection H as <-.
  cbn [out_crcl_range].
  destruct (crcl_run data l r V L R)
    as (a & A & Fa & _ & _ & _ & Eb & _ & Ff & Pf & D &
        (Fw & Pw) & Fb & Fi & (Eo & _ & _ & Fo & Io) &
        (Em & _ & _ & Fm & Im) & (Ec & _ & _ & Fc & Ic)).
  assert (Pa : 0 <= F a)
    by (apply (float_of_int_nonneg (140 - age data)); [lia|exact A]).
  destruct (ibw l <? weight_in_kg l)%float eqn:Hlt.
  - assert (Eb' : abw l = (ibw l + 0.4 * (weight_in_kg l - ibw l))%float).
    { rewrite Eb. unfold adjusted_body_weight. rewrite Hlt. reflexivity. }
    assert (H1 : crcl_using_ibw_int r <= modified_crcl_int r).
    { rewrite Ic, Im. apply round_units_mono. rewrite Ec, Em.
      apply clearance_mono; try assumption.
      - rewrite Eb'. apply ibw_le_abw; [exact Hlt|]. rewrite <- Eb'. exact Fb.
      - rewrite <- Ec. exact Fc.
      - rewrite <- Em. exact Fm. }
    assert (H2 : modified_crcl_int r <= original_crcl_int r).
    { rewrite Im, Io. apply round_units_mono. rewrite Em, Eo.
      apply clearance_mono; try assumption.
      - rewrite Eb'. apply abw_le_weight; [exact Hlt|]. rewrite <- Eb'. exact Fb.
      - rewrite <- Em. exact Fm.
      - rewrite <- Eo. exact Fo. }
    split; [exact H1|]. split; [exact H2|].
    rewrite Z.min_l, Z.max_r by assumption.
    repeat (progress (rewrite ?append_assoc; cbn [append])). reflexivity.
  - assert (Eb' : abw l = weight_in_kg l).
    { rewrite Eb. unfold adjusted_body_weight. rewrite Hlt. reflexivity. }
    assert (E : modified_crcl l = original_crcl l)
      by (rewrite Em, Eo, Eb'; reflexivity).
    assert (H1 : modified_crcl_int r = original_crcl_int r)
      by (rewrite Im, Io, E; reflexivity).
    assert (H2 : modified_crcl_int r <= crcl_using_ibw_int r).
    { rewrite Im, Ic. apply round_units_mono. rewrite Em, Ec.
      apply clearance_mono; try assumption.
      - rewrite Eb'.
        rewrite ltb_F in Hlt by (apply fin_not_nan; assumption).
        apply Z.ltb_ge in Hlt. exact Hlt.
      - rewrite <- Em. exact Fm.
      - rewrite <- Ec. exact Fc. }
    split; [exact H1|]. split; [exact H2|].
    rewrite Z.min_r, Z.max_l by assumption.
    repeat (progress (rewrite ?append_assoc; cbn [append])). reflexivity.
Qed.

Lemma crcl_range_ends_witness :
  exists out : CrClFormOutput,
    calculate_crcl scenario_2 = Ok out /\
    out.(out_crcl_range) = "72.0-79.0 mL/min mL/min"%string.
Proof.
  destruct (calculate_crcl scenario_2) as [out|e] eqn:E;
    [|vm_compute in E; discriminate].
  exists out. split; [reflexivity|].
  destruct (crcl_range_ends scenario_2 out) as (l & r & L & R & H);
    [reflexivity|vm_compute; discriminate|exact E|].
  vm_compute in L. injection L as <-.
  vm_compute in R. injection R as <-.
  cbn [ibw weight_in_kg] in H.
  change ((56.699999999999996 <? 49.895119999999999)%float) with false in H.
  destruct H as (_ & _ & ->). reflexivity.
Defined.

(* ================================================================== *)
(** ** Edge cases *)

Lemma mul_zero_l (x y : float) :
  fin x = true -> fin y = true -> F x = 0 -> F (x * y)%float = 0.
Proof.
  intros Fx Fy H. rewrite mul_F by assumption.
  rewrite H, Z.mul_0_l. apply sround_0. reflexivity.
Qed.

Lemma div_zero (x d : float) :
  fin x = true -> positive_divisor d -> F x = 0 -> F (x / d)%float = 0.
Proof.
  intros Fx D H.
  pose proof (div_nonneg x d Fx D). pose proof (div_nonpos x d Fx D). lia.
Qed.

Lemma float_of_int_0 (a : float) : Py.float_of_int 0 = Ok a -> F a = 0.
Proof.
  intros H. apply float_of_int_F in H. destruct H as (_ & -> & _).
  rewrite Z.mul_0_l. apply sround_0. reflexivity.
Qed.

(** X14: at the age of 140 the factor [140 - age] is zero: whenever the
    calculation returns, the three rounded clearances are 0, the first
    output starts with [0 mL/min] and the range is [0.0-0.0]. *)
Theorem age_140_gives_zero (data : CrClFormInput) (out : CrClFormOutput) :
  validated data = true ->
  data.(age) = 140 ->
  calculate_crcl data = Ok out ->
  out.(out_original_crcl) =
    ("0 mL/min" ++ newline
       ++ "Creatinine clearance, original Cockcroft-Gault")%string /\
  out.(out_crcl_range) = "0.0-0.0 mL/min mL/min"%string /\
  exists (l : Locals) (r : Rounded),
    crcl_locals data = Ok l /\ round_locals l = Ok r /\
    r.(original_crcl_int) = 0 /\ r.(modified_crcl_int) = 0 /\
    r.(crcl_using_ibw_int) = 0.
Proof.
  intros V Hage H. apply calculate_crcl_Ok in H.
  destruct H as (l & r & L & R & H).
  rewrite (format_output_eq l r R) in H. injection H as <-.
  cbn [out_original_crcl out_crcl_range].
  destruct (crcl_run data l r V L R)
    as (a & A & Fa & _ & _ & _ & _ & _ & Ff & _ & D &
        (Fw & _) & Fb & Fi & (Eo & Qo & Po & _ & Io) &
        (Em & Qm & Pm & _ & Im) & (Ec & Qc & Pc & _ & Ic)).
  rewrite Hage in A. change (140 - 140) with 0 in A.
  apply float_of_int_0 in A.
  assert (Zo : original_crcl_int r = 0).
  { rewrite Io, Eo, div_zero; auto using round_units_0, mul_zero_l. }
  assert (Zm : modified_crcl_int r = 0).
  { rewrite Im, Em, div_zero; auto using round_units_0, mul_zero_l. }
  assert (Zc : crcl_using_ibw_int r = 0).
  { rewrite Ic, Ec, div_zero; auto using round_units_0, mul_zero_l. }
  rewrite Zo, Zm, Zc. split; [reflexivity|]. split; [reflexivity|].
  exists l, r. auto.
Qed.

Lemma age_140_gives_zero_witness :
  exists out : CrClFormOutput,
    calculate_crcl scenario_1_aged_140 = Ok out /\
    out.(out_crcl_range) = "0.0-0.0 mL/min mL/min"%string.
Proof.
  destruct (calculate_crcl scenario_1_aged_140) as [out|e] eqn:E;
    [|vm_compute in E; discriminate].
  exists out. split; [reflexivity|].
  apply (age_140_gives_zero scenario_1_aged_140 out);
    [reflexivity|reflexivity|exact E].
Defined.

(** The exceptions the calculation can end with on a validated input. *)
Lemma calculate_crcl_Raise (data : CrClFormInput) (e : exn) :
  validated data = true ->
  calculate_crcl data = Raise e ->
  e = OverflowError \/ e = ValueError.
Proof.
  intros V H. apply validated_fields in V. destruct V as (_ & _ & _ & Vc).
  pose proof (mul_72_nonzero _ Vc) as Hz.
  unfold calculate_crcl in H. rewrite crcl_locals_eq, Hz in H.
  unfold Py.float_of_int in H.
  destruct (binary_normalize prec emax (140 - age data) 0 false);
    cbn [bind] in H;
    try (injection H as <-; left; reflexivity);
    match type of H with
    | bind (round_locals ?l) _ = _ =>
        destruct (round_locals l) as [r|e'] eqn:R; cbn [bind] in H;
        [rewrite (format_output_eq _ r R) in H; discriminate
        |injection H as <-; apply round_locals_Raise in R; tauto]
    end.
Qed.

(** X15: the bounds [gt=0] let an infinite weight or height through, but the
    calculation never returns on one: it ends with [OverflowError] or
    [ValueError]. *)
Theorem infinite_measurement_raises (data : CrClFormInput) :
  validated data = true ->
  data.(weight) = infinity \/ data.(height) = infinity ->
  exists e : exn,
    calculate_crcl data = Raise e /\ (e = OverflowError \/ e = ValueError).
Proof.
  intros V Hinf. destruct (calculate_crcl data) as [out|e] eqn:H.
  - exfalso. apply calculate_crcl_Ok in H.
    destruct H as (l & r & L & R & _).
    destruct (crcl_run data l r V L R)
      as (a & _ & _ & Ew & Eh & Ei & _ & _ & _ & _ & _ &
          (Fw & _) & _ & Fi & _).
    rewrite Ei in Fi. apply calculate_ibw_fin in Fi. destruct Fi as (Fh & _).
    assert (Gw : fin (weight data) = true).
    { rewrite Ew in Fw. destruct (unit_system data); [exact Fw|].
      apply mul_fin in Fw. tauto. }
    assert (Gh : fin (height data) = true).
    { rewrite Eh in Fh. destruct (unit_system data); [|exact Fh].
      exact (div_fin _ _ Fh). }
    destruct Hinf as [E|E]; [rewrite E in Gw|rewrite E in Gh]; discriminate.
  - exists e. split; [reflexivity|].
    exact (calculate_crcl_Raise data e V H).
Qed.

Lemma infinite_measurement_raises_witness :
  validated scenario_1_infinite_weight = true /\
  calculate_crcl scenario_1_infinite_weight = Raise OverflowError.
Proof.
  split; [reflexivity|].
  destruct (infinite_measurement_raises scenario_1_infinite_weight)
    as (e & H & _); [reflexivity|left; reflexivity|].
  rewrite H. vm_compute in H. symmetry. exact H.
Defined.

(* ================================================================== *)
(** ** The endpoint *)


(* ================================================================== *)
(** ** Inputs on which the calculation returns *)

Lemma fin_of_bound (x : float) :
  not_nan (Prim2SF x) = true -> - 2 ^ 2098 < F x < 2 ^ 2098 -> fin x = true.
Proof.
  unfold fin, F. destruct (Prim2SF x) as [s|s| |s m e]; cbn [Fval];
    try reflexivity; try discriminate.
  intros _ H. exfalso. hide (2 ^ 2098). destruct s; cbn [cond_Zopp] in H; lia.
Qed.

Lemma mul_not_nan (x y : float) :
  fin x = true -> fin y = true -> not_nan (Prim2SF (x * y)%float) = true.
Proof.
  intros. rewrite mul_spec. apply SFmul_val; auto using Prim2SF_valid.
Qed.

Lemma add_not_nan (x y : float) :
  fin x = true -> fin y = true -> not_nan (Prim2SF (x + y)%float) = true.
Proof.
  intros. rewrite add_spec. apply SFadd_val; auto using Prim2SF_valid.
Qed.

Lemma sub_not_nan (x y : float) :
  fin x = true -> fin y = true -> not_nan (Prim2SF (x - y)%float) = true.
Proof.
  intros. rewrite sub_spec. apply SFsub_val; auto using Prim2SF_valid.
Qed.

Lemma div_not_nan (x y : float) :
  fin x = true -> fin y = true -> 0 < F y ->
  not_nan (Prim2SF (x / y)%float) = true.
Proof.
  intros. rewrite div_spec. apply SFdiv_val; auto using Prim2SF_valid.
Qed.

Lemma div_by_infinity_fin (p d : float) :
  fin p = true -> Prim2SF d = S754_infinity false -> fin (p / d)%float = true.
Proof.
  unfold fin. intros Hp Hd. rewrite div_spec, Hd.
  destruct (Prim2SF p); try discriminate; reflexivity.
Qed.

Lemma sround_abs (z b M B : Z) :
  0 < b -> 0 < B -> Z.abs z * B <= M * b ->
  Z.abs (sround z b) <= sround M B.
Proof.
  intros Hb HB H. destruct (Z.le_gt_cases 0 z) as [Hz|Hz].
  - pose proof (sround_nonneg z b Hz Hb).
    rewrite Z.abs_eq in H |- * by assumption. apply sround_mono; assumption.
  - assert (E : sround z b = - sround (- z) b)
      by (rewrite <- sround_opp, Z.opp_involutive by assumption; reflexivity).
    assert (0 <= sround (- z) b) by (apply sround_nonneg; lia).
    rewrite E, Z.abs_opp, Z.abs_eq by assumption.
    rewrite Z.abs_neq in H by lia. apply sround_mono; assumption.
Qed.

Lemma bounded_fin (x : float) (M : Z) :
  not_nan (Prim2SF x) = true -> Z.abs (F x) <= M -> M < 2 ^ 2098 ->
  fin x = true.
Proof.
  intros N H B. apply fin_of_bound; [exact N|]. hide (2 ^ 2098). lia.
Qed.

Lemma bounded_by_le (x M M' : float) :
  bounded_by x M -> F M <= F M' -> bounded_by x M'.
Proof. intros [Fx H] H'. split; [exact Fx|lia]. Qed.

Lemma mul_bounded (x y X Y : float) :
  bounded_by x X -> bounded_by y Y -> fin (X * Y)%float = true ->
  bounded_by (x * y)%float (X * Y)%float.
Proof.
  intros [Fx Hx] [Fy Hy] FXY. destruct (mul_fin _ _ FXY) as [FX FY].
  assert (H : Z.abs (F (x * y)%float) <= F (X * Y)%float).
  { rewrite !mul_F by assumption.
    assert (P : 0 < 2 ^ 1074) by reflexivity.
    apply sround_abs; try assumption.
    rewrite Z.abs_mul.
    assert (Z.abs (F x) * Z.abs (F y) <= F X * F Y)
      by (apply Z.mul_le_mono_nonneg; lia).
    hide (2 ^ 1074). nia. }
  split; [|exact H].
  apply (bounded_fin _ _ (mul_not_nan x y Fx Fy) H).
  apply fin_bound. exact FXY.
Qed.

Lemma add_bounded (x y X Y : float) :
  bounded_by x X -> bounded_by y Y -> fin (X + Y)%float = true ->
  bounded_by (x + y)%float (X + Y)%float.
Proof.
  intros [Fx Hx] [Fy Hy] FXY. destruct (add_fin _ _ FXY) as [FX FY].
  assert (H : Z.abs (F (x + y)%float) <= F (X + Y)%float).
  { rewrite !add_F by assumption. apply sround_abs; lia. }
  split; [|exact H].
  apply (bounded_fin _ _ (add_not_nan x y Fx Fy) H).
  apply fin_bound. exact FXY.
Qed.

Lemma sub_bounded (x y X Y : float) :
  bounded_by x X -> bounded_by y Y -> fin (X + Y)%float = true ->
  bounded_by (x - y)%float (X + Y)%float.
Proof.
  intros [Fx Hx] [Fy Hy] FXY. destruct (add_fin _ _ FXY) as [FX FY].
  assert (H : Z.abs (F (x - y)%float) <= F (X + Y)%float).
  { rewrite sub_F, add_F by assumption. apply sround_abs; lia. }
  split; [|exact H].
  apply (bounded_fin _ _ (sub_not_nan x y Fx Fy) H).
  apply fin_bound. exact FXY.
Qed.

Lemma div_bounded (p d P D : float) :
  bounded_by p P -> positive_divisor d ->
  fin D = true -> 0 < F D -> F D <= F d ->
  fin (P / D)%float = true ->
  bounded_by (p / d)%float (P / D)%float.
Proof.
  intros [Fp Hp] Hd FD PD HD FPD. pose proof (div_fin _ _ FPD) as FP.
  destruct Hd as [[Fd Pd]|Id].
  - assert (H : Z.abs (F (p / d)%float) <= F (P / D)%float).
    { rewrite !div_F by assumption.
      assert (P0 : 0 < 2 ^ 1074) by reflexivity.
      apply sround_abs; try assumption.
      rewrite Z.abs_mul, (Z.abs_eq (2 ^ 1074)) by discriminate.
      hide (2 ^ 1074).
      assert (Z.abs (F p) * F D <= F P * F d)
        by (apply Z.mul_le_mono_nonneg; lia).
      nia. }
    split; [|exact H].
    apply (bounded_fin _ _ (div_not_nan p d Fp Fd Pd) H).
    apply fin_bound. exact FPD.
  - split; [apply div_by_infinity_fin; assumption|].
    rewrite (div_by_infinity p d Fp Id). cbn [Z.abs].
    apply div_nonneg; [exact FP|left; split; assumption|lia].
Qed.

(** A measurement that passed [gt=0] and is at most [M]. *)
Lemma positive_bounded (x M : float) :
  (0 <? x)%float = true -> (x <=? M)%float = true -> fin M = true ->
  bounded_by x M.
Proof.
  intros Hx H FM. destruct (ltb_not_nan _ _ Hx) as [_ N].
  pose proof (positive_F x Hx) as P.
  rewrite leb_F in H by (auto using fin_not_nan). apply Z.leb_le in H.
  assert (A : Z.abs (F x) <= F M) by (rewrite Z.abs_eq by lia; exact H).
  split; [|exact A].
  apply (bounded_fin _ _ N A). apply fin_bound. exact FM.
Qed.

Lemma bounded_const (c M : float) :
  fin c = true -> (Z.abs (F c) <=? F M) = true -> bounded_by c M.
Proof. intros Fc H. split; [exact Fc|apply Z.leb_le; exact H]. Qed.

Lemma calculate_ibw_bounded (h : float) (s : Sex) :
  bounded_by h 1e100 -> bounded_by (calculate_ibw h s) ibw_bound.
Proof.
  intros Hh. rewrite calculate_ibw_eq. unfold ibw_bound.
  apply add_bounded; [|apply mul_bounded|reflexivity].
  - destruct s; apply bounded_const; reflexivity.
  - apply bounded_const; reflexivity.
  - apply sub_bounded; [exact Hh|apply bounded_const; reflexivity|reflexivity].
  - reflexivity.
Qed.

Lemma adjusted_body_weight_bounded (w i : float) :
  bounded_by w 1e100 -> bounded_by i ibw_bound ->
  bounded_by (adjusted_body_weight w i) body_weight_bound.
Proof.
  intros Hw Hi. unfold adjusted_body_weight.
  destruct (i <? w)%float.
  - unfold body_weight_bound.
    apply add_bounded; [exact Hi|apply mul_bounded|reflexivity].
    + apply bounded_const; reflexivity.
    + apply sub_bounded; [exact Hw|exact Hi|reflexivity].
    + reflexivity.
  - apply (bounded_by_le _ _ _ Hw). vm_compute. discriminate.
Qed.

Lemma clearance_fin (a x f d : float) :
  bounded_by a 1e9 -> bounded_by x body_weight_bound -> bounded_by f 1 ->
  positive_divisor d -> F (72 * 1e-100)%float <= F d ->
  fin (a * x * f / d)%float = true.
Proof.
  intros Ha Hx Hf Hd HD.
  apply (div_bounded (a * x * f) d (1e9 * body_weight_bound * 1) (72 * 1e-100)).
  - apply mul_bounded; [apply mul_bounded|exact Hf|reflexivity];
      [exact Ha|exact Hx|reflexivity].
  - exact Hd.
  - reflexivity.
  - vm_compute. reflexivity.
  - exact HD.
  - reflexivity.
Qed.

Lemma float_of_int_bounded (n : Z) (a : float) :
  - 10 ^ 9 <= n <= 10 ^ 9 -> Py.float_of_int n = Ok a -> bounded_by a 1e9.
Proof.
  intros Hn H. split; [exact (float_of_int_fin n a H)|].
  assert (Hp : Py.float_of_int (10 ^ 9) = Ok 1e9%float)
    by (vm_compute; reflexivity).
  assert (Hm : Py.float_of_int (- 10 ^ 9) = Ok (-1e9)%float)
    by (vm_compute; reflexivity).
  pose proof (float_of_int_mono n (10 ^ 9) a _ (proj2 Hn) H Hp) as U.
  pose proof (float_of_int_mono (- 10 ^ 9) n _ a (proj1 Hn) Hm H) as L.
  assert (E : F (-1e9)%float = - F 1e9%float) by (vm_compute; reflexivity).
  rewrite E in L. lia.
Qed.

(** X17: on every validated input whose weight and height are at most 1e100,
    whose age is at most a thousand million and whose serum creatinine
    is at least 1e-100, the calculation returns an output: none of the
    conversions, divisions and roundings raises. *)
Theorem calculate_crcl_returns (data : CrClFormInput) :
  validated data = true ->
  (data.(weight) <=? 1e100)%float = true ->
  (data.(height) <=? 1e100)%float = true ->
  data.(age) <= 10 ^ 9 ->
  (1e-100 <=? data.(serum_creatinine))%float = true ->
  exists out : CrClFormOutput, calculate_crcl data = Ok out.
Proof.
  intros V Hw Hh Hage Hc.
  apply validated_fields in V. destruct V as (Vw & Vh & Va & Vc).
  destruct (float_of_int_small (140 - age data)) as [a Ha].
  { assert (10 ^ 9 < 2 ^ 1023) by reflexivity.
    hide (2 ^ 1023). lia. }
  assert (Ba : bounded_by a 1e9)
    by (apply (float_of_int_bounded (140 - age data)); [lia|exact Ha]).
  pose proof (mul_72_nonzero _ Vc) as Hz.
  pose proof (mul_72_positive _ Vc) as Hd.
  assert (HD : F (72 * 1e-100)%float <= F (72 * serum_creatinine data)%float)
    by (apply mul_72_mono; [reflexivity|exact Vc|exact Hc]).
  pose proof (positive_bounded _ _ Vw Hw eq_refl) as Bw.
  pose proof (positive_bounded _ _ Vh Hh eq_refl) as Bh.
  unfold calculate_crcl. rewrite crcl_locals_eq, Ha, Hz. cbv zeta. cbn [bind].
  set (w := match unit_system data with
            | metric => weight data
            | imperial => (weight data * 0.453592)%float
            end).
  set (h := match unit_system data with
            | metric => (height data / 2.54)%float
            | imperial => height data
            end).
  assert (Bw' : bounded_by w 1e100).
  { unfold w. destruct (unit_system data); [exact Bw|].
    apply bounded_by_le with (M := (1e100 * 0.453592)%float);
      [|vm_compute; discriminate].
    apply mul_bounded; [exact Bw|apply bounded_const; reflexivity|reflexivity]. }
  assert (Bh' : bounded_by h 1e100).
  { unfold h. destruct (unit_system data); [|exact Bh].
    apply bounded_by_le with (M := (1e100 / 2.54)%float);
      [|vm_compute; discriminate].
    apply div_bounded.
    - exact Bh.
    - left. split; reflexivity.
    - reflexivity.
    - reflexivity.
    - apply Z.le_refl.
    - reflexivity. }
  pose proof (calculate_ibw_bounded h (sex data) Bh') as Bi.
  pose proof (adjusted_body_weight_bounded w _ Bw' Bi) as Bb.
  set (i := calculate_ibw h (sex data)) in *.
  set (b := adjusted_body_weight w i) in *.
  set (f := (if Sex_eqb (sex data) female then 0.85 else 1)%float).
  assert (Bf : bounded_by f 1)
    by (unfold f; destruct (sex data); apply bounded_const; reflexivity).
  match goal with
  | |- exists out, bind (round_locals ?l) _ = _ =>
      destruct (round_locals l) as [r|e] eqn:R
  end.
  - cbn [bind]. rewrite (format_output_eq _ r R). eexists. reflexivity.
  - exfalso. apply round_locals_Raise in R. destruct R as [R _].
    unfold clearances_finite in R.
    cbn [original_crcl modified_crcl crcl_using_ibw] in R.
    rewrite !clearance_fin in R; try assumption; try discriminate.
    + apply (bounded_by_le _ _ _ Bi). vm_compute. discriminate.
    + apply (bounded_by_le _ _ _ Bw'). vm_compute. discriminate.
Qed.

Lemma calculate_crcl_returns_witness :
  exists out : CrClFormOutput, calculate_crcl scenario_1 = Ok out.
Proof.
  apply calculate_crcl_returns; try reflexivity. vm_compute. discriminate.
Defined.

(* ================================================================== *)
(** ** Accuracy of the original clearance *)

(** Rounding to 53 significant bits moves a value of at least [2^53]
    units of the last place by at most one part in [2^53], of the value
    and of the result. *)
Lemma ru_relative (z b : Z) :
  0 < b -> 2 ^ 53 * b <= z ->
  0 < ru z b /\
  2 ^ 53 * Z.abs (ru z b * b - z) <= z /\
  2 ^ 53 * Z.abs (ru z b * b - z) <= ru z b * b.
Proof.
  intros Hb Hz. unfold ru.
  assert (Hq : 2 ^ 53 <= z / b) by (apply Z.div_le_lower_bound; lia).
  destruct (Zdigits2_bounds (z / b)) as [Ld Ud]; [lia|].
  set (d := Zdigits2 (z / b)) in *.
  assert (Hd : 54 <= d).
  { destruct (Z.le_gt_cases 54 d) as [H|H]; [exact H|exfalso].
    assert (0 <= d) by apply Zdigits2_nonneg.
    assert (2 ^ d <= 2 ^ 53) by (apply pow2_le; lia). lia. }
  replace (Z.max 0 (d - 53)) with (d - 53) by lia.
  set (n := d - 53).
  assert (Pn : 0 < 2 ^ n) by (apply pow2_pos; unfold n; lia).
  assert (E : 2 ^ (d - 1) = 2 ^ 52 * 2 ^ n).
  { replace (d - 1) with (52 + n) by (unfold n; lia).
    apply pow2_add; unfold n; lia. }
  rewrite E in Ld.
  assert (Hzb : z / b * b <= z) by (rewrite Z.mul_comm; apply Z.mul_div_le; lia).
  assert (HD : 2 ^ 52 * (b * 2 ^ n) <= z) by nia.
  set (D := b * 2 ^ n) in *.
  assert (PD : 0 < D) by (unfold D; nia).
  destruct (rhe_spec z D PD) as ((L & U) & _).
  pose proof (rhe_ge z D (2 ^ 52) PD HD) as Hm.
  set (m := rhe z D) in *.
  replace (m * 2 ^ n * b) with (m * D) by (unfold D; ring).
  assert (2 ^ 52 * D <= m * D) by nia.
  change (2 ^ 53) with (2 * 2 ^ 52). change (2 ^ 52) with 4503599627370496 in *.
  repeat split; try nia; try lia.
Qed.

Lemma sround_relative (z b : Z) :
  0 < b -> 2 ^ 53 * b <= z -> sround z b < 2 ^ 2098 ->
  0 < sround z b /\
  2 ^ 53 * Z.abs (sround z b * b - z) <= z /\
  2 ^ 53 * Z.abs (sround z b * b - z) <= sround z b * b.
Proof.
  intros Hb Hz Hlt.
  assert (0 <= z) by nia.
  rewrite sround_pos in Hlt |- * by assumption.
  rewrite clamp_eq_of_lt by assumption.
  apply ru_relative; assumption.
Qed.

Lemma mul_relative (x y : float) :
  fin x = true -> fin y = true -> fin (x * y)%float = true ->
  2 ^ 53 * 2 ^ 1074 <= F x * F y ->
  0 < F (x * y)%float /\
  2 ^ 53 * Z.abs (F (x * y)%float * 2 ^ 1074 - F x * F y) <= F x * F y /\
  2 ^ 53 * Z.abs (F (x * y)%float * 2 ^ 1074 - F x * F y)
    <= F (x * y)%float * 2 ^ 1074.
Proof.
  intros Fx Fy Fxy H. pose proof (fin_bound _ Fxy) as [_ B].
  rewrite mul_F in B |- * by assumption.
  apply sround_relative; [reflexivity|exact H|exact B].
Qed.

Lemma div_relative (x y : float) :
  fin x = true -> fin y = true -> 0 < F y -> fin (x / y)%float = true ->
  2 ^ 53 * F y <= F x * 2 ^ 1074 ->
  0 < F (x / y)%float /\
  2 ^ 53 * Z.abs (F (x / y)%float * F y - F x * 2 ^ 1074) <= F x * 2 ^ 1074 /\
  2 ^ 53 * Z.abs (F (x / y)%float * F y - F x * 2 ^ 1074)
    <= F (x / y)%float * F y.
Proof.
  intros Fx Fy Py Fxy H. pose proof (fin_bound _ Fxy) as [_ B].
  rewrite div_F in B |- * by assumption.
  apply sround_relative; [exact Py|exact H|exact B].
Qed.

Import QArith Qabs Lqa.
Import Exact.

(** *** Ratios of positive rationals *)

Lemma within_mul (E1 E2 x1 q1 x2 q2 : Q) :
  within E1 x1 q1 -> within E2 x2 q2 ->
  within (E1 * E2) (x1 * x2) (q1 * q2).
Proof.
  unfold within. intros (A1 & B1 & C1 & D1) (A2 & B2 & C2 & D2).
  assert (0 < x1 * E1)%Q by lra. assert (0 < x2 * E2)%Q by lra.
  assert (0 < q1 * E1)%Q by lra. assert (0 < q2 * E2)%Q by lra.
  repeat split; nra.
Qed.

Lemma within_trans (E1 E2 x y z : Q) :
  within E1 x y -> within E2 y z -> within (E1 * E2) x z.
Proof.
  unfold within. intros (A1 & B1 & C1 & D1) (A2 & B2 & C2 & D2).
  assert (0 < E1)%Q by nra. assert (0 < E2)%Q by nra.
  repeat split; try assumption; nra.
Qed.

Lemma within_eq (E x x' q q' : Q) :
  (x == x')%Q -> (q == q')%Q -> within E x q -> within E x' q'.
Proof. unfold within. intros Hx Hq. rewrite Hx, Hq. tauto. Qed.

Lemma within_eq_r (E x q q' : Q) :
  (q == q')%Q -> within E x q -> within E x q'.
Proof. intros H. apply within_eq; [reflexivity|exact H]. Qed.

Lemma within_weaken (E E' x q : Q) :
  (E <= E')%Q -> within E x q -> within E' x q.
Proof.
  unfold within. intros HE (A & B & C & D). repeat split; try assumption; nra.
Qed.

Lemma within_div (E1 E2 x1 q1 x2 q2 : Q) :
  within E1 x1 q1 -> within E2 x2 q2 ->
  within (E1 * E2) (x1 / x2) (q1 / q2).
Proof.
  unfold within. intros (A1 & B1 & C1 & D1) (A2 & B2 & C2 & D2).
  assert (Ha : (x1 / x2 * x2 == x1)%Q) by (field; lra).
  assert (Hb : (q1 / q2 * q2 == q1)%Q) by (field; lra).
  set (a := (x1 / x2)%Q) in *. set (b := (q1 / q2)%Q) in *.
  assert (0 < E1)%Q by nra. assert (0 < E2)%Q by nra.
  assert (0 < a)%Q by nra. assert (0 < b)%Q by nra.
  repeat split; try assumption.
  - apply (Qmult_le_r _ _ q2 B2).
    assert (0 <= a * E1)%Q by nra.
    assert (a * E1 * x2 <= a * E1 * (q2 * E2))%Q by nra.
    nra.
  - apply (Qmult_le_r _ _ x2 A2).
    assert (0 <= b * E1)%Q by nra.
    assert (b * E1 * q2 <= b * E1 * (x2 * E2))%Q by nra.
    nra.
Qed.

(** *** Floats as rationals *)

Lemma within_of_relative (r z : Z) (b u d : positive) :
  Zpos d = (Zpos b * Zpos u)%Z ->
  (0 < r)%Z -> (0 < z)%Z ->
  (2 ^ 53 * Z.abs (r * Zpos b - z) <= z)%Z ->
  (2 ^ 53 * Z.abs (r * Zpos b - z) <= r * Zpos b)%Z ->
  within (1 + eps) (r # u) (z # d).
Proof.
  intros Hd Hr Hz H1 H2. unfold within, eps, Qlt, Qle, Qplus, Qmult.
  cbn [Qnum Qden]. rewrite ?Pos2Z.inj_mul, Hd.
  change (Zpos (2 ^ 53)%positive) with 9007199254740992%Z.
  change (2 ^ 53)%Z with 9007199254740992%Z in H1, H2.
  assert (0 < Zpos b)%Z by reflexivity. assert (0 < Zpos u)%Z by reflexivity.
  set (B := Zpos b) in *. set (U := Zpos u) in *. clearbody B U.
  repeat split; try lia; nia.
Qed.

Lemma mul_within (x y : float) :
  fin x = true -> fin y = true -> fin (x * y)%float = true ->
  (2 ^ 53 * 2 ^ 1074 <= F x * F y)%Z ->
  within (1 + eps) (value (x * y)%float) (value x * value y).
Proof.
  intros Fx Fy Fxy H.
  destruct (mul_relative x y Fx Fy Fxy H) as (P & H1 & H2).
  unfold value, Qmult. cbn [Qnum Qden].
  apply (within_of_relative _ _ (2 ^ 1074) (2 ^ 1074));
    [apply Pos2Z.inj_mul|exact P| |exact H1|exact H2].
  assert (0 < 2 ^ 53 * 2 ^ 1074)%Z by reflexivity.
  hide (2 ^ 53 * 2 ^ 1074)%Z. lia.
Qed.

Lemma div_within (x y : float) :
  fin x = true -> fin y = true -> (0 < F y)%Z -> fin (x / y)%float = true ->
  (2 ^ 53 * F y <= F x * 2 ^ 1074)%Z ->
  within (1 + eps) (value (x / y)%float) (value x / value y).
Proof.
  intros Fx Fy Py Fxy H.
  destruct (div_relative x y Fx Fy Py Fxy H) as (P & H1 & H2).
  unfold value, Qdiv, Qinv, Qmult. cbn [Qnum Qden].
  destruct (F y) as [|p|p] eqn:E; try discriminate Py.
  cbn [Qnum Qden].
  apply (within_of_relative _ _ p (2 ^ 1074));
    [rewrite Pos2Z.inj_mul; apply Z.mul_comm|exact P| |exact H1|exact H2].
  assert (0 < 2 ^ 53 * Zpos p)%Z by reflexivity. lia.
Qed.

Lemma value_of_units (x : float) (n : Z) :
  F x = (n * 2 ^ 1074)%Z -> (value x == inject_Z n)%Q.
Proof.
  intros H. unfold value, Qeq, inject_Z. cbn [Qnum Qden]. rewrite H.
  rewrite Z.mul_1_r. reflexivity.
Qed.

Lemma within_refl (x : Q) : (0 < x)%Q -> within (1 + eps) x x.
Proof.
  intros H. unfold within. assert (0 < eps)%Q by reflexivity.
  repeat split; try assumption; nra.
Qed.

Lemma sex_factor_within (s : Sex) :
  within (1 + eps) (value (if Sex_eqb s female then 0.85 else 1.0)%float)
         (sex_factor_exact s).
Proof.
  destruct s; cbn [Sex_eqb sex_factor_exact].
  - apply (within_eq _ 1 _ 1 _); [|reflexivity|apply within_refl; reflexivity].
    symmetry. apply (value_of_units 1 1). vm_compute. reflexivity.
  - unfold within. repeat split; vm_compute; first [reflexivity|discriminate].
Qed.

Lemma float_of_int_exact (n : Z) (a : float) :
  (0 <= n < 2 ^ 53)%Z -> Py.float_of_int n = Ok a ->
  F a = (n * 2 ^ 1074)%Z.
Proof.
  intros Hn H. apply float_of_int_F in H. destruct H as (_ & -> & _).
  apply sround_exact_pos; [exact Hn|discriminate|].
  change (2 ^ 2098)%Z with (2 ^ 1024 * 2 ^ 1074)%Z.
  assert (2 ^ 53 < 2 ^ 1024)%Z by reflexivity.
  assert (0 < 2 ^ 1074)%Z by reflexivity.
  hide (2 ^ 1074)%Z. hide (2 ^ 1024)%Z. nia.
Qed.

(** The nearest integer is within one half of the value. *)
Lemma round_units_half (z : Z) :
  (Qabs (inject_Z (round_units z) - (z # 2 ^ 1074)) <= 1 # 2)%Q.
Proof.
  destruct (round_units_nearest z) as [H _].
  set (r := round_units z) in *.
  apply Qabs_Qle_condition.
  unfold Qle, Qminus, Qplus, Qopp, inject_Z. cbn [Qnum Qden].
  rewrite ?Pos2Z.inj_mul.
  change (Zpos (2 ^ 1074)%positive) with (2 ^ 1074)%Z.
  assert (0 < 2 ^ 1074)%Z by reflexivity. hide (2 ^ 1074)%Z.
  split; lia.
Qed.

Lemma within_error (d x q : Q) :
  (0 <= d)%Q -> within (1 + d) x q -> (Qabs (x - q) <= q * d)%Q.
Proof.
  unfold within. intros Hd (A & B & C & D).
  apply Qabs_Qle_condition. split; nra.
Qed.

Lemma leb_F_le (x y : float) :
  (x <=? y)%float = true -> (F x <= F y)%Z.
Proof.
  intros H.
  assert (N : not_nan (Prim2SF x) = true /\ not_nan (Prim2SF y) = true).
  { rewrite FloatAxioms.leb_spec in H. unfold SFleb in H.
    destruct (Prim2SF x), (Prim2SF y); cbn in H; try discriminate; auto. }
  destruct N as [Nx Ny]. rewrite leb_F in H by assumption.
  apply Z.leb_le. exact H.
Qed.

(** X18: on a validated input with an age below 140, a weight in kg of at
    least 1e-100 and a serum creatinine between 1e-100 and 1e100, the
    rounded original clearance differs from the exact value of
    [(140 - age) * weight * sex factor / (72 * serum creatinine)], taken
    on the numbers the doubles stand for and with the sex factor 0.85 or
    1 as a decimal, by at most one half plus one part in [2^50] of that
    value: the five roundings of the floating-point evaluation and the
    final [round] lose no more. *)
Theorem original_crcl_accuracy
    (data : CrClFormInput) (l : Locals) (r : Rounded) :
  validated data = true ->
  crcl_locals data = Ok l ->
  round_locals l = Ok r ->
  (data.(age) < 140)%Z ->
  (1e-100 <=? l.(weight_in_kg))%float = true ->
  (1e-100 <=? data.(serum_creatinine))%float = true ->
  (data.(serum_creatinine) <=? 1e100)%float = true ->
  let exact :=
    cockcroft_gault_exact data.(age) (value l.(weight_in_kg)) data.(sex)
                          (value data.(serum_creatinine)) in
  (Qabs (inject_Z r.(original_crcl_int) - exact)
   <= (1 # 2) + exact * (1 # 2 ^ 50))%Q.
Proof.
  intros V L R Hage Hw Hc1 Hc2 exact.
  destruct (crcl_run data l r V L R)
    as (a & A & Fa & _ & _ & _ & _ & Ef & Ff & Pf & D &
        (Fw & Pw) & _ & _ & (Eo & Qo & Po & Fo & Io) & _).
  apply validated_fields in V. destruct V as (_ & _ & Va & Vc).
  set (w := weight_in_kg l) in *. set (f := sex_factor l) in *.
  set (c := serum_creatinine data) in *. set (n := (140 - age data)%Z) in *.
  (* the factor 140 - age is exact *)
  assert (Hn : (1 <= n <= 122)%Z) by (unfold n; lia).
  assert (Ea : F a = (n * 2 ^ 1074)%Z).
  { apply float_of_int_exact; [|exact A].
    assert (122 < 2 ^ 53)%Z by reflexivity. lia. }
  (* lower bounds on the operands *)
  assert (Lw : (F 1e-100 <= F w)%Z) by (apply leb_F_le; exact Hw).
  assert (Lc : (F 1e-100 <= F c)%Z) by (apply leb_F_le; exact Hc1).
  assert (Fc : fin c = true).
  { destruct (positive_cases c Vc) as [[G _]|I]; [exact G|exfalso].
    apply leb_F_le in Hc2. rewrite (F_infinity c I) in Hc2.
    pose proof (fin_bound 1e100 eq_refl) as B. hide (2 ^ 2098)%Z. lia. }
  assert (Ud : (F (72 * c)%float <= F (72 * 1e100)%float)%Z)
    by (apply mul_72_mono; [exact Vc|reflexivity|exact Hc2]).
  assert (Fd : fin (72 * c)%float = true /\ (0 < F (72 * c)%float)%Z).
  { destruct D as [G|I]; [exact G|exfalso]. rewrite (F_infinity _ I) in Ud.
    pose proof (fin_bound (72 * 1e100)%float eq_refl) as B.
    hide (2 ^ 2098)%Z. lia. }
  destruct Fd as [Fd Pd].
  assert (L1 : (F (1 * 1e-100)%float <= F (a * w)%float)%Z).
  { apply Z.le_trans with (F (1 * w)%float).
    - apply mul_mono_r; try assumption; try reflexivity.
      vm_compute. discriminate.
    - apply mul_mono_l; try assumption; try reflexivity.
      rewrite Ea. change (F 1) with (1 * 2 ^ 1074)%Z.
      assert (0 < 2 ^ 1074)%Z by reflexivity. hide (2 ^ 1074)%Z. nia. }
  assert (Lf : (F 0.85 <= F f)%Z).
  { rewrite Ef. destruct (sex data); vm_compute; discriminate. }
  assert (L2 : (F (1 * 1e-100 * 0.85)%float <= F (a * w * f)%float)%Z).
  { apply Z.le_trans with (F (1 * 1e-100 * f)%float).
    - apply mul_mono_r; try assumption; try reflexivity.
      vm_compute. discriminate.
    - apply mul_mono_l; try assumption; try reflexivity. }
  (* the four roundings *)
  assert (Wd : within (1 + eps) (value (72 * c)%float) (72 * value c)).
  { apply (within_eq_r _ _ (value 72 * value c)).
    - rewrite (value_of_units 72 72) by (vm_compute; reflexivity). reflexivity.
    - apply mul_within; try assumption; try reflexivity.
      change (F 72) with (72 * 2 ^ 1074)%Z.
      assert (2 ^ 53 <= F 1e-100)%Z by (vm_compute; discriminate).
      assert (0 < 2 ^ 1074)%Z by reflexivity.
      hide (2 ^ 1074)%Z. hide (F 1e-100). nia. }
  assert (W1 : within (1 + eps) (value (a * w)%float) (inject_Z n * value w)).
  { apply (within_eq_r _ _ (value a * value w)).
    - rewrite (value_of_units a n Ea). reflexivity.
    - apply mul_within; try assumption. rewrite Ea.
      assert (2 ^ 53 <= F 1e-100)%Z by (vm_compute; discriminate).
      assert (0 < 2 ^ 1074)%Z by reflexivity.
      hide (2 ^ 1074)%Z. hide (F 1e-100).
      assert (2 ^ 53 <= n * F w)%Z by nia. nia. }
  assert (Wf : within (1 + eps) (value f) (sex_factor_exact (sex data))).
  { rewrite Ef. apply sex_factor_within. }
  assert (W2 : within (1 + eps) (value (a * w * f)%float)
                      (value (a * w)%float * value f)).
  { apply mul_within; try assumption.
    assert (2 ^ 53 * 2 ^ 1074 <= F (1 * 1e-100)%float * F 0.85)%Z
      by (vm_compute; discriminate).
    assert (0 < F 0.85)%Z by reflexivity.
    assert (0 < F (1 * 1e-100)%float)%Z by reflexivity.
    hide (2 ^ 53 * 2 ^ 1074)%Z. hide (F (1 * 1e-100)%float). hide (F 0.85).
    nia. }
  assert (Wo : within (1 + eps) (value (a * w * f / (72 * c))%float)
                      (value (a * w * f)%float / value (72 * c)%float)).
  { rewrite Eo in Fo. apply div_within; try assumption.
    assert (2 ^ 53 * F (72 * 1e100)%float
            <= F (1 * 1e-100 * 0.85)%float * 2 ^ 1074)%Z
      by (vm_compute; discriminate).
    assert (0 < 2 ^ 1074)%Z by reflexivity.
    hide (2 ^ 1074)%Z. hide (F (72 * 1e100)%float).
    hide (F (1 * 1e-100 * 0.85)%float). nia. }
  (* together *)
  pose proof (within_trans _ _ _ _ _ W2 (within_mul _ _ _ _ _ _ W1 Wf)) as W3.
  pose proof (within_trans _ _ _ _ _ Wo (within_div _ _ _ _ _ _ W3 Wd)) as W.
  rewrite <- Eo in W. unfold exact, cockcroft_gault_exact. fold n.
  set (q := (inject_Z n * value w * sex_factor_exact (sex data)
             / (72 * value c))%Q) in *.
  apply (within_weaken _ (1 + (1 # 2 ^ 50))) in W;
    [|vm_compute; discriminate].
  apply within_error in W; [|discriminate].
  pose proof (round_units_half (F (original_crcl l))) as Hr.
  rewrite <- Io in Hr. fold (value (original_crcl l)) in Hr.
  set (x := value (original_crcl l)) in *.
  set (k := inject_Z (original_crcl_int r)) in *.
  apply Qabs_Qle_condition in W, Hr. apply Qabs_Qle_condition.
  split; lra.
Qed.

Lemma original_crcl_accuracy_witness :
  exists (l : Locals) (r : Rounded),
    crcl_locals scenario_1 = Ok l /\ round_locals l = Ok r /\
    r.(original_crcl_int) = 84%Z /\
    (Qabs (inject_Z 84
           - cockcroft_gault_exact 45 (value 70) male (value 1.1))
     <= (1 # 2)
        + cockcroft_gault_exact 45 (value 70) male (value 1.1)
          * (1 # 2 ^ 50))%Q.
Proof.
  destruct (crcl_locals scenario_1) as [l|e] eqn:L;
    [|vm_compute in L; discriminate].
  destruct (round_locals l) as [r|e] eqn:R;
    [|vm_compute in L; injection L as <-; vm_compute in R; discriminate].
  exists l, r. split; [reflexivity|]. split; [exact R|].
  pose proof (original_crcl_accuracy scenario_1 l r eq_refl L R) as H.
  vm_compute in L. injection L as <-.
  vm_compute in R. injection R as <-.
  split; [reflexivity|].
  apply H; reflexivity.
Defined.
